(** * Nickel File Renamer: selection model, suggestion pipeline, rename applier

    A shallow embedding of [nickel_file_renamer.py] (class [NickelFileRenamer]).
    The Tk widgets the class keeps its state in are modelled by the data they
    hold: the directory [Treeview] by a tree of items, the other two
    [Treeview]s by lists of rows, buttons by their [state] option.  Handlers
    become functions on one session record [app]; message boxes, thread
    starts and [os.rename] calls are appended to a log. *)

From stdpp Require Import base strings list gmap pretty.
From Stdlib Require Import ZArith Lia Ascii.

(** ** [os.path] (posixpath)

    A Python [str] is held as its UTF-8 encoding.  The characters the code
    looks for (the slash, the braces) are single bytes that occur in no
    longer encoding, and two encodings are ordered as their code points
    are, so that searching, splitting and comparing are the same on the
    encodings as on the strings. *)

Definition sep : ascii := "/"%char.

(** [(p[:i], p[i:])] for [i = p.rfind('/') + 1]. *)
Fixpoint rsplit_sep (p : string) : string * string :=
  match p with
  | EmptyString => (EmptyString, EmptyString)
  | String c r =>
      let '(head, tail) := rsplit_sep r in
      match head with
      | EmptyString =>
          if Ascii.eqb c sep then (String c EmptyString, tail)
          else (EmptyString, String c tail)
      | _ => (String c head, tail)
      end
  end.

(** [s.rstrip('/')] *)
Fixpoint rstrip_sep (s : string) : string :=
  match s with
  | EmptyString => EmptyString
  | String c r =>
      match rstrip_sep r with
      | EmptyString => if Ascii.eqb c sep then EmptyString else String c EmptyString
      | r' => String c r'
      end
  end.

(** [s == '/' * len(s)] *)
Fixpoint all_sep (s : string) : bool :=
  match s with
  | EmptyString => true
  | String c r => Ascii.eqb c sep && all_sep r
  end.

(** [s.endswith('/')] *)
Fixpoint endswith_sep (s : string) : bool :=
  match s with
  | EmptyString => false
  | String c EmptyString => Ascii.eqb c sep
  | String _ r => endswith_sep r
  end.

(** [s.startswith('/')] *)
Definition startswith_sep (s : string) : bool :=
  match s with
  | String c _ => Ascii.eqb c sep
  | EmptyString => false
  end.

(** [os.path.basename(p)]: [p[p.rfind('/')+1:]]. *)
Definition basename (p : string) : string := snd (rsplit_sep p).

(** [os.path.dirname(p)]: the head, with trailing slashes stripped unless it
    consists of slashes only. *)
Definition dirname (p : string) : string :=
  let head := fst (rsplit_sep p) in
  if negb (String.eqb head "") && negb (all_sep head) then rstrip_sep head
  else head.

(** [os.path.join(a, b)] *)
Definition join (a b : string) : string :=
  if startswith_sep b then b
  else if String.eqb a "" || endswith_sep a then a +:+ b
  else a +:+ "/" +:+ b.

(** ** Python strings *)

Definition nl : string := String (ascii_of_nat 10) EmptyString.

(** The UTF-8 encoding of a code point below 65536. *)
Definition utf8 (code : N) : string :=
  if (code <? 128)%N then String (ascii_of_N code) EmptyString
  else if (code <? 2048)%N then
    String (ascii_of_N (192 + code / 64))
      (String (ascii_of_N (128 + code mod 64)) EmptyString)
  else
    String (ascii_of_N (224 + code / 4096))
      (String (ascii_of_N (128 + (code / 64) mod 64))
         (String (ascii_of_N (128 + code mod 64)) EmptyString)).

(** The characters [c] with [c.isspace()], which [str.strip] removes: tab
    to carriage return, the separators 28 to 31, the space, U+0085, U+00A0,
    U+1680, U+2000 to U+200A, U+2028, U+2029, U+202F, U+205F and U+3000. *)
Definition whitespace : list string :=
  map utf8
    [9; 10; 11; 12; 13; 28; 29; 30; 31; 32; 133; 160; 5760;
     8192; 8193; 8194; 8195; 8196; 8197; 8198; 8199; 8200; 8201; 8202;
     8232; 8233; 8239; 8287; 12288]%N.

(** The number of bytes of the whitespace character [s] starts with, 0 when
    it starts with none. *)
Definition space_width (s : string) : nat :=
  match List.find (fun w => String.prefix w s) whitespace with
  | Some w => String.length w
  | None => 0
  end.

Fixpoint lstrip (s : string) : string :=
  match s with
  | EmptyString => EmptyString
  | String _ r =>
      match space_width s, r with
      | 1, _ => lstrip r
      | 2, String _ r => lstrip r
      | 3, String _ (String _ r) => lstrip r
      | _, _ => s
      end
  end.

(** [s] consists of whitespace. *)
Definition blank (s : string) : bool := String.eqb (lstrip s) "".

Fixpoint rstrip (s : string) : string :=
  match s with
  | EmptyString => EmptyString
  | String c r => if blank s then EmptyString else String c (rstrip r)
  end.

Definition strip (s : string) : string := rstrip (lstrip s).

(** [s[0]] of a string that is not empty: the bytes of its first
    character. *)
Definition first_char (s : string) : string :=
  match s with
  | EmptyString => EmptyString
  | String c _ =>
      let n := nat_of_ascii c in
      String.substring 0
        (if (n <? 192)%nat then 1 else if (n <? 224)%nat then 2
         else if (n <? 240)%nat then 3 else 4) s
  end.

Definition startswith_char (c : ascii) (s : string) : bool :=
  match s with
  | String d _ => Ascii.eqb d c
  | EmptyString => false
  end.

(** [sep.join(l)] *)
Fixpoint str_join (sep : string) (l : list string) : string :=
  match l with
  | [] => ""
  | [x] => x
  | x :: r => x +:+ sep +:+ str_join sep r
  end.

(** [s[s.find(c):]] when [c] occurs in [s]. *)
Fixpoint from_first (c : ascii) (s : string) : option string :=
  match s with
  | EmptyString => None
  | String d r => if Ascii.eqb d c then Some s else from_first c r
  end.

(** [s[:s.rfind(c)+1]] when [c] occurs in [s]. *)
Fixpoint upto_last (c : ascii) (s : string) : option string :=
  match s with
  | EmptyString => None
  | String d r =>
      match upto_last c r with
      | Some t => Some (String d t)
      | None => if Ascii.eqb d c then Some (String d EmptyString) else None
      end
  end.

(** [re.search(r'({.*})', s, re.DOTALL)], giving [group(1)]: the leftmost
    ['{'] that has a ['}'] after it starts the match, and the greedy [.*]
    (which with [DOTALL] also crosses newlines) runs to the last ['}']. *)
Definition re_search_braces (s : string) : option string :=
  match from_first "{" s with
  | Some (String b r) =>
      match upto_last "}" r with
      | Some t => Some (String b t)
      | None => None
      end
  | _ => None
  end.

(** ** Exceptions, JSON values and the worker's environment *)

Record exn := Exn { exn_type : string; exn_msg : string }.

(** [str(e)] *)
Definition str_exn (e : exn) : string := exn_msg e.

Definition Exception (msg : string) : exn := Exn "Exception" msg.
Definition ValueError (msg : string) : exn := Exn "ValueError" msg.

(** What [response.json()] decodes to. *)
#[local] Unset Elimination Schemes.
Inductive json :=
| JNull
| JBool (b : bool)
| JNumber (literal : string)
| JString (s : string)
| JArray (l : list json)
| JObject (kvs : list (string * json)).
#[local] Set Elimination Schemes.

(** What the interpreter and the [json] module contribute:
    - [json_loads text] is [json.loads(text)].  The worker only passes it
      texts whose first character after blanks is ['{'], on which it raises
      or returns a dict; the values are taken to be strings, as the
      annotation [Dict[str, str]] of [rename_suggestions] has them;
    - [raised_on op v] is the [KeyError], [IndexError], [TypeError] or
      [AttributeError] raised when [op] fails on the value [v];
    - [format_value v] is what an f-string prints for a value that is not a
      string;
    - [str_lower s] is [s.lower()], which follows the Unicode tables;
    - [int_of_str s] is [int(s)], or [None] when it raises [ValueError]:
      the blanks, sign, digits of any script and underscores it accepts are
      the interpreter's. *)
Class Runtime := {
  json_loads : string -> exn + gmap string string;
  raised_on : string -> json -> exn;
  format_value : json -> string;
  str_lower : string -> string;
  int_of_str : string -> option Z
}.

(** What [requests.post] and [response.json()] did for one request. *)
Inductive http_reply :=
| post_raised (e : exn)
| post_response (status_code : Z) (response_json : exn + json).

(** What the worker puts in the queue. *)
Inductive outcome :=
| Success (suggestions_dict : gmap string string)
| Raised (e : exn).

Fixpoint assoc (k : string) (kvs : list (string * json)) : option json :=
  match kvs with
  | [] => None
  | (k', v) :: r => if String.eqb k' k then Some v else assoc k r
  end.

(** [v.get(k, default)]; [None] when [v] has no [get] (it is not a dict). *)
Definition dict_get (v : json) (k : string) (default : json) : option json :=
  match v with
  | JObject kvs => Some (from_option id default (assoc k kvs))
  | _ => None
  end.

(** [v[k]] for a string key *)
Definition getitem_key `{Runtime} (v : json) (k : string) : exn + json :=
  match v with
  | JObject kvs =>
      match assoc k kvs with
      | Some x => inr x
      | None => inl (raised_on k v)
      end
  | _ => inl (raised_on k v)
  end.

(** [v[0]]; a non-empty string gives its first character. *)
Definition getitem_0 `{Runtime} (v : json) : exn + json :=
  match v with
  | JArray (x :: _) => inr x
  | JString (String c r) => inr (JString (first_char (String c r)))
  | _ => inl (raised_on "0" v)
  end.

(** What an f-string prints for [v]. *)
Definition format_json `{Runtime} (v : json) : string :=
  match v with
  | JString s => s
  | _ => format_value v
  end.

(** ** [_run_ai_request_thread]

    The worker, as a function of what the HTTP call did; its result is the
    one value it puts in the queue it was given. *)

(** The [if response.status_code != 200] block up to its [raise]. *)
Definition api_error_message `{Runtime} (status_code : Z)
    (response_json : exn + json) : string :=
  let error_message := "API Error: Status " +:+ pretty status_code in
  match response_json with
  | inr error_data =>
      match dict_get error_data "error" (JObject []) with
      | Some err =>
          match dict_get err "message" (JString "Unknown error") with
          | Some m => error_message +:+ nl +:+ format_json m
          | None => error_message
          end
      | None => error_message
      end
  | inl _ => error_message
  end.

(** The block under [# Extract JSON from the response]: the text handed to
    [json.loads], or the [ValueError]. *)
Definition extract_json (suggestions_text : string) : exn + string :=
  if negb (startswith_char "{" (strip suggestions_text)) then
    match re_search_braces suggestions_text with
    | Some group1 => inr group1
    | None => inl (ValueError "AI response did not contain a valid JSON object.")
    end
  else inr suggestions_text.

Definition _run_ai_request_thread `{Runtime} (reply : http_reply) : outcome :=
  match reply with
  | post_raised e => Raised e
  | post_response status_code response_json =>
      if negb (status_code =? 200)%Z then
        Raised (Exception (api_error_message status_code response_json))
      else
        match response_json with
        | inl e => Raised e
        | inr response_data =>
            match getitem_key response_data "choices" with
            | inl e => Raised e
            | inr choices =>
            match getitem_0 choices with
            | inl e => Raised e
            | inr choice =>
            match getitem_key choice "message" with
            | inl e => Raised e
            | inr message =>
            match getitem_key message "content" with
            | inl e => Raised e
            | inr (JString suggestions_text) =>
                match extract_json suggestions_text with
                | inl e => Raised e
                | inr text =>
                    match json_loads text with
                    | inl e => Raised e
                    | inr suggestions_dict => Success suggestions_dict
                    end
                end
            | inr content => Raised (raised_on "strip" content)
            end end end end
        end
  end.

(** ** The widgets' data *)

(** The "Selected" column of [dir_tree]: the checked box, the empty box, or
    the empty string of the placeholder row. *)
Inductive checkbox := Checked | Unchecked | Blank.

(** The "Type" column: ["Folder"], ["File"], or the placeholder's [""]. *)
Inductive kind := Folder | File | NoKind.

Global Instance checkbox_eq_dec : EqDecision checkbox.
Proof. solve_decision. Defined.
Global Instance kind_eq_dec : EqDecision kind.
Proof. solve_decision. Defined.

(** One item of [dir_tree] with the items below it. *)
#[local] Unset Elimination Schemes.
Inductive item := Item {
  text : string;
  selected : checkbox;
  item_type : kind;
  is_open : bool;
  children : list item
}.
#[local] Set Elimination Schemes.

(** An item of [dir_tree] is named by its position: the child indexes that
    lead to it from ["root"], which is [[]]. *)
Definition item_id := list nat.

(** A row of [results_tree]: its item id, its three values, and whether it
    is in the widget's selection. *)
Record row := Row {
  iid : nat;
  Original : string;
  Suggested : string;
  row_type : kind;
  in_selection : bool
}.

Inductive tk_state := NORMAL | DISABLED.

Global Instance tk_state_eq_dec : EqDecision tk_state.
Proof. solve_decision. Defined.

(** The [data] of a request: [model] and the one message's [content]. *)
Record request := Request { model : string; content : string }.

Inductive effect :=
| showwarning (title message : string)
| showerror (title message : string)
| showinfo (title message : string)
| thread_start (data : request) (queue : nat)
| queue_get (result : outcome)
| rename_call (src dst : string) (raised : option exn).

(** ** The filesystem *)

(** [os_listdir] gives the exception [os.listdir] raises, or the names;
    [os_rename] gives the exception or the disk after the rename. *)
Class Filesystem (FS : Type) := {
  os_listdir : FS -> string -> exn + list string;
  os_path_isdir : FS -> string -> bool;
  os_rename : FS -> string -> string -> exn + FS
}.

(** Whether [except PermissionError] takes the exception. *)
Definition is_PermissionError (e : exn) : bool :=
  String.eqb (exn_type e) "PermissionError".

(** ** The session *)

Record app {FS : Type} := App {
  fs : FS;  (* the disk *)
  root_directory : string;  (* [self.root_directory] *)
  selected_items : list (string * bool);  (* [(path, is_folder)] tuples *)
  rename_suggestions : gmap string string;
  dir_tree : item;  (* the item ["root"] of [self.dir_tree] *)
  (* rows of [self.items_tree]: text, Type *)
  items_tree : list (string * kind);
  results_tree : list row;  (* rows of [self.results_tree] *)
  next_iid : nat;  (* the next item id of [self.results_tree] *)
  (* [self.rename_instructions.get("1.0", tk.END)] *)
  rename_instructions : string;
  model_var : string;  (* [self.model_var.get()] *)
  status_label : string;
  suggestions_button : tk_state;
  apply_button : tk_state;
  (* [self.result_queue]: which [Queue] it is, and its content *)
  result_queue : nat * list outcome;
  (* running worker threads, by the queue each was given *)
  workers : list nat;
  timers : nat;  (* pending [window.after(100, self._check_ai_thread)] calls *)
  log : list effect  (* message boxes, thread starts, renames, oldest first *)
}.
Arguments app : clear implicits.

Definition set_fs {FS} (v : FS) (st : app FS) : app FS :=
  App FS v (root_directory st) (selected_items st) (rename_suggestions st)
    (dir_tree st) (items_tree st) (results_tree st) (next_iid st)
    (rename_instructions st) (model_var st) (status_label st)
    (suggestions_button st) (apply_button st) (result_queue st) (workers st)
    (timers st) (log st).
Definition set_selected_items {FS} (v : list (string * bool)) (st : app FS) : app FS :=
  App FS (fs st) (root_directory st) v (rename_suggestions st) (dir_tree st)
    (items_tree st) (results_tree st) (next_iid st) (rename_instructions st)
    (model_var st) (status_label st) (suggestions_button st)
    (apply_button st) (result_queue st) (workers st) (timers st) (log st).
Definition set_rename_suggestions {FS} (v : gmap string string) (st : app FS) : app FS :=
  App FS (fs st) (root_directory st) (selected_items st) v (dir_tree st)
    (items_tree st) (results_tree st) (next_iid st) (rename_instructions st)
    (model_var st) (status_label st) (suggestions_button st)
    (apply_button st) (result_queue st) (workers st) (timers st) (log st).
Definition set_dir_tree {FS} (v : item) (st : app FS) : app FS :=
  App FS (fs st) (root_directory st) (selected_items st)
    (rename_suggestions st) v (items_tree st) (results_tree st) (next_iid st)
    (rename_instructions st) (model_var st) (status_label st)
    (suggestions_button st) (apply_button st) (result_queue st) (workers st)
    (timers st) (log st).
Definition set_items_tree {FS} (v : list (string * kind)) (st : app FS) : app FS :=
  App FS (fs st) (root_directory st) (selected_items st)
    (rename_suggestions st) (dir_tree st) v (results_tree st) (next_iid st)
    (rename_instructions st) (model_var st) (status_label st)
    (suggestions_button st) (apply_button st) (result_queue st) (workers st)
    (timers st) (log st).
Definition set_results_tree {FS} (v : list row) (st : app FS) : app FS :=
  App FS (fs st) (root_directory st) (selected_items st)
    (rename_suggestions st) (dir_tree st) (items_tree st) v (next_iid st)
    (rename_instructions st) (model_var st) (status_label st)
    (suggestions_button st) (apply_button st) (result_queue st) (workers st)
    (timers st) (log st).
Definition set_next_iid {FS} (v : nat) (st : app FS) : app FS :=
  App FS (fs st) (root_directory st) (selected_items st)
    (rename_suggestions st) (dir_tree st) (items_tree st) (results_tree st) v
    (rename_instructions st) (model_var st) (status_label st)
    (suggestions_button st) (apply_button st) (result_queue st) (workers st)
    (timers st) (log st).
Definition set_status_label {FS} (v : string) (st : app FS) : app FS :=
  App FS (fs st) (root_directory st) (selected_items st)
    (rename_suggestions st) (dir_tree st) (items_tree st) (results_tree st)
    (next_iid st) (rename_instructions st) (model_var st) v
    (suggestions_button st) (apply_button st) (result_queue st) (workers st)
    (timers st) (log st).
Definition set_suggestions_button {FS} (v : tk_state) (st : app FS) : app FS :=
  App FS (fs st) (root_directory st) (selected_items st)
    (rename_suggestions st) (dir_tree st) (items_tree st) (results_tree st)
    (next_iid st) (rename_instructions st) (model_var st) (status_label st) v
    (apply_button st) (result_queue st) (workers st) (timers st) (log st).
Definition set_apply_button {FS} (v : tk_state) (st : app FS) : app FS :=
  App FS (fs st) (root_directory st) (selected_items st)
    (rename_suggestions st) (dir_tree st) (items_tree st) (results_tree st)
    (next_iid st) (rename_instructions st) (model_var st) (status_label st)
    (suggestions_button st) v (result_queue st) (workers st) (timers st)
    (log st).
Definition set_result_queue {FS} (v : nat * list outcome) (st : app FS) : app FS :=
  App FS (fs st) (root_directory st) (selected_items st)
    (rename_suggestions st) (dir_tree st) (items_tree st) (results_tree st)
    (next_iid st) (rename_instructions st) (model_var st) (status_label st)
    (suggestions_button st) (apply_button st) v (workers st) (timers st)
    (log st).
Definition set_workers {FS} (v : list nat) (st : app FS) : app FS :=
  App FS (fs st) (root_directory st) (selected_items st)
    (rename_suggestions st) (dir_tree st) (items_tree st) (results_tree st)
    (next_iid st) (rename_instructions st) (model_var st) (status_label st)
    (suggestions_button st) (apply_button st) (result_queue st) v (timers st)
    (log st).
Definition set_timers {FS} (v : nat) (st : app FS) : app FS :=
  App FS (fs st) (root_directory st) (selected_items st)
    (rename_suggestions st) (dir_tree st) (items_tree st) (results_tree st)
    (next_iid st) (rename_instructions st) (model_var st) (status_label st)
    (suggestions_button st) (apply_button st) (result_queue st) (workers st)
    v (log st).
Definition set_log {FS} (v : list effect) (st : app FS) : app FS :=
  App FS (fs st) (root_directory st) (selected_items st)
    (rename_suggestions st) (dir_tree st) (items_tree st) (results_tree st)
    (next_iid st) (rename_instructions st) (model_var st) (status_label st)
    (suggestions_button st) (apply_button st) (result_queue st) (workers st)
    (timers st) v.

Definition log_effect {FS} (e : effect) (st : app FS) : app FS :=
  set_log (log st ++ [e]) st.

(** ** Items of [dir_tree] *)

Definition set_selected (v : checkbox) (t : item) : item :=
  Item (text t) v (item_type t) (is_open t) (children t).
Definition set_is_open (v : bool) (t : item) : item :=
  Item (text t) (selected t) (item_type t) v (children t).
Definition set_children (v : list item) (t : item) : item :=
  Item (text t) (selected t) (item_type t) (is_open t) v.

(** The item at a position, if there is one. *)
Fixpoint tree_item (t : item) (i : item_id) : option item :=
  match i with
  | [] => Some t
  | k :: i' =>
      match children t !! k with
      | Some c => tree_item c i'
      | None => None
      end
  end.

(** Changing the item at a position; nothing changes when there is none. *)
Fixpoint tree_alter (f : item -> item) (i : item_id) (t : item) : item :=
  match i with
  | [] => f t
  | k :: i' => set_children (alter (tree_alter f i') k (children t)) t
  end.

(** The path of the item at position [i] below [node], whose own path is
    [node_path]: each step down joins the child's text. *)
Fixpoint full_path_from (node : item) (node_path : string) (i : item_id)
    : option string :=
  match i with
  | [] => Some node_path
  | k :: i' =>
      match children node !! k with
      | Some c => full_path_from c (join node_path (text c)) i'
      | None => None
      end
  end.

(** The row that stands for a folder's contents until it is expanded. *)
Definition placeholder : item := Item "Loading..." Blank NoKind false [].

Definition kind_of (is_folder : bool) : kind :=
  if is_folder then Folder else File.

Definition box_of (is_selected : bool) : checkbox :=
  if is_selected then Checked else Unchecked.

(** [any(path == p for path, _ in selected_items)] *)
Definition path_selected (p : string) (selected_items : list (string * bool))
    : bool :=
  existsb (fun entry => String.eqb (fst entry) p) selected_items.

(** Removing the first element that satisfies [f]: a loop that pops or
    deletes at the first match and breaks. *)
Fixpoint remove_first {A} (f : A -> bool) (l : list A) : list A :=
  match l with
  | [] => []
  | x :: r => if f x then r else x :: remove_first f r
  end.

(** The index of the first child whose text is [name]. *)
Fixpoint child_index (name : string) (cs : list item) : option nat :=
  match cs with
  | [] => None
  | c :: r =>
      if String.eqb (text c) name then Some 0
      else S <$> child_index name r
  end.

(** [items.sort(key=lambda x: (0 if isdir(x) else 1, x.lower()))]: the
    stable sort, folders first, then by lowered name. *)
Definition key_lt (k1 k2 : bool * string) : bool :=
  match fst k1, fst k2 with
  | true, false => true
  | false, true => false
  | _, _ => String.ltb (snd k1) (snd k2)
  end.

Fixpoint insert_sorted {A} (key : A -> bool * string) (x : A) (l : list A)
    : list A :=
  match l with
  | [] => [x]
  | y :: r =>
      if key_lt (key x) (key y) then x :: l else y :: insert_sorted key x r
  end.

Definition sort_by {A} (key : A -> bool * string) (l : list A) : list A :=
  fold_left (fun acc x => insert_sorted key x acc) l [].

(** Setting every "Selected" value in the tree. *)
Fixpoint update_node_and_children (v : checkbox) (node : item) : item :=
  Item (text node) v (item_type node) (is_open node)
       (map (update_node_and_children v) (children node)).

(** [find_item_by_path] of [update_dir_tree_checkbox]: depth first, only
    below folders that are open. *)
Fixpoint find_item_by_path (path : string) (node : item)
    (current_path : string) : option item_id :=
  if String.eqb current_path path then Some []
  else if bool_decide (item_type node = Folder) && is_open node then
    (fix search (cs : list item) (k : nat) : option item_id :=
       match cs with
       | [] => None
       | child :: cs' =>
           match find_item_by_path path child (join current_path (text child)) with
           | Some result => Some (k :: result)
           | None => search cs' (S k)
           end
       end) (children node) 0
  else None.

(** ** Handlers of the directory tree and the selection *)

Section Handlers.
Context {FS : Type} `{!Filesystem FS} `{!Runtime}.

Definition get_full_path (st : app FS) (i : item_id) : option string :=
  full_path_from (dir_tree st) (root_directory st) i.

(** [self.dir_tree.set(item_id, "Selected", v)] *)
Definition dir_tree_set (i : item_id) (v : checkbox) (st : app FS) : app FS :=
  set_dir_tree (tree_alter (set_selected v) i (dir_tree st)) st.

Definition add_tree_item_to_selection (i : item_id) (st : app FS) : app FS :=
  match get_full_path st i, tree_item (dir_tree st) i with
  | Some item_path, Some it =>
      let item_type := item_type it in
      let is_folder := bool_decide (item_type = Folder) in
      if negb (path_selected item_path (selected_items st)) then
        set_items_tree (items_tree st ++ [(basename item_path, item_type)])
          (set_selected_items (selected_items st ++ [(item_path, is_folder)]) st)
      else st
  | _, _ => st
  end.

Definition remove_tree_item_from_selection (i : item_id) (st : app FS)
    : app FS :=
  match get_full_path st i with
  | Some item_path =>
      if path_selected item_path (selected_items st) then
        set_items_tree
          (remove_first (fun r => String.eqb (fst r) (basename item_path))
             (items_tree st))
          (set_selected_items
             (remove_first (fun entry => String.eqb (fst entry) item_path)
                (selected_items st)) st)
      else st
  | None => st
  end.

(** A click in the checkbox cell of the row [i]. *)
Definition on_tree_checkbox_click (i : item_id) (st : app FS) : app FS :=
  match tree_item (dir_tree st) i with
  | Some it =>
      if bool_decide (selected it = Checked) then
        remove_tree_item_from_selection i (dir_tree_set i Unchecked st)
      else
        add_tree_item_to_selection i (dir_tree_set i Checked st)
  | None => st
  end.

(** [select_tree_item] and [deselect_tree_item], for [dir_tree.selection()]
    being [sel]. *)
Definition select_tree_item (sel : list item_id) (st : app FS) : app FS :=
  match sel with
  | [] => st
  | i :: _ => add_tree_item_to_selection i (dir_tree_set i Checked st)
  end.

Definition deselect_tree_item (sel : list item_id) (st : app FS) : app FS :=
  match sel with
  | [] => st
  | i :: _ => remove_tree_item_from_selection i (dir_tree_set i Unchecked st)
  end.

(** One turn of the loop of [select_tree_item_contents]. *)
Definition select_child (i : item_id) (item_path child_name : string)
    (st : app FS) : app FS :=
  let child_path := join item_path child_name in
  let is_folder := os_path_isdir (fs st) child_path in
  if negb (path_selected child_path (selected_items st)) then
    let st :=
      set_items_tree (items_tree st ++ [(child_name, kind_of is_folder)])
        (set_selected_items (selected_items st ++ [(child_path, is_folder)]) st) in
    match tree_item (dir_tree st) i with
    | Some it =>
        match child_index child_name (children it) with
        | Some k => dir_tree_set (i ++ [k]) Checked st
        | None => st
        end
    | None => st
    end
  else st.

(** The session when the handler is left, by its end or by the exception
    of [os.listdir] that [except PermissionError] does not take. *)
Definition select_tree_item_contents (sel : list item_id) (st : app FS)
    : app FS :=
  match sel with
  | [] => st
  | i :: _ =>
      match tree_item (dir_tree st) i, get_full_path st i with
      | Some it, Some item_path =>
          if bool_decide (item_type it = Folder) then
            let st := set_dir_tree (tree_alter (set_is_open true) i (dir_tree st)) st in
            match os_listdir (fs st) item_path with
            | inr names =>
                fold_left (fun st child_name => select_child i item_path child_name st)
                  names st
            | inl e =>
                if is_PermissionError e then
                  log_effect (showwarning "Permission Error" ("Cannot access " +:+ item_path)) st
                else st
            end
          else st
      | _, _ => st
      end
  end.

Definition expand_tree_item (sel : list item_id) (st : app FS) : app FS :=
  match sel with
  | [] => st
  | i :: _ => set_dir_tree (tree_alter (set_is_open true) i (dir_tree st)) st
  end.

Definition collapse_tree_item (sel : list item_id) (st : app FS) : app FS :=
  match sel with
  | [] => st
  | i :: _ => set_dir_tree (tree_alter (set_is_open false) i (dir_tree st)) st
  end.

(** The items [populate_directory_subtree] inserts for a listing. *)
Definition new_items (st : app FS) (parent_path : string) (items : list string)
    : list item :=
  let items :=
    sort_by (fun x => (os_path_isdir (fs st) (join parent_path x), str_lower x)) items in
  map (fun name =>
         let item_path := join parent_path name in
         let is_dir := os_path_isdir (fs st) item_path in
         let is_selected := path_selected item_path (selected_items st) in
         Item name (box_of is_selected) (kind_of is_dir) false
              (if is_dir then [placeholder] else []))
      items.

(** The exception that leaves the method, if one does, and the session:
    [except PermissionError] takes no other exception of [os.listdir]. *)
Definition populate_directory_subtree (parent_node : item_id)
    (parent_path : string) (st : app FS) : option exn * app FS :=
  match os_listdir (fs st) parent_path with
  | inr items =>
      (None,
       set_dir_tree
         (tree_alter
            (fun t => set_children (children t ++ new_items st parent_path items) t)
            parent_node (dir_tree st)) st)
  | inl e =>
      if is_PermissionError e then
        (None,
         log_effect (showwarning "Permission Error" ("Cannot access " +:+ parent_path)) st)
      else (Some e, st)
  end.

Definition populate_directory_tree (st : app FS) : option exn * app FS :=
  let root_name :=
    if String.eqb (basename (root_directory st)) "" then root_directory st
    else basename (root_directory st) in
  populate_directory_subtree [] (root_directory st)
    (set_dir_tree (Item root_name Unchecked Folder true []) st).

(** [<<TreeviewOpen>>] for the item [i] that has the focus: the session when
    the handler is left, by its end or by an exception. *)
Definition on_folder_expanded (i : item_id) (st : app FS) : app FS :=
  match tree_item (dir_tree st) i, get_full_path st i with
  | Some it, Some path =>
      match children it with
      | [child] =>
          if String.eqb (text child) "Loading..." then
            snd (populate_directory_subtree i path
                   (set_dir_tree (tree_alter (set_children []) i (dir_tree st)) st))
          else st
      | _ => st
      end
  | _, _ => st
  end.

Definition update_dir_tree_checkbox (path : string) (is_selected : bool)
    (st : app FS) : app FS :=
  match find_item_by_path path (dir_tree st) (root_directory st) with
  | Some found_item => dir_tree_set found_item (box_of is_selected) st
  | None => st
  end.

(** [remove_selected_item] for the one row of [items_tree], the [k]-th, that
    the context menu selected. *)
Definition remove_selected_item (k : nat) (st : app FS) : app FS :=
  match items_tree st !! k with
  | Some (item_name, _) =>
      let st :=
        match List.find (fun entry => String.eqb (basename (fst entry)) item_name)
                (selected_items st) with
        | Some (path, _) =>
            update_dir_tree_checkbox path false
              (set_selected_items
                 (remove_first
                    (fun entry => String.eqb (basename (fst entry)) item_name)
                    (selected_items st)) st)
        | None => st
        end in
      set_items_tree (delete k (items_tree st)) st
  | None => st
  end.

Definition update_all_dir_tree_checkboxes (is_selected : bool) (st : app FS)
    : app FS :=
  set_dir_tree (update_node_and_children (box_of is_selected) (dir_tree st)) st.

Definition clear_selection (st : app FS) : app FS :=
  update_all_dir_tree_checkboxes false
    (set_items_tree [] (set_selected_items [] st)).

End Handlers.

(** ** The suggestion table, the pipeline and the applier *)

(** [l[l.index(x)] = y] *)
Fixpoint replace_first {A} `{EqDecision A} (x y : A) (l : list A) : list A :=
  match l with
  | [] => []
  | z :: r => if decide (z = x) then y :: r else z :: replace_first x y r
  end.

(** The first [(path, is_folder)] whose basename is [name]. *)
Definition resolve (name : string) (selected_items : list (string * bool))
    : option (string * bool) :=
  List.find (fun entry => String.eqb (basename (fst entry)) name) selected_items.

(** *** What ttk returns for the values of a row

    [Treeview.item(item)] without an option hands each value of the row to
    [_convert_stringval], which returns [int(value)] when that does not
    raise and the value otherwise: a row read with
    [results_tree.item(item)['values']] gives numbers for the cells whose
    text can be read as a number. *)
Inductive cell := Text (s : string) | Number (n : Z).

Definition _convert_stringval `{!Runtime} (value : string) : cell :=
  match int_of_str value with
  | Some n => Number n
  | None => Text value
  end.

(** [a == b]: a string equals no number. *)
Definition cell_eqb (a b : cell) : bool :=
  match a, b with
  | Text s, Text t => String.eqb s t
  | Number n, Number m => Z.eqb n m
  | _, _ => false
  end.

(** What an f-string prints for a cell. *)
Definition format_cell (v : cell) : string :=
  match v with
  | Text s => s
  | Number n => pretty n
  end.

(** The first [(path, is_folder)] with [os.path.basename(path) == name]. *)
Definition resolve_cell (name : cell) (selected_items : list (string * bool))
    : option (string * bool) :=
  List.find (fun entry => cell_eqb (Text (basename (fst entry))) name)
    selected_items.

(** [name in rename_suggestions], whose keys are strings. *)
Definition cell_in (name : cell) (rename_suggestions : gmap string string)
    : bool :=
  match name with
  | Text name => bool_decide (is_Some (rename_suggestions !! name))
  | Number _ => false
  end.

Section Pipeline.
Context {FS : Type} `{!Filesystem FS} `{!Runtime}.

Definition select_all_suggestions (st : app FS) : app FS :=
  set_results_tree
    (map (fun r => Row (iid r) (Original r) (Suggested r) (row_type r) true)
       (results_tree st)) st.

Definition deselect_all_suggestions (st : app FS) : app FS :=
  set_results_tree
    (map (fun r => Row (iid r) (Original r) (Suggested r) (row_type r) false)
       (results_tree st)) st.

(** The user picking rows of [results_tree]: the selection becomes [ids]. *)
Definition results_tree_selection_set (ids : list nat) (st : app FS) : app FS :=
  set_results_tree
    (map (fun r => Row (iid r) (Original r) (Suggested r) (row_type r)
                     (bool_decide (iid r ∈ ids)))
       (results_tree st)) st.

(** [save_edited_cell] on the "Suggested" cell of the row [item_id]. *)
Definition save_edited_cell (item_id : nat) (new_value : string) (st : app FS)
    : app FS :=
  set_results_tree
    (map (fun r => if Nat.eqb (iid r) item_id
                   then Row (iid r) (Original r) new_value (row_type r) (in_selection r)
                   else r)
       (results_tree st)) st.

(** The body of the loop of [reject_selected_suggestions] for one row. *)
Definition reject_row (r : row) (st : app FS) : app FS :=
  let original_name := _convert_stringval (Original r) in
  let item_type := row_type r in
  if cell_in original_name (rename_suggestions st) then
    let st :=
      match resolve_cell original_name (selected_items st) with
      | Some (path, is_folder) =>
          if negb (path_selected path (selected_items st)) then
            update_dir_tree_checkbox path true
              (set_items_tree
                 (items_tree st ++ [(format_cell original_name, item_type)])
                 (set_selected_items (selected_items st ++ [(path, is_folder)]) st))
          else st
      | None => st
      end in
    set_rename_suggestions
      (delete (format_cell original_name) (rename_suggestions st))
      (set_results_tree
         (remove_first (fun r' => Nat.eqb (iid r') (iid r)) (results_tree st)) st)
  else st.

Definition reject_selected_suggestions (st : app FS) : app FS :=
  match filter (fun r => in_selection r = true) (results_tree st) with
  | [] => log_effect (showwarning "Warning" "Please select suggestions to reject!") st
  | selected_rows => fold_left (fun st r => reject_row r st) selected_rows st
  end.

(** The body of the success loop of [_check_ai_thread] for one entry. *)
Definition suggest_entry (result : gmap string string) (entry : string * bool)
    (st : app FS) : app FS :=
  let '(path, is_folder) := entry in
  let original_name := basename path in
  match result !! original_name with
  | Some suggested_name =>
      set_next_iid (S (next_iid st))
        (set_results_tree
           (remove_first
              (fun r => cell_eqb (_convert_stringval (Original r)) (Text original_name))
              (results_tree st)
            ++ [Row (next_iid st) original_name suggested_name (kind_of is_folder) false])
           (set_rename_suggestions
              (<[original_name := suggested_name]> (rename_suggestions st)) st))
  | None => st
  end.

Definition _check_ai_thread (st : app FS) : app FS :=
  match snd (result_queue st) with
  | result :: rest =>
      let st :=
        log_effect (queue_get result)
          (set_result_queue (fst (result_queue st), rest) st) in
      let st :=
        match result with
        | Raised e =>
            log_effect
              (showerror "Error" ("Failed to get AI suggestions: " +:+ str_exn e)) st
        | Success result =>
            clear_selection
              (select_all_suggestions
                 (fold_left (fun st entry => suggest_entry result entry st)
                    (selected_items st) st))
        end in
      set_apply_button NORMAL
        (set_suggestions_button NORMAL (set_status_label "" st))
  | [] => set_timers (S (timers st)) st
  end.

Definition indent : string := "        ".

Definition prompt_of (st : app FS) : string :=
  let items_list :=
    map (fun entry : string * bool =>
           basename (fst entry) +:+ " (type: "
           +:+ (if snd entry then "folder" else "file") +:+ ")")
      (selected_items st) in
  let items_text := str_join nl items_list in
  "Given these file/folder names:" +:+ nl
  +:+ indent +:+ items_text +:+ nl
  +:+ indent +:+ nl
  +:+ indent +:+ strip (rename_instructions st) +:+ nl
  +:+ indent +:+ nl
  +:+ indent +:+ "Provide suggestions in a JSON format with original names as keys and suggested names as values." +:+ nl
  +:+ indent +:+ "Keep the file extensions unchanged for files." +:+ nl
  +:+ indent +:+ "Return ONLY valid JSON with no other explanatory text.".

(** The first [_check_ai_thread] runs at once, on the new queue, which the
    worker fills later. *)
Definition get_ai_suggestions (st : app FS) : app FS :=
  match selected_items st with
  | [] => log_effect (showwarning "Warning" "Please select files or folders first!") st
  | _ =>
      let st :=
        set_apply_button DISABLED
          (set_suggestions_button DISABLED
             (set_status_label "Generating suggestions..." st)) in
      let data := Request (model_var st) (prompt_of st) in
      let q := S (fst (result_queue st)) in
      let st := set_result_queue (q, []) st in
      let st := log_effect (thread_start data q) (set_workers (workers st ++ [q]) st) in
      _check_ai_thread st
  end.

(** The body of the loop of [apply_renames] for one row, with the two
    counters.  [os.path.join] raises its [TypeError] for a new name that is
    a number, inside the [try]. *)
Definition apply_row (r : row) (acc : app FS * nat * nat) : app FS * nat * nat :=
  let '(st, renamed_count, error_count) := acc in
  let original_name := _convert_stringval (Original r) in
  let new_name := _convert_stringval (Suggested r) in
  if cell_eqb original_name new_name then acc
  else
    match resolve_cell original_name (selected_items st) with
    | Some (original_path, is_folder) =>
        if String.eqb original_path "" then acc
        else
          let failed (e : exn) (st : app FS) :=
            (log_effect
               (showerror "Error"
                  ("Failed to rename " +:+ format_cell original_name +:+ ": "
                   +:+ str_exn e)) st,
             renamed_count, S error_count) in
          match new_name with
          | Number n => failed (raised_on "join" (JNumber (pretty n))) st
          | Text new_name =>
              let new_path := join (dirname original_path) new_name in
              match os_rename (fs st) original_path new_path with
              | inr fs' =>
                  (set_selected_items
                     (replace_first (original_path, is_folder) (new_path, is_folder)
                        (selected_items st))
                     (log_effect (rename_call original_path new_path None)
                        (set_fs fs' st)),
                   S renamed_count, error_count)
              | inl e =>
                  failed e
                    (log_effect (rename_call original_path new_path (Some e)) st)
              end
          end
    | None => acc
    end.

(** The message boxes under [# Show results summary]. *)
Definition summary (renamed_count error_count : nat) : list effect :=
  if (0 <? renamed_count)%nat then
    [showinfo "Success"
       ("Renamed " +:+ pretty renamed_count +:+ " items successfully."
        +:+ (if (0 <? error_count)%nat
             then " Failed to rename " +:+ pretty error_count +:+ " items."
             else ""))]
  else if (error_count =? 0)%nat then
    [showinfo "Info" "No items needed renaming."]
  else [].

(** The session when the handler is left: an exception of
    [populate_directory_tree] leaves it before the list of selected items
    is refreshed. *)
Definition apply_renames (st : app FS) : app FS :=
  match filter (fun r => in_selection r = true) (results_tree st) with
  | [] => log_effect (showwarning "Warning" "Please select items to rename!") st
  | selected_rows =>
      let '(st, renamed_count, error_count) :=
        fold_left (fun acc r => apply_row r acc) selected_rows (st, 0, 0) in
      let st := set_log (log st ++ summary renamed_count error_count) st in
      match populate_directory_tree st with
      | (None, st) =>
          set_items_tree
            (map (fun entry : string * bool =>
                    (basename (fst entry), kind_of (snd entry)))
               (selected_items st)) st
      | (Some e, st) => st
      end
  end.

(** ** The event loop *)

(** What the user, the worker thread and the Tk timer can do.  A click on a
    disabled button does nothing; [worker_done q reply] is the worker that
    was given queue [q] finishing its call with [reply]. *)
Inductive event :=
| click_checkbox (i : item_id)
| menu_select_item (i : item_id)
| menu_deselect_item (i : item_id)
| menu_select_contents (i : item_id)
| menu_expand (i : item_id)
| menu_collapse (i : item_id)
| open_folder (i : item_id)
| close_folder (i : item_id)
| menu_remove_from_selection (k : nat)
| click_clear_selection
| click_select_all
| click_deselect_all
| pick_rows (ids : list nat)
| edit_suggested (item_id : nat) (new_value : string)
| click_reject_selected
| click_get_suggestions
| click_apply
| worker_done (q : nat) (reply : http_reply)
| timer_fired.

Definition step (e : event) (st : app FS) : app FS :=
  match e with
  | click_checkbox i => on_tree_checkbox_click i st
  | menu_select_item i => select_tree_item [i] st
  | menu_deselect_item i => deselect_tree_item [i] st
  | menu_select_contents i => select_tree_item_contents [i] st
  | menu_expand i => expand_tree_item [i] st
  | menu_collapse i => collapse_tree_item [i] st
  | open_folder i => on_folder_expanded i (expand_tree_item [i] st)
  | close_folder i => collapse_tree_item [i] st
  | menu_remove_from_selection k => remove_selected_item k st
  | click_clear_selection => clear_selection st
  | click_select_all => select_all_suggestions st
  | click_deselect_all => deselect_all_suggestions st
  | pick_rows ids => results_tree_selection_set ids st
  | edit_suggested item_id new_value => save_edited_cell item_id new_value st
  | click_reject_selected => reject_selected_suggestions st
  | click_get_suggestions =>
      if bool_decide (suggestions_button st = NORMAL) then get_ai_suggestions st
      else st
  | click_apply =>
      if bool_decide (apply_button st = NORMAL) then apply_renames st else st
  | worker_done q reply =>
      if bool_decide (q ∈ workers st) then
        let st := set_workers (remove_first (Nat.eqb q) (workers st)) st in
        if Nat.eqb q (fst (result_queue st)) then
          set_result_queue
            (q, snd (result_queue st) ++ [_run_ai_request_thread reply]) st
        else st
      else st
  | timer_fired =>
      match timers st with
      | S n => _check_ai_thread (set_timers n st)
      | O => st
      end
  end.

Definition run (events : list event) (st : app FS) : app FS :=
  fold_left (fun st e => step e st) events st.

(** The session as [setup_ui] leaves it, with the exception of
    [populate_directory_tree] that ends it, if there is one. *)
Definition start (disk : FS) (root_dir instructions model_name : string)
    : option exn * app FS :=
  populate_directory_tree
    (App FS disk root_dir [] ∅ placeholder [] [] 0 instructions model_name ""
       NORMAL NORMAL (0, []) [] 0 []).

End Pipeline.

(** ** What the properties speak of *)

Fixpoint no_sep (s : string) : bool :=
  match s with
  | EmptyString => true
  | String c r => negb (Ascii.eqb c sep) && no_sep r
  end.

(** A name as [os.listdir] gives them: not empty, without a slash. *)
Definition is_name (n : string) : bool :=
  negb (String.eqb n "") && no_sep n.

(** The paths that have an entry in the selection. *)
Definition paths (selected_items : list (string * bool)) : list string :=
  map fst selected_items.

(** The items under one item are distinct names. *)
Definition well_named (t : item) : Prop :=
  ∀ i it, tree_item t i = Some it ->
    NoDup (map text (children it))
    ∧ Forall (fun c => is_name (text c) = true) (children it).

(** Every item of the tree is checked exactly when its path is selected. *)
Definition in_sync {FS} (st : app FS) : Prop :=
  ∀ i it p, tree_item (dir_tree st) i = Some it ->
    get_full_path st i = Some p ->
    (selected it = Checked <-> p ∈ paths (selected_items st)).

(** Every listing of the disk consists of names. *)
Definition lists_names {FS} `{!Filesystem FS} (disk : FS) : Prop :=
  ∀ p names, os_listdir disk p = inr names ->
    Forall (fun n => is_name n = true) names.

(** Toggle-check, select-contents and clear-selection. *)
Definition selection_event (e : event) : Prop :=
  match e with
  | click_checkbox _ | menu_select_contents _ | click_clear_selection => True
  | _ => False
  end.

(** Requests whose outcome has not been drained: a worker is running, or
    its outcome waits in the queue. *)
Definition pending {FS} (st : app FS) : nat :=
  length (workers st) + length (snd (result_queue st)).

Definition is_thread_start (e : effect) : bool :=
  match e with thread_start _ _ => true | _ => false end.

Definition is_queue_get (e : effect) : bool :=
  match e with queue_get _ => true | _ => false end.

Definition is_rename_call (e : effect) : bool :=
  match e with rename_call _ _ _ => true | _ => false end.

Definition is_message_box (e : effect) : bool :=
  match e with
  | showwarning _ _ | showerror _ _ | showinfo _ _ => true
  | _ => false
  end.

(** Requests issued and outcomes drained so far. *)
Definition issued_count {FS} (st : app FS) : nat :=
  length (List.filter is_thread_start (log st)).

Definition drained_count {FS} (st : app FS) : nat :=
  length (List.filter is_queue_get (log st)).

(** No request is outstanding and the trigger is enabled. *)
Definition idle {FS} (st : app FS) : Prop :=
  suggestions_button st = NORMAL ∧ workers st = [] ∧ snd (result_queue st) = []
  ∧ timers st = 0.

(** The rows [apply_renames] and [reject_selected_suggestions] work on. *)
Definition selected_rows {FS} (st : app FS) : list row :=
  filter (fun r => in_selection r = true) (results_tree st).

Definition apply_rows {FS} `{!Filesystem FS} `{!Runtime} (rows : list row)
    (acc : app FS * nat * nat) : app FS * nat * nat :=
  fold_left (fun acc r => apply_row r acc) rows acc.

(** The warning [populate_directory_subtree] shows when the root may not be
    listed. *)
Definition listing_warning {FS} `{!Filesystem FS} (st : app FS) : list effect :=
  match os_listdir (fs st) (root_directory st) with
  | inr _ => []
  | inl e =>
      if is_PermissionError e
      then [showwarning "Permission Error" ("Cannot access " +:+ root_directory st)]
      else []
  end.

(** The shortest prefix of [s] that closes [depth] open braces. *)
Fixpoint balanced_prefix (depth : nat) (s : string) : option string :=
  match s with
  | EmptyString => None
  | String c r =>
      if Ascii.eqb c "{" then String c <$> balanced_prefix (S depth) r
      else if Ascii.eqb c "}" then
        match depth with
        | O => None
        | S O => Some (String c EmptyString)
        | S d => String c <$> balanced_prefix d r
        end
      else String c <$> balanced_prefix depth r
  end.

(** The specification's reading of the extraction: the first substring of
    [s] that starts with ['{'] and ends where its braces balance. *)
Fixpoint first_balanced_object (s : string) : option string :=
  match s with
  | EmptyString => None
  | String c r =>
      if Ascii.eqb c "{" then
        match balanced_prefix 1 r with
        | Some t => Some (String c t)
        | None => first_balanced_object r
        end
      else first_balanced_object r
  end.

(** ** Paths and positions *)

(** [p] made ready to take a name: a slash is put after it unless it is
    empty or has one. *)
Definition with_sep (p : string) : string :=
  if String.eqb p "" || endswith_sep p then p else p +:+ "/".

(** The names below a path, each behind its slash. *)
Fixpoint below (ns : list string) : string :=
  match ns with
  | [] => ""
  | n :: ns => "/" +:+ n +:+ below ns
  end.

(** The texts of the items on the way from an item to a position below. *)
Fixpoint names_at (t : item) (i : item_id) : option (list string) :=
  match i with
  | [] => Some []
  | k :: i' =>
      match children t !! k with
      | Some c => cons (text c) <$> names_at c i'
      | None => None
      end
  end.

(** A change of an item's flags: its text and the items below it stay. *)
Definition keeps_names (f : item -> item) : Prop :=
  ∀ t, text (f t) = text t ∧ children (f t) = children t.

(** The names of the items below the item at a position. *)
Definition child_names (t : item) (i : item_id) : option (list string) :=
  (fun it => map text (children it)) <$> tree_item t i.

(** [in_sync] on the parts of the session it reads. *)
Definition synced (t : item) (r : string) (ps : list string) : Prop :=
  ∀ i it p, tree_item t i = Some it -> full_path_from t r i = Some p ->
    (selected it = Checked <-> p ∈ ps).

(** What toggle, select-contents and clear keep true. *)
Definition consistent {FS} (st : app FS) : Prop :=
  well_named (dir_tree st) ∧ NoDup (paths (selected_items st)) ∧ in_sync st.

(** Every item of a tree with its path. *)
Fixpoint items_with_paths (t : item) (p : string) : list (string * item) :=
  (p, t) :: flat_map (fun c => items_with_paths c (join p (text c))) (children t).

(** [well_named] and [in_sync], computed. *)
Definition well_namedb (t : item) : bool :=
  forallb (fun e : string * item =>
             bool_decide (NoDup (map text (children (snd e))))
             && forallb (fun c => is_name (text c)) (children (snd e)))
    (items_with_paths t "").

Definition in_syncb {FS} (st : app FS) : bool :=
  forallb (fun e : string * item =>
             Bool.eqb (bool_decide (selected (snd e) = Checked))
               (path_selected (fst e) (selected_items st)))
    (items_with_paths (dir_tree st) (root_directory st)).

(** ** The pipeline's bookkeeping *)

(** What the pipeline's bookkeeping reads of a session. *)
Definition pipeline_state {FS} (st : app FS)
    : tk_state * list nat * (nat * list outcome) * nat * nat * nat :=
  (suggestions_button st, workers st, result_queue st, timers st,
   issued_count st, drained_count st).

(** A handler that leaves the pipeline alone. *)
Definition quiet {FS} (h : app FS -> app FS) : Prop :=
  ∀ st, pipeline_state (h st) = pipeline_state st.

(** One request at most is outstanding, and the button tells which: with no
    request the session is idle; with one, the button is disabled, one poll
    is scheduled, and either the worker runs or its outcome waits. *)
Definition single_flight {FS} (st : app FS) : Prop :=
  issued_count st = drained_count st + pending st
  ∧ (idle st
     ∨ (suggestions_button st = DISABLED ∧ timers st = 1
        ∧ ((workers st = [fst (result_queue st)] ∧ snd (result_queue st) = [])
           ∨ (workers st = [] ∧ ∃ o, snd (result_queue st) = [o])))).

(** What [_check_ai_thread] does with the outcome it took from the queue. *)
Definition deliver {FS} `{!Runtime} (result : outcome) (st : app FS) : app FS :=
  match result with
  | Raised e =>
      log_effect
        (showerror "Error" ("Failed to get AI suggestions: " +:+ str_exn e)) st
  | Success result =>
      clear_selection
        (select_all_suggestions
           (fold_left (fun st entry => suggest_entry result entry st)
              (selected_items st) st))
  end.

(** The success loop of [_check_ai_thread] over a list of entries. *)
Definition suggest_all {FS} `{!Runtime} (result : gmap string string)
    (entries : list (string * bool)) (st : app FS) : app FS :=
  fold_left (fun st entry => suggest_entry result entry st) entries st.

(** The table has a row for [name] that suggests [v], and the dictionary
    agrees. *)
Definition suggests {FS} (st : app FS) (name v : string) : Prop :=
  rename_suggestions st !! name = Some v
  ∧ ∃ r, r ∈ results_tree st ∧ Original r = name ∧ Suggested r = v.

(** A row comes from the table before or from an entry whose basename is a
    key of the result. *)
Definition row_origin (result : gmap string string)
    (entries : list (string * bool)) (before : list row) (r : row) : Prop :=
  r ∈ before
  ∨ ∃ path is_folder, (path, is_folder) ∈ entries
      ∧ Original r = basename path
      ∧ result !! basename path = Some (Suggested r)
      ∧ row_type r = kind_of is_folder.

(** A row once [select_all_suggestions] has put it in the selection. *)
Definition select_row (r : row) : row :=
  Row (iid r) (Original r) (Suggested r) (row_type r) true.

(** ** Batches of renames *)

(** What one batch of [apply_renames] may log: renames that went through,
    renames that failed, each followed at once by its error box, and the
    error boxes of the rows that failed before [os.rename] was called; with
    the numbers of the rows that were renamed and of those that failed. *)
Inductive batch_log : list effect -> nat -> nat -> Prop :=
| batch_nil : batch_log [] 0 0
| batch_renamed src dst l n e :
    batch_log l n e -> batch_log (rename_call src dst None :: l) (S n) e
| batch_failed src dst err name l n e :
    batch_log l n e ->
    batch_log
      (rename_call src dst (Some err)
       :: showerror "Error"
            ("Failed to rename " +:+ name +:+ ": " +:+ str_exn err) :: l)
      n (S e)
| batch_refused err name l n e :
    batch_log l n e ->
    batch_log
      (showerror "Error"
         ("Failed to rename " +:+ name +:+ ": " +:+ str_exn err) :: l)
      n (S e).

(** A logged rename is the rename of a row of the batch: the row's names
    differ, the source has the original name, and the destination is the
    suggested name in the source's directory. *)
Definition rename_of_row (rows : list row) (ef : effect) : Prop :=
  match ef with
  | rename_call src dst _ =>
      ∃ r, r ∈ rows ∧ Original r ≠ Suggested r ∧ basename src = Original r
           ∧ dst = join (dirname src) (Suggested r)
  | _ => True
  end.

(** What [apply_renames] appends to the log. *)
Definition batch_effects {FS} `{!Filesystem FS} `{!Runtime} (st : app FS)
    : list effect :=
  skipn (List.length (log st)) (log (apply_renames st)).

(** The specification's reading of the report: all a batch shows is one
    summary at its end. *)
Definition summary_only (batch : list effect) : Prop :=
  ∃ title message,
    List.filter is_message_box batch = [showinfo title message]
    ∧ last batch = Some (showinfo title message).

(** ** Responses *)

(** [c in s] *)
Fixpoint occurs (c : ascii) (s : string) : bool :=
  match s with
  | EmptyString => false
  | String d r => Ascii.eqb d c || occurs c r
  end.

(** The response of a call that went through, with [text] as the content
    of the first choice's message. *)
Definition has_content `{!Runtime} (response_data : json) (text : string)
    : Prop :=
  ∃ choices choice message,
    getitem_key response_data "choices" = inr choices
    ∧ getitem_0 choices = inr choice
    ∧ getitem_key choice "message" = inr message
    ∧ getitem_key message "content" = inr (JString text).

(** ** A small disk and a small interpreter to run the session on *)

Module Toy.

(** A disk: the entries with their [is_dir] flag, and the folders that may
    not be listed.  [listdir] lists the folders that are entries.  [rename]
    refuses a missing source and a destination that is taken unless both
    are files; it moves what lies under a folder. *)
Record disk := Disk { entries : list (string * bool); locked : list string }.

Definition lookup_entry (p : string) (d : disk) : option bool :=
  snd <$> List.find (fun e => String.eqb (fst e) p) (entries d).

Definition listdir (d : disk) (p : string) : exn + list string :=
  if bool_decide (p ∈ locked d) then
    inl (Exn "PermissionError" ("Permission denied: " +:+ p))
  else
    match lookup_entry p d with
    | Some true =>
        inr (map (fun e => basename (fst e))
               (filter (fun e => dirname (fst e) = p ∧ fst e ≠ p) (entries d)))
    | Some false => inl (Exn "NotADirectoryError" ("Not a directory: " +:+ p))
    | None =>
        inl (Exn "FileNotFoundError" ("No such file or directory: " +:+ p))
    end.

Definition isdir (d : disk) (p : string) : bool :=
  default false (lookup_entry p d).

Definition rekey (src dst q : string) : string :=
  if String.eqb q src then dst
  else if String.prefix (src +:+ "/") q
       then dst +:+ String.substring (String.length src)
                      (String.length q - String.length src) q
       else q.

Definition rename (d : disk) (src dst : string) : exn + disk :=
  match lookup_entry src d, lookup_entry dst d with
  | None, _ =>
      inl (Exn "FileNotFoundError" ("No such file or directory: " +:+ src))
  | Some false, Some false | Some _, None =>
      inr (Disk (map (fun e => (rekey src dst (fst e), snd e))
                   (filter (fun e => fst e ≠ dst) (entries d)))
             (locked d))
  | Some _, Some _ => inl (Exn "OSError" ("File exists: " +:+ dst))
  end.

Global Instance filesystem : Filesystem disk :=
  {| os_listdir := listdir; os_path_isdir := isdir; os_rename := rename |}.

(** A [json.loads] for objects of plain strings without escapes, such as
    the service is asked for. *)
Definition dq : ascii := ascii_of_nat 34.
Definition backslash : ascii := ascii_of_nat 92.

Definition json_space (c : ascii) : bool :=
  let n := nat_of_ascii c in
  ((n =? 32) || (n =? 9) || (n =? 10) || (n =? 13))%nat.

Fixpoint skip_space (s : string) : string :=
  match s with
  | String c r => if json_space c then skip_space r else s
  | EmptyString => EmptyString
  end.

(** After an opening quote: the string's content and what follows it. *)
Fixpoint string_body (s : string) : option (string * string) :=
  match s with
  | EmptyString => None
  | String c r =>
      if Ascii.eqb c dq then Some (EmptyString, r)
      else if Ascii.eqb c backslash then None
      else match string_body r with
           | Some (x, rest) => Some (String c x, rest)
           | None => None
           end
  end.

Definition quoted_string (s : string) : option (string * string) :=
  match skip_space s with
  | String c r => if Ascii.eqb c dq then string_body r else None
  | EmptyString => None
  end.

Definition expect (c : ascii) (s : string) : option string :=
  match skip_space s with
  | String d r => if Ascii.eqb d c then Some r else None
  | EmptyString => None
  end.

(** The members after the first one; [fuel] bounds their number. *)
Fixpoint members (fuel : nat) (acc : gmap string string) (s : string)
    : option (gmap string string) :=
  match fuel with
  | O => None
  | S fuel =>
      match skip_space s with
      | String c r =>
          if Ascii.eqb c "}" then
            match skip_space r with EmptyString => Some acc | _ => None end
          else if Ascii.eqb c "," then
            match quoted_string r with
            | Some (k, r1) =>
                match expect ":" r1 with
                | Some r2 =>
                    match quoted_string r2 with
                    | Some (v, r3) => members fuel (<[k := v]> acc) r3
                    | None => None
                    end
                | None => None
                end
            | None => None
            end
          else None
      | EmptyString => None
      end
  end.

Definition loads (s : string) : exn + gmap string string :=
  let bad := inl (Exn "JSONDecodeError" "Expecting value") in
  match expect "{" s with
  | Some r =>
      match expect "}" r with
      | Some r' => match skip_space r' with EmptyString => inr ∅ | _ => bad end
      | None =>
          match members (S (String.length s)) ∅ ("," +:+ r) with
          | Some m => inr m
          | None => bad
          end
      end
  | None => bad
  end.

(** A [lower] for the letters A to Z. *)
Definition lower_char (c : ascii) : ascii :=
  let n := nat_of_ascii c in
  if ((65 <=? n) && (n <=? 90))%nat then ascii_of_nat (n + 32) else c.

Fixpoint lower (s : string) : string :=
  match s with
  | EmptyString => EmptyString
  | String c r => String (lower_char c) (lower r)
  end.

(** An [int] for a sign and the digits 0 to 9. *)
Fixpoint digits (acc : Z) (s : string) : option Z :=
  match s with
  | EmptyString => Some acc
  | String c r =>
      let n := nat_of_ascii c in
      if ((48 <=? n) && (n <=? 57))%nat
      then digits (10 * acc + Z.of_nat (n - 48)) r
      else None
  end.

Definition to_int (s : string) : option Z :=
  match s with
  | EmptyString => None
  | String c r =>
      if Ascii.eqb c "-" then
        match r with EmptyString => None | _ => Z.opp <$> digits 0 r end
      else if Ascii.eqb c "+" then
        match r with EmptyString => None | _ => digits 0 r end
      else digits 0 s
  end.

Global Instance runtime : Runtime :=
  {| json_loads := loads;
     raised_on := fun op _ => Exn "LookupError" op;
     format_value := fun _ => "?";
     str_lower := lower;
     int_of_str := to_int |}.

Definition quoted (s : string) : string :=
  String dq EmptyString +:+ s +:+ String dq EmptyString.

(** A disk with two files and a folder under [/r]. *)
Definition disk0 : disk :=
  Disk [("/r", true); ("/r/a.txt", false); ("/r/b.txt", false);
        ("/r/d", true); ("/r/d/c.txt", false)] [].

Definition session0 : app disk := snd (start disk0 "/r" "Suggest names" "m/x").

(** The reply of the service whose message content is [text]. *)
Definition reply_with (text : string) : http_reply :=
  post_response 200
    (inr (JObject [("choices",
       JArray [JObject [("message", JObject [("content", JString text)])]])])).

(** *** Sessions on this disk *)

Definition member (kv : string * string) : string :=
  quoted (fst kv) +:+ ": " +:+ quoted (snd kv).

(** The text of a JSON object of strings. *)
Definition object_text (kvs : list (string * string)) : string :=
  "{" +:+ str_join ", " (map member kvs) +:+ "}".

(** Clicks, "Select Contents" and "Clear Selection". *)
Definition selection_events : list event :=
  [click_checkbox [1]; menu_select_contents [0]; click_checkbox [0];
   click_checkbox [1]; menu_select_contents []; click_clear_selection;
   click_checkbox [2]].

(** [c.txt] in the folder [d] was checked, the folder closed, and the entry
    removed through the list of selected items: the closed folder is not
    searched, so the item stays checked. *)
Definition removed_while_closed : app disk :=
  run [open_folder [0]; click_checkbox [0; 0]; close_folder [0];
       menu_remove_from_selection 0] session0.

(** A request is issued, the button clicked again, another file checked,
    and the worker finishes. *)
Definition busy_events : list event :=
  [click_checkbox [1]; click_get_suggestions; click_get_suggestions;
   click_checkbox [2];
   worker_done 1 (reply_with (object_text [("a.txt", "a2.txt")]))].

(** The service answers 404 with an error message. *)
Definition not_found : http_reply :=
  post_response 404
    (inr (JObject [("error", JObject [("message", JString "No such model")])])).

(** [a.txt] and [b.txt] are checked and the service names [a.txt] only;
    the result waits in the queue. *)
Definition partial_events : list event :=
  [click_checkbox [1]; click_checkbox [2]; click_get_suggestions;
   worker_done 1 (reply_with (object_text [("a.txt", "a2.txt")]))].

Definition partial_reply : app disk := run partial_events session0.

(** Three suggestions, the second for a name that is taken, and the three
    items checked again after the suggestions arrived. *)
Definition three_rows : app disk :=
  run [click_checkbox [1]; click_checkbox [2]; click_checkbox [0];
       click_get_suggestions;
       worker_done 1
         (reply_with
            ("Here you go: "
             +:+ object_text [("a.txt", "a2.txt"); ("b.txt", "d"); ("d", "d2")]));
       timer_fired;
       click_checkbox [1]; click_checkbox [2]; click_checkbox [0]]
    session0.

(** A suggestion for [a.txt] has arrived and nothing was checked since. *)
Definition suggested : app disk :=
  run [click_checkbox [1]; click_get_suggestions;
       worker_done 1 (reply_with (object_text [("a.txt", "a2.txt")]));
       timer_fired] session0.

(** The root folder got a suggestion, was checked again, its suggestion was
    edited back to its name and applied: the tree is rebuilt with the root
    unchecked although it is selected. *)
Definition root_selected : app disk :=
  run [click_checkbox []; click_get_suggestions;
       worker_done 1 (reply_with (object_text [("r", "r2")]));
       timer_fired; click_checkbox []; edit_suggested 0 "r"; click_apply]
    session0.

(** [a.txt] was checked, then [c.txt] in the folder [d]; suggestions
    arrived for both, the second being for the name the first suggests;
    then [a.txt] alone was checked again. *)
Definition chain : app disk :=
  run [click_checkbox [1]; open_folder [0]; click_checkbox [0; 0];
       click_get_suggestions;
       worker_done 1
         (reply_with (object_text [("a.txt", "c.txt"); ("c.txt", "z.txt")]));
       timer_fired; click_checkbox [1]]
    session0.


(** A response with two objects. *)
Definition two_objects : string :=
  "Either " +:+ object_text [("a.txt", "b.txt")]
  +:+ " or " +:+ object_text [("a.txt", "c.txt")].

End Toy.

From Stdlib Require Import Sorted.

(** ** More of what the properties speak of *)

(** *** The list of selected items *)

(** The names [items_tree] shows, and the names of the selected entries. *)
Definition listed_names {FS} (st : app FS) : list string :=
  map fst (items_tree st).

Definition selected_names {FS} (st : app FS) : list string :=
  map (fun entry : string * bool => basename (fst entry)) (selected_items st).

(** The sessions a run goes through, the first one included. *)
Fixpoint visited {FS} `{!Filesystem FS} `{!Runtime} (events : list event)
    (st : app FS) : list (app FS) :=
  st :: match events with
        | [] => []
        | e :: events => visited events (step e st)
        end.

(** *** The suggestion table *)

(** The original names of the rows that ttk returns as text, not as
    numbers. *)
Definition text_names `{!Runtime} (rows : list row) : list string :=
  filter (fun name => int_of_str name = None) (map Original rows).

(** The table's bookkeeping: one row at most for an original name that is
    read as text, item ids that are distinct and below the next one, and a
    dictionary whose keys are the rows' original names. *)
Definition table_ok {FS} `{!Runtime} (st : app FS) : Prop :=
  NoDup (text_names (results_tree st))
  ∧ NoDup (map iid (results_tree st))
  ∧ Forall (fun r => iid r < next_iid st) (results_tree st)
  ∧ ∀ name, is_Some (rename_suggestions st !! name)
            <-> name ∈ map Original (results_tree st).

(** *** The directory tree *)

(** The item at a position can be reached through open folders only, which
    is where [find_item_by_path] looks. *)
Fixpoint visible (node : item) (i : item_id) : bool :=
  match i with
  | [] => true
  | k :: i' =>
      bool_decide (item_type node = Folder) && is_open node
      && match children node !! k with
         | Some c => visible c i'
         | None => false
         end
  end.

(** The key [populate_directory_subtree] sorts by, read off an item. *)
Definition item_key `{!Runtime} (it : item) : bool * string :=
  (bool_decide (item_type it = Folder), str_lower (text it)).

(** *** What a handler leaves alone *)

(** A handler that changes the disk, the selection, the tree, the list of
    selected items and the log only. *)
Definition browses {FS} (h : app FS -> app FS) : Prop :=
  ∀ st, ∃ disk entries tree rows effects,
    h st = set_fs disk
             (set_log effects
                (set_dir_tree tree
                   (set_items_tree rows (set_selected_items entries st)))).

(** The loop of [find_item_by_path] over the children of a node whose path
    is [current_path], the first of them being the [k]-th. *)
Definition find_in_children (path current_path : string)
    : list item -> nat -> option item_id :=
  fix search (cs : list item) (k : nat) : option item_id :=
    match cs with
    | [] => None
    | child :: cs' =>
        match find_item_by_path path child (join current_path (text child)) with
        | Some result => Some (k :: result)
        | None => search cs' (S k)
        end
    end.

(** [a] is not sorted after [b]: the key of [b] is not less than the key
    of [a]. *)
Definition key_le {A} (key : A -> bool * string) (a b : A) : Prop :=
  key_lt (key b) (key a) = false.

(** The same of two items of a listing. *)
Definition listed_before `{!Runtime} (a b : item) : Prop := key_le item_key a b.

(** The list of selected items shows the names of the selection, each as
    often as it is selected. *)
Definition names_agree {FS} (st : app FS) : Prop :=
  listed_names st ≡ₚ selected_names st.


(** [populate_directory_tree] returns in [st]: listing the root directory
    raises nothing but [PermissionError]. *)
Definition root_listed {FS} `{!Filesystem FS} (st : app FS) : bool :=
  match os_listdir (fs st) (root_directory st) with
  | inr _ => true
  | inl e => is_PermissionError e
  end.

(** "Apply Renames", clicked in [st], gets to refresh the list of selected
    items: the root directory can still be listed after its batch. *)
Definition refreshes {FS} `{!Filesystem FS} `{!Runtime} (st : app FS) : Prop :=
  root_listed (apply_rows (selected_rows st) (st, 0, 0)).1.1 = true.

(** *** Boxes and selection *)

(** Every item that shows a box is checked exactly when its path is
    selected.  The row that stands for the contents of a folder that was
    not opened yet shows no box. *)
Definition boxes_in_sync {FS} (st : app FS) : Prop :=
  ∀ i it p, tree_item (dir_tree st) i = Some it ->
    get_full_path st i = Some p -> selected it ≠ Blank ->
    (selected it = Checked <-> p ∈ paths (selected_items st)).

(** [boxes_in_sync] on the parts of the session it reads. *)
Definition boxes_synced (t : item) (r : string) (ps : list string) : Prop :=
  ∀ i it p, tree_item t i = Some it -> full_path_from t r i = Some p ->
    selected it ≠ Blank -> (selected it = Checked <-> p ∈ ps).

(** Every listing of the disk consists of names, none of them twice. *)
Definition lists_distinct_names {FS} `{!Filesystem FS} (disk : FS) : Prop :=
  ∀ p names, os_listdir disk p = inr names ->
    NoDup names ∧ Forall (fun n => is_name n = true) names.

(** All that can happen, but for "Remove from Selection" and "Apply
    Selected Renames". *)
Definition keeps_boxes (e : event) : Prop :=
  match e with
  | menu_remove_from_selection _ | click_apply => False
  | _ => True
  end.

(** What these events keep true. *)
Definition tidy {FS} (st : app FS) : Prop :=
  well_named (dir_tree st) ∧ NoDup (paths (selected_items st))
  ∧ boxes_in_sync st.

(** An item as [populate_directory_subtree] inserts it under the folder
    whose path is [parent_path]: its box tells whether its path is
    selected, and below it there is nothing, or the row that stands for
    its contents. *)
Definition fresh_item (parent_path : string) (ps : list string) (c : item)
    : Prop :=
  (selected c = Checked <-> join parent_path (text c) ∈ ps)
  ∧ (children c = [] ∨ children c = [placeholder]).

(** ** The context menu of the directory tree *)



(** ** The presets of instructions *)

(** What Tk and the interpreter contribute to the handlers of the presets:
    - [tcl_string v] is the string Tk stores when it is given a value that
      is not a [str];
    - [nonzero literal] tells whether the number that a JSON literal decodes
      to is not zero. *)
Class Tcl := {
  tcl_string : json -> string;
  nonzero : string -> bool
}.

(** The file [instruction_presets.json], as [os.path.exists], [open] with
    [json.load], and [open] with [json.dump] see it.  [json_dump] gives the
    file it wrote, or the exception with the file that the failed write
    leaves. *)
Class PresetsFile (D : Type) := {
  os_path_exists : D -> bool;
  json_load : D -> exn + json;
  json_dump : json -> D -> exn * D + D
}.

(** *** Python dicts of JSON values, in the order of insertion *)

(** [list(d.keys())] *)
Definition keys (d : list (string * json)) : list string := map fst d.

(** [k in d] *)
Definition dict_in (k : string) (d : list (string * json)) : bool :=
  existsb (fun kv => String.eqb (fst kv) k) d.

(** [d[k] = v]: a key that is there keeps its place. *)
Fixpoint dict_set (k : string) (v : json) (d : list (string * json))
    : list (string * json) :=
  match d with
  | [] => [(k, v)]
  | (k', v') :: r =>
      if String.eqb k' k then (k, v) :: r else (k', v') :: dict_set k v r
  end.

(** [del d[k]], and the dict that [d.pop(k, None)] leaves. *)
Definition dict_del (k : string) (d : list (string * json))
    : list (string * json) :=
  List.filter (fun kv => negb (String.eqb (fst kv) k)) d.

(** [d.pop(k, None)], [None] being what [null] decodes to. *)
Definition dict_pop (k : string) (d : list (string * json))
    : json * list (string * json) :=
  (from_option id JNull (assoc k d), dict_del k d).

(** [bool(v)] *)
Definition truthy `{!Tcl} (v : json) : bool :=
  match v with
  | JNull => false
  | JBool b => b
  | JNumber literal => nonzero literal
  | JString s => negb (String.eqb s "")
  | JArray [] => false
  | JArray _ => true
  | JObject [] => false
  | JObject _ => true
  end.

(** What Tk stores for a value. *)
Definition tk_value `{!Tcl} (v : json) : string :=
  match v with
  | JString s => s
  | _ => tcl_string v
  end.

Definition NameError (name : string) : exn :=
  Exn "NameError" ("name '" +:+ name +:+ "' is not defined").

Definition default_presets : list (string * json) :=
  [("Clear and organized",
    JString "Suggest clearer, organized names for these items");
   ("Lowercase with underscores",
    JString "Convert all names to lowercase and replace spaces with underscores");
   ("Add date prefix",
    JString "Add today's date as a prefix (YYYY-MM-DD) to all names");
   ("Descriptive names",
    JString "Create more descriptive names based on likely content");
   ("Standardize format",
    JString "Standardize naming across all files following a consistent pattern")].

(** [self.models] *)
Definition models : list string :=
  ["anthropic/claude-3-opus-20240229"; "anthropic/claude-3-sonnet-20240229";
   "anthropic/claude-3-haiku-20240307"; "openai/gpt-4o-2024-05-13";
   "openai/gpt-4-turbo"; "openai/gpt-3.5-turbo";
   "google/gemini-1.5-pro-latest"; "google/gemini-1.5-flash-latest";
   "mistralai/mistral-large-latest"; "mistralai/mistral-medium-latest";
   "mistralai/mistral-small-latest"; "meta/llama-3-70b-instruct";
   "meta/llama-3-8b-instruct"; "cohere/command-r-plus"; "cohere/command-r";
   "deepseek/deepseek-chat-v3-0324:free"; "deepseek/deepseek-chat-v3-0324";
   "deepseek/deepseek-r1"; "deepseek/deepseek-r1:free"].

(** What [load_instructions_presets] returns, and what it prints. *)
Record loaded := Loaded {
  loaded_presets : list (string * json);
  last_selected_preset : json;
  last_selected_model : json;
  load_printed : option string
}.

Definition load_instructions_presets {D} `{!PresetsFile D} `{!Runtime}
    (presets_file : D) : loaded :=
  let failed e :=
    Loaded default_presets JNull JNull
      (Some ("Error loading presets: " +:+ str_exn e)) in
  if os_path_exists presets_file then
    match json_load presets_file with
    | inr (JObject data) =>
        let '(last_selected_preset, data) := dict_pop "_last_selected" data in
        let '(last_selected_model, data) := dict_pop "_last_selected_model" data in
        Loaded data last_selected_preset last_selected_model None
    | inr data => failed (raised_on "pop" data)
    | inl e => failed e
    end
  else Loaded default_presets JNull JNull None.

Module Presets.

(** The part of the session that the handlers of the presets work on.
    [rename_instructions] is the content of the text widget without the
    newline that Tk keeps at its end. *)
Record ui {D : Type} := UI {
  instructions_presets : list (string * json);
  preset_var : string;  (* [self.preset_var.get()] *)
  model_var : string;  (* [self.model_var.get()] *)
  rename_instructions : string;
  preset_dropdown : list string;  (* [self.preset_dropdown['values']] *)
  presets_file : D;  (* [instruction_presets.json] *)
  messages : list effect;  (* message boxes, oldest first *)
  printed : list string;  (* lines printed, oldest first *)
  window_destroyed : bool  (* [self.window.destroy()] was called *)
}.
Arguments ui : clear implicits.

Definition set_instructions_presets {D} (v : list (string * json)) (u : ui D)
    : ui D :=
  UI D v (preset_var u) (model_var u) (rename_instructions u)
    (preset_dropdown u) (presets_file u) (messages u) (printed u)
    (window_destroyed u).
Definition set_preset_var {D} (v : string) (u : ui D) : ui D :=
  UI D (instructions_presets u) v (model_var u) (rename_instructions u)
    (preset_dropdown u) (presets_file u) (messages u) (printed u)
    (window_destroyed u).
Definition set_model_var {D} (v : string) (u : ui D) : ui D :=
  UI D (instructions_presets u) (preset_var u) v (rename_instructions u)
    (preset_dropdown u) (presets_file u) (messages u) (printed u)
    (window_destroyed u).
Definition set_rename_instructions {D} (v : string) (u : ui D) : ui D :=
  UI D (instructions_presets u) (preset_var u) (model_var u) v
    (preset_dropdown u) (presets_file u) (messages u) (printed u)
    (window_destroyed u).
Definition set_preset_dropdown {D} (v : list string) (u : ui D) : ui D :=
  UI D (instructions_presets u) (preset_var u) (model_var u)
    (rename_instructions u) v (presets_file u) (messages u) (printed u)
    (window_destroyed u).
Definition set_presets_file {D} (v : D) (u : ui D) : ui D :=
  UI D (instructions_presets u) (preset_var u) (model_var u)
    (rename_instructions u) (preset_dropdown u) v (messages u) (printed u)
    (window_destroyed u).
Definition set_messages {D} (v : list effect) (u : ui D) : ui D :=
  UI D (instructions_presets u) (preset_var u) (model_var u)
    (rename_instructions u) (preset_dropdown u) (presets_file u) v (printed u)
    (window_destroyed u).
Definition set_window_destroyed {D} (v : bool) (u : ui D) : ui D :=
  UI D (instructions_presets u) (preset_var u) (model_var u)
    (rename_instructions u) (preset_dropdown u) (presets_file u) (messages u)
    (printed u) v.

Definition messagebox {D} (e : effect) (u : ui D) : ui D :=
  set_messages (messages u ++ [e]) u.

Section Handlers.
Context {D : Type} `{!PresetsFile D} `{!Runtime} `{!Tcl}.

(** [self.rename_instructions.get("1.0", tk.END)] *)
Definition get_rename_instructions (u : ui D) : string :=
  rename_instructions u +:+ nl.

Definition load_preset (u : ui D) : ui D :=
  let preset_name := preset_var u in
  if dict_in preset_name (instructions_presets u) then
    match assoc preset_name (instructions_presets u) with
    | Some instruction => set_rename_instructions (tk_value instruction) u
    | None => u
    end
  else u.

(** What [save_instructions_presets] hands to [json.dump]. *)
Definition data_to_save (u : ui D) : list (string * json) :=
  let data_to_save := instructions_presets u in
  let current_preset := preset_var u in
  let data_to_save :=
    if dict_in current_preset data_to_save
    then dict_set "_last_selected" (JString current_preset) data_to_save
    else data_to_save in
  let current_model := model_var u in
  if occurs "/" current_model
  then dict_set "_last_selected_model" (JString current_model) data_to_save
  else data_to_save.

(** The exception that leaves the method, if one does, and the session.
    The first [except] clause takes every exception of the [try] block and
    evaluates [presets_to_save], a name that is bound nowhere. *)
Definition save_instructions_presets (u : ui D) : option exn * ui D :=
  match json_dump (JObject (data_to_save u)) (presets_file u) with
  | inr written => (None, set_presets_file written u)
  | inl (e, remains) =>
      (Some (NameError "presets_to_save"), set_presets_file remains u)
  end.

Definition on_closing (u : ui D) : option exn * ui D :=
  match save_instructions_presets u with
  | (None, u) => (None, set_window_destroyed true u)
  | (Some e, u) => (Some e, u)
  end.

(** [save_preset], for what [askstring] returns when it is called. *)
Definition save_preset (askstring : option string) (u : ui D)
    : option exn * ui D :=
  let current_instruction := strip (get_rename_instructions u) in
  if String.eqb current_instruction "" then
    (None, messagebox (showwarning "Warning" "Please enter an instruction to save.") u)
  else
    match askstring with
    | Some preset_name =>
        if negb (String.eqb preset_name "")
           && negb (String.eqb (strip preset_name) "") then
          let u :=
            set_instructions_presets
              (dict_set (strip preset_name) (JString current_instruction)
                 (instructions_presets u)) u in
          let u := set_preset_dropdown (keys (instructions_presets u)) u in
          let u := set_preset_var (strip preset_name) u in
          match save_instructions_presets u with
          | (None, u) =>
              (None,
               messagebox (showinfo "Success"
                       ("Preset '" +:+ preset_name +:+ "' saved successfully.")) u)
          | (Some e, u) => (Some e, u)
          end
        else (None, u)
    | None => (None, u)
    end.

(** [delete_preset], for what [askyesno] returns when it is called. *)
Definition delete_preset (askyesno : bool) (u : ui D) : option exn * ui D :=
  let preset_name := preset_var u in
  if String.eqb preset_name "" then
    (None, messagebox (showwarning "Warning" "Please select a preset to delete.") u)
  else if askyesno then
    if dict_in preset_name (instructions_presets u) then
      let u :=
        set_instructions_presets (dict_del preset_name (instructions_presets u)) u in
      let preset_names := keys (instructions_presets u) in
      let u := set_preset_dropdown preset_names u in
      let u :=
        match preset_names with
        | first :: _ => set_preset_var first u
        | [] => set_preset_var "" u
        end in
      match save_instructions_presets u with
      | (None, u) =>
          (None,
           messagebox (showinfo "Success"
                   ("Preset '" +:+ preset_name +:+ "' deleted successfully.")) u)
      | (Some e, u) => (Some e, u)
      end
    else (None, u)
  else (None, u).

(** The part of [__init__] and [setup_ui] that sets up the model and the
    presets, on the file [presets_file]. *)
Definition setup_ui (presets_file : D) : ui D :=
  let l := load_instructions_presets presets_file in
  let initial_model :=
    if truthy (last_selected_model l) then tk_value (last_selected_model l)
    else default "" (head models) in
  let preset_names := keys (loaded_presets l) in
  let initial_preset :=
    match last_selected_preset l with
    | JString s =>
        if negb (String.eqb s "") && bool_decide (s ∈ preset_names) then Some s
        else head preset_names
    | _ => head preset_names
    end in
  let u :=
    UI D (loaded_presets l) "" initial_model
      "Suggest clearer, organized names for these items" preset_names
      presets_file []
      (match load_printed l with Some line => [line] | None => [] end) false in
  match initial_preset with
  | Some name =>
      if negb (String.eqb name "") then load_preset (set_preset_var name u)
      else u
  | None => u
  end.

(** What the user does with the presets. *)
Inductive action :=
| choose_preset (name : string)  (* picks or types a name in the dropdown *)
| type_instructions (content : string)
| type_model (name : string)
| click_load
| click_save_current (askstring : option string)
| click_delete (askyesno : bool)
| close_window.

Definition act (a : action) (u : ui D) : option exn * ui D :=
  match a with
  | choose_preset name => (None, set_preset_var name u)
  | type_instructions content => (None, set_rename_instructions content u)
  | type_model name => (None, set_model_var name u)
  | click_load => (None, load_preset u)
  | click_save_current askstring => save_preset askstring u
  | click_delete askyesno => delete_preset askyesno u
  | close_window => on_closing u
  end.

(** A callback's exception is reported by Tk and the session goes on. *)
Definition acts (actions : list action) (u : ui D) : ui D :=
  fold_left (fun u a => snd (act a u)) actions u.

End Handlers.

End Presets.


(** A file that was written exists and reads back as the document that was
    written to it. *)
Definition reads_back (D : Type) `{!PresetsFile D} : Prop :=
  ∀ document (file written : D),
    json_dump document file = inr written ->
    os_path_exists written = true ∧ json_load written = inr document.

(** The names [save_instructions_presets] keeps for itself. *)
Definition reserved (name : string) : bool :=
  String.eqb name "_last_selected" || String.eqb name "_last_selected_model".

(** ** A small presets file to run the handlers on *)

Module ToyFile.

(** The document in the file, if the file exists and can be read as JSON,
    and whether the file may be written. *)
Record store := Store {
  document : option (exn + json);
  read_only : bool
}.

Definition exists_ (s : store) : bool :=
  match document s with Some _ => true | None => false end.

Definition load (s : store) : exn + json :=
  match document s with
  | Some d => d
  | None => inl (Exn "FileNotFoundError" "instruction_presets.json")
  end.

Definition dump (v : json) (s : store) : exn * store + store :=
  if read_only s then inl (Exn "PermissionError" "instruction_presets.json", s)
  else inr (Store (Some (inr v)) false).

Global Instance presets_file : PresetsFile store :=
  {| os_path_exists := exists_; json_load := load; json_dump := dump |}.

Global Instance tcl : Tcl :=
  {| tcl_string := fun _ => "?";
     nonzero := fun literal => negb (String.eqb literal "0") |}.

(** No file yet. *)
Definition missing : store := Store None false.

(** The session that starts without a file. *)
Definition fresh : Presets.ui store := Presets.setup_ui missing.

(** The user types an instruction and a model, and saves the instruction
    under a name. *)
Definition saved : Presets.ui store :=
  Presets.acts
    [Presets.type_instructions "Use snake case";
     Presets.type_model "openai/gpt-4-turbo";
     Presets.click_save_current (Some " snake ")]
    fresh.

(** The same session on a file that may not be written. *)
Definition locked : Presets.ui store :=
  Presets.set_presets_file (Store None true) fresh.

End ToyFile.

(** * Proofs *)

(** ** Strings *)

Lemma sapp_cons c s t : String c s +:+ t = String c (s +:+ t).
Proof. reflexivity. Qed.

Lemma sapp_nil_l t : "" +:+ t = t.
Proof. reflexivity. Qed.

Lemma sapp_nil_r s : s +:+ "" = s.
Proof. induction s as [|c s IH]; [done|]. by rewrite sapp_cons, IH. Qed.

Lemma sapp_assoc s t u : (s +:+ t) +:+ u = s +:+ t +:+ u.
Proof. induction s as [|c s IH]; [done|]. by rewrite !sapp_cons, IH. Qed.

Lemma slength_app s t :
  String.length (s +:+ t) = String.length s + String.length t.
Proof. induction s as [|c s IH]; [done|]. rewrite sapp_cons. simpl. lia. Qed.

Lemma sapp_eq_nil s t : s +:+ t = "" -> s = "" ∧ t = "".
Proof. destruct s; [done|]. rewrite sapp_cons. done. Qed.

Lemma seqb_true s t : String.eqb s t = true <-> s = t.
Proof. apply String.eqb_eq. Qed.

Lemma seqb_false s t : String.eqb s t = false <-> s ≠ t.
Proof. apply String.eqb_neq. Qed.

Lemma aeqb_true c d : Ascii.eqb c d = true <-> c = d.
Proof. apply Ascii.eqb_eq. Qed.

Lemma aeqb_false c d : Ascii.eqb c d = false <-> c ≠ d.
Proof. apply Ascii.eqb_neq. Qed.

(** ** Names and paths *)

Lemma is_name_spec n : is_name n = true <-> n ≠ "" ∧ no_sep n = true.
Proof.
  unfold is_name. rewrite andb_true_iff, negb_true_iff, seqb_false. done.
Qed.

Lemma no_sep_startswith n : no_sep n = true -> startswith_sep n = false.
Proof.
  destruct n as [|c n]; [done|]. simpl.
  intros [H _]%andb_true_iff. by apply negb_true_iff.
Qed.

Lemma endswith_sep_app x n :
  n ≠ "" -> endswith_sep (x +:+ n) = endswith_sep n.
Proof.
  intros Hn. induction x as [|c x IH]; [done|].
  rewrite sapp_cons. simpl. rewrite IH.
  destruct (x +:+ n) eqn:E; [|done].
  apply sapp_eq_nil in E as [_ ?]. done.
Qed.

Lemma no_sep_endswith n : no_sep n = true -> endswith_sep n = false.
Proof.
  induction n as [|c n IH]; [done|]. simpl.
  intros [Hc Hn]%andb_true_iff. destruct n; [by apply negb_true_iff|auto].
Qed.

Lemma join_name p n : is_name n = true -> join p n = with_sep p +:+ n.
Proof.
  intros [_ Hn]%is_name_spec. unfold join, with_sep.
  rewrite (no_sep_startswith n Hn).
  destruct (String.eqb p "" || endswith_sep p); [done|].
  by rewrite sapp_assoc.
Qed.

Lemma with_sep_name x n :
  is_name n = true -> with_sep (x +:+ n) = x +:+ n +:+ "/".
Proof.
  intros [Hne Hn]%is_name_spec. unfold with_sep.
  rewrite endswith_sep_app, (no_sep_endswith n Hn) by done.
  destruct (String.eqb (x +:+ n) "") eqn:E.
  - apply seqb_true, sapp_eq_nil in E as [_ ?]. done.
  - by rewrite sapp_assoc.
Qed.

Lemma fold_join_below ns x n :
  is_name n = true -> Forall (fun m => is_name m = true) ns ->
  fold_left join ns (x +:+ n) = x +:+ n +:+ below ns.
Proof.
  intros Hn Hns. revert x n Hn. induction Hns as [|m ns Hm Hns IH]; intros x n Hn.
  - simpl. by rewrite sapp_nil_r.
  - simpl. rewrite (join_name _ m Hm), (with_sep_name x n Hn).
    rewrite (IH (x +:+ n +:+ "/") m Hm). simpl. by rewrite !sapp_assoc.
Qed.

Lemma fold_join_names r n ns :
  Forall (fun m => is_name m = true) (n :: ns) ->
  fold_left join (n :: ns) r = with_sep r +:+ n +:+ below ns.
Proof.
  intros H. apply Forall_cons in H as [Hn Hns]. simpl.
  rewrite (join_name r n Hn). by apply fold_join_below.
Qed.

Lemma name_then_sep_inj a b x y :
  no_sep a = true -> no_sep b = true ->
  (x = "" ∨ startswith_sep x = true) -> (y = "" ∨ startswith_sep y = true) ->
  a +:+ x = b +:+ y -> a = b ∧ x = y.
Proof.
  revert b. induction a as [|c a IH]; intros [|d b] Ha Hb Hx Hy E.
  - done.
  - rewrite sapp_nil_l, sapp_cons in E. subst x. simpl in Hb.
    apply andb_true_iff in Hb as [Hd%negb_true_iff _].
    destruct Hx as [?|Hx]; [done|]. simpl in Hx. congruence.
  - rewrite sapp_nil_l, sapp_cons in E. subst y. simpl in Ha.
    apply andb_true_iff in Ha as [Hc%negb_true_iff _].
    destruct Hy as [?|Hy]; [done|]. simpl in Hy. congruence.
  - rewrite !sapp_cons in E. simplify_eq. simpl in Ha, Hb.
    apply andb_true_iff in Ha as [_ Ha]. apply andb_true_iff in Hb as [_ Hb].
    destruct (IH b Ha Hb Hx Hy) as [-> ->]; done.
Qed.

Lemma below_shape ns : below ns = "" ∨ startswith_sep (below ns) = true.
Proof. destruct ns; [by left|by right]. Qed.

Lemma below_inj ns ms :
  Forall (fun m => is_name m = true) ns ->
  Forall (fun m => is_name m = true) ms ->
  below ns = below ms -> ns = ms.
Proof.
  intros Hns. revert ms. induction Hns as [|n ns Hn Hns IH]; intros ms Hms E.
  - destruct ms; [done|]. discriminate.
  - destruct Hms as [|m ms Hm Hms]; [discriminate|].
    simpl in E. rewrite !sapp_cons, !sapp_nil_l in E. simplify_eq.
    apply is_name_spec in Hn as [_ Hn]. apply is_name_spec in Hm as [_ Hm].
    destruct (name_then_sep_inj n m _ _ Hn Hm (below_shape ns) (below_shape ms) E)
      as [-> E']. f_equal. by apply IH.
Qed.

Lemma with_sep_length p : String.length p <= String.length (with_sep p).
Proof.
  unfold with_sep. destruct (_ || _); [done|]. rewrite slength_app. lia.
Qed.

(** Distinct lists of names lead from a directory to distinct paths. *)
Lemma fold_join_inj r ns ms :
  Forall (fun m => is_name m = true) ns ->
  Forall (fun m => is_name m = true) ms ->
  fold_left join ns r = fold_left join ms r -> ns = ms.
Proof.
  assert (Hlen : ∀ n l, Forall (fun m => is_name m = true) (n :: l) ->
            r ≠ fold_left join (n :: l) r).
  { intros n l Hl E. rewrite (fold_join_names r n l Hl) in E.
    apply (f_equal String.length) in E. rewrite !slength_app in E.
    apply Forall_cons in Hl as [[Hn _]%is_name_spec _].
    pose proof (with_sep_length r). destruct n; [done|]. simpl in E. lia. }
  intros Hns Hms E. destruct ns as [|n ns], ms as [|m ms].
  - done.
  - by destruct (Hlen m ms Hms).
  - by destruct (Hlen n ns Hns).
  - rewrite (fold_join_names r n ns Hns), (fold_join_names r m ms Hms) in E.
    apply (inj (String.app _)) in E.
    apply Forall_cons in Hns as [Hn Hns]. apply Forall_cons in Hms as [Hm Hms].
    apply is_name_spec in Hn as [_ Hn]. apply is_name_spec in Hm as [_ Hm].
    destruct (name_then_sep_inj n m _ _ Hn Hm (below_shape ns) (below_shape ms) E)
      as [-> E']. f_equal. by apply below_inj.
Qed.

(** ** Items and positions *)

Lemma full_path_names t r i :
  full_path_from t r i = (fun ns => fold_left join ns r) <$> names_at t i.
Proof.
  revert t r. induction i as [|k i IH]; intros t r; simpl; [done|].
  destruct (children t !! k) as [c|]; [|done].
  rewrite IH. by destruct (names_at c i).
Qed.

Lemma names_at_item t i : is_Some (names_at t i) <-> is_Some (tree_item t i).
Proof.
  revert t. induction i as [|k i IH]; intros t; simpl; [by split; eauto|].
  destruct (children t !! k) as [c|]; [|done].
  rewrite <-IH. destruct (names_at c i); simpl; split; intros [? ?]; eauto; done.
Qed.

Lemma full_path_item t r i :
  is_Some (full_path_from t r i) <-> is_Some (tree_item t i).
Proof.
  rewrite full_path_names, <-names_at_item.
  destruct (names_at t i); split; intros [? ?]; simplify_eq/=; eauto.
Qed.

Lemma well_named_child t k c :
  well_named t -> children t !! k = Some c -> well_named c.
Proof.
  intros H Hc i it Hi. apply (H (k :: i)). simpl. by rewrite Hc.
Qed.

Lemma well_named_here t :
  well_named t ->
  NoDup (map text (children t))
  ∧ Forall (fun c => is_name (text c) = true) (children t).
Proof. intros H. by apply (H []). Qed.

Lemma names_at_valid t i ns :
  well_named t -> names_at t i = Some ns ->
  Forall (fun n => is_name n = true) ns.
Proof.
  revert t ns. induction i as [|k i IH]; intros t ns Hw E; simpl in E.
  - by simplify_eq.
  - destruct (children t !! k) as [c|] eqn:Hc; [|done].
    destruct (names_at c i) as [ns'|] eqn:E'; simplify_eq/=.
    constructor.
    + destruct (well_named_here t Hw) as [_ Hn].
      by apply (Forall_lookup_1 _ _ _ _ Hn Hc).
    + eapply IH; [|done]. by eapply well_named_child.
Qed.

Lemma names_at_inj t i j ns :
  well_named t -> names_at t i = Some ns -> names_at t j = Some ns -> i = j.
Proof.
  revert t j ns. induction i as [|k i IH]; intros t j ns Hw Ei Ej.
  - simpl in Ei. simplify_eq. destruct j as [|k' j]; [done|]. simpl in Ej.
    destruct (children t !! k') as [c|]; [|done]. by destruct (names_at c j).
  - simpl in Ei. destruct (children t !! k) as [c|] eqn:Hc; [|done].
    destruct (names_at c i) as [ns'|] eqn:E'; simplify_eq/=.
    destruct j as [|k' j]; [done|]. simpl in Ej.
    destruct (children t !! k') as [c'|] eqn:Hc'; [|done].
    destruct (names_at c' j) as [ns''|] eqn:E''; simplify_eq/=.
    assert (k = k').
    { destruct (well_named_here t Hw) as [Hnd _].
      eapply (NoDup_lookup _ _ _ _ Hnd); rewrite list_lookup_fmap.
      - by rewrite Hc.
      - rewrite Hc'. simpl. by f_equal. }
    subst k'. simplify_eq. f_equal.
    apply (IH c j ns'); eauto using well_named_child.
Qed.

(** In a well-named tree the path tells the position. *)
Lemma full_path_inj t r i j p :
  well_named t -> full_path_from t r i = Some p ->
  full_path_from t r j = Some p -> i = j.
Proof.
  intros Hw. rewrite !full_path_names. intros Ei Ej.
  destruct (names_at t i) as [ns|] eqn:Hi; [|done].
  destruct (names_at t j) as [ms|] eqn:Hj; [|done]. simplify_eq/=.
  assert (ns = ms) as ->.
  { apply (fold_join_inj r); eauto using names_at_valid. }
  by eapply names_at_inj.
Qed.

Lemma tree_item_snoc t i k :
  tree_item t (i ++ [k]) =
  match tree_item t i with
  | Some it => children it !! k
  | None => None
  end.
Proof.
  revert t. induction i as [|k' i IH]; intros t; simpl.
  - by destruct (children t !! k).
  - destruct (children t !! k'); [apply IH|done].
Qed.

Lemma names_at_snoc t i k :
  names_at t (i ++ [k]) =
  match names_at t i, tree_item t (i ++ [k]) with
  | Some ns, Some c => Some (ns ++ [text c])
  | _, _ => None
  end.
Proof.
  revert t. induction i as [|k' i IH]; intros t; simpl.
  - by destruct (children t !! k).
  - destruct (children t !! k') as [c|]; [|done]. rewrite IH.
    destruct (names_at c i), (tree_item c (i ++ [k])); done.
Qed.

Lemma full_path_snoc t r i k c p :
  full_path_from t r i = Some p -> tree_item t (i ++ [k]) = Some c ->
  full_path_from t r (i ++ [k]) = Some (join p (text c)).
Proof.
  rewrite !full_path_names, names_at_snoc. intros Hp ->.
  destruct (names_at t i); simplify_eq/=. by rewrite fold_left_app.
Qed.

(** The only item whose path is [join p n] is the child named [n] of the
    item whose path is [p]. *)
Lemma full_path_join t r i j p n :
  well_named t -> is_name n = true ->
  full_path_from t r i = Some p -> full_path_from t r j = Some (join p n) ->
  ∃ k c, j = i ++ [k] ∧ tree_item t j = Some c ∧ text c = n.
Proof.
  intros Hw Hn Hi Hj.
  destruct (full_path_item t r j) as [Hc _]. destruct Hc as [c Hc]; [eauto|].
  rewrite full_path_names in Hi, Hj.
  destruct (names_at t i) as [ns|] eqn:Ei; [|done].
  destruct (names_at t j) as [ms|] eqn:Ej; [|done]. simplify_eq/=.
  assert (ms = ns ++ [n]) as ->.
  { apply (fold_join_inj r); [by eapply names_at_valid| |by rewrite fold_left_app].
    apply Forall_app. split; [by eapply names_at_valid|by constructor]. }
  destruct (decide (j = [])) as [->|Hne].
  { simpl in Ej. simplify_eq. by destruct ns. }
  destruct (exists_last Hne) as (j0 & k & ->).
  rewrite names_at_snoc, Hc in Ej.
  destruct (names_at t j0) as [ns0|] eqn:E0; [|done].
  simplify_eq. apply app_inj_tail in Ej as [-> Ht].
  exists k, c. split_and!; [|done..]. f_equal. by eapply names_at_inj.
Qed.

(** ** Changing flags in the tree *)

Lemma set_selected_keeps v : keeps_names (set_selected v).
Proof. by intros []. Qed.

Lemma set_is_open_keeps v : keeps_names (set_is_open v).
Proof. by intros []. Qed.

Lemma fmap_alter_same {A B} (h : A -> B) (g : A -> A) k (l : list A) :
  (∀ x, h (g x) = h x) -> h <$> alter g k l = h <$> l.
Proof.
  intros Hg. revert k. induction l as [|x l IH]; intros [|k]; simpl; [done..| |].
  - by rewrite Hg.
  - f_equal. apply IH.
Qed.

Lemma tree_alter_text f j t :
  keeps_names f -> text (tree_alter f j t) = text t.
Proof. intros Hf. destruct j; simpl; [apply Hf|done]. Qed.

Lemma tree_alter_selected_below f k j t :
  selected (tree_alter f (k :: j) t) = selected t.
Proof. done. Qed.

Lemma names_at_alter f j t i :
  keeps_names f -> names_at (tree_alter f j t) i = names_at t i.
Proof.
  intros Hf. revert j t. induction i as [|k i IH]; intros j t; [done|].
  destruct j as [|k' j]; simpl.
  - by destruct (Hf t) as [_ ->].
  - destruct (decide (k' = k)) as [->|Hk].
    + rewrite list_lookup_alter_eq. destruct (children t !! k); simpl; [|done].
      by rewrite tree_alter_text, IH.
    + by rewrite list_lookup_alter_ne.
Qed.

Lemma full_path_alter f j t r i :
  keeps_names f -> full_path_from (tree_alter f j t) r i = full_path_from t r i.
Proof. intros Hf. by rewrite !full_path_names, names_at_alter. Qed.

Lemma tree_item_alter_eq f j t :
  tree_item (tree_alter f j t) j = f <$> tree_item t j.
Proof.
  revert t. induction j as [|k j IH]; intros t; simpl; [done|].
  rewrite list_lookup_alter_eq. destruct (children t !! k); simpl; [apply IH|done].
Qed.

Lemma tree_item_alter_ne f j t i :
  keeps_names f -> i ≠ j ->
  selected <$> tree_item (tree_alter f j t) i = selected <$> tree_item t i.
Proof.
  intros Hf. revert j t. induction i as [|k i IH]; intros j t Hne.
  - destruct j; [done|]. done.
  - destruct j as [|k' j]; simpl.
    + by destruct (Hf t) as [_ ->].
    + destruct (decide (k' = k)) as [->|Hk].
      * rewrite list_lookup_alter_eq. destruct (children t !! k); simpl; [|done].
        apply IH. congruence.
      * by rewrite list_lookup_alter_ne.
Qed.

Lemma child_names_alter f j t i :
  keeps_names f -> child_names (tree_alter f j t) i = child_names t i.
Proof.
  intros Hf. unfold child_names. revert j t.
  induction i as [|k i IH]; intros j t.
  - destruct j as [|k' j]; simpl.
    + by destruct (Hf t) as [_ ->].
    + f_equal. apply fmap_alter_same. intros c. by apply tree_alter_text.
  - destruct j as [|k' j]; simpl.
    + by destruct (Hf t) as [_ ->].
    + destruct (decide (k' = k)) as [->|Hk].
      * rewrite list_lookup_alter_eq. destruct (children t !! k); simpl; [|done].
        apply IH.
      * by rewrite list_lookup_alter_ne.
Qed.

Lemma well_named_child_names t :
  well_named t <->
  ∀ i ns, child_names t i = Some ns ->
    NoDup ns ∧ Forall (fun n => is_name n = true) ns.
Proof.
  unfold well_named, child_names. split.
  - intros H i ns E. destruct (tree_item t i) as [it|] eqn:Hi; simplify_eq/=.
    destruct (H i it Hi) as [? ?]. split; [done|]. by apply Forall_fmap.
  - intros H i it Hi. destruct (H i (map text (children it))) as [? Hn].
    { by rewrite Hi. }
    split; [done|]. by apply Forall_fmap in Hn.
Qed.

Lemma well_named_alter f j t :
  keeps_names f -> well_named t -> well_named (tree_alter f j t).
Proof.
  intros Hf. rewrite !well_named_child_names. intros H i ns.
  rewrite child_names_alter by done. apply H.
Qed.

(** ** Setting every checkbox *)

Lemma update_node_text v t : text (update_node_and_children v t) = text t.
Proof. by destruct t. Qed.

Lemma update_node_children v t :
  children (update_node_and_children v t)
  = map (update_node_and_children v) (children t).
Proof. by destruct t. Qed.

Lemma update_node_selected v t : selected (update_node_and_children v t) = v.
Proof. by destruct t. Qed.

Lemma tree_item_update_node v t i :
  tree_item (update_node_and_children v t) i
  = update_node_and_children v <$> tree_item t i.
Proof.
  revert t. induction i as [|k i IH]; intros t; simpl; [done|].
  rewrite update_node_children, list_lookup_fmap.
  destruct (children t !! k); simpl; [apply IH|done].
Qed.

Lemma names_at_update_node v t i :
  names_at (update_node_and_children v t) i = names_at t i.
Proof.
  revert t. induction i as [|k i IH]; intros t; simpl; [done|].
  rewrite update_node_children, list_lookup_fmap.
  destruct (children t !! k); simpl; [|done].
  by rewrite update_node_text, IH.
Qed.

Lemma well_named_update_node v t :
  well_named t -> well_named (update_node_and_children v t).
Proof.
  rewrite !well_named_child_names. intros H i ns. unfold child_names.
  rewrite tree_item_update_node. intros E.
  destruct (tree_item t i) as [it|] eqn:Hi; simplify_eq/=.
  apply (H i). unfold child_names. rewrite Hi. simpl. f_equal.
  rewrite update_node_children, <-list_fmap_compose.
  apply list_fmap_ext. intros ? c _. simpl. by rewrite update_node_text.
Qed.

(** ** The selection list *)

Lemma path_selected_spec p l : path_selected p l = true <-> p ∈ paths l.
Proof.
  unfold path_selected, paths. rewrite existsb_exists, list_elem_of_fmap.
  split.
  - intros (e & He & E%String.eqb_eq). exists e.
    split; [done|by apply list_elem_of_In].
  - intros (e & -> & He). exists e.
    split; [by apply list_elem_of_In|by apply String.eqb_eq].
Qed.

Lemma path_selected_false p l : path_selected p l = false <-> p ∉ paths l.
Proof. rewrite <-path_selected_spec. by destruct (path_selected p l). Qed.

Lemma paths_app l1 l2 : paths (l1 ++ l2) = paths l1 ++ paths l2.
Proof. apply map_app. Qed.

Lemma remove_first_elem_of {A} (f : A -> bool) l x :
  x ∈ remove_first f l -> x ∈ l.
Proof.
  induction l as [|y l IH]; simpl; [done|]. destruct (f y).
  - apply list_elem_of_further.
  - rewrite !elem_of_cons. intros [->|?]; auto.
Qed.

Lemma remove_first_keeps {A} (f : A -> bool) l x :
  x ∈ l -> f x = false -> x ∈ remove_first f l.
Proof.
  intros Hx Hf. induction l as [|y l IH]; simpl; [done|].
  apply elem_of_cons in Hx as [->|Hx].
  - rewrite Hf. apply list_elem_of_here.
  - destruct (f y); [done|]. apply list_elem_of_further. auto.
Qed.

Lemma remove_first_key_NoDup {A} (key : A -> string) n l :
  NoDup (map key l) ->
  NoDup (map key (remove_first (fun e => String.eqb (key e) n) l))
  ∧ n ∉ map key (remove_first (fun e => String.eqb (key e) n) l).
Proof.
  induction l as [|x l IH]; simpl.
  - intros _. split; [constructor|apply not_elem_of_nil].
  - intros [Hx Hl]%NoDup_cons. destruct (String.eqb (key x) n) eqn:E.
    + apply String.eqb_eq in E as <-. done.
    + apply String.eqb_neq in E. destruct (IH Hl) as [IH1 IH2]. simpl. split.
      * apply NoDup_cons. split; [|done]. intros Hin. apply Hx.
        apply list_elem_of_fmap in Hin as (y & -> & Hy).
        apply list_elem_of_fmap. exists y. split; [done|].
        by eapply remove_first_elem_of.
      * rewrite elem_of_cons. intros [?|?]; [congruence|done].
Qed.

Lemma remove_first_key_ne {A} (key : A -> string) n q l :
  q ≠ n ->
  q ∈ map key (remove_first (fun e => String.eqb (key e) n) l) <-> q ∈ map key l.
Proof.
  intros Hq. induction l as [|x l IH]; simpl; [done|].
  destruct (String.eqb (key x) n) eqn:E.
  - apply String.eqb_eq in E. rewrite elem_of_cons. split; [by right|].
    intros [->|?]; [by destruct Hq|done].
  - simpl. by rewrite !elem_of_cons, IH.
Qed.

Lemma paths_remove_first_ne p q l :
  q ≠ p ->
  q ∈ paths (remove_first (fun e => String.eqb (fst e) p) l) <-> q ∈ paths l.
Proof. apply (remove_first_key_ne fst). Qed.

Lemma paths_remove_first_NoDup p l :
  NoDup (paths l) ->
  NoDup (paths (remove_first (fun e => String.eqb (fst e) p) l))
  ∧ p ∉ paths (remove_first (fun e => String.eqb (fst e) p) l).
Proof. apply (remove_first_key_NoDup fst). Qed.

Lemma paths_snoc l p b q : q ∈ paths (l ++ [(p, b)]) <-> q ∈ paths l ∨ q = p.
Proof.
  rewrite paths_app, elem_of_app. simpl. by rewrite list_elem_of_singleton.
Qed.

Lemma paths_snoc_NoDup l p b :
  NoDup (paths l) -> p ∉ paths l -> NoDup (paths (l ++ [(p, b)])).
Proof.
  intros Hnd Hp. rewrite paths_app. simpl. apply NoDup_app.
  split_and!; [done| |apply NoDup_singleton].
  intros q Hq ?%list_elem_of_singleton. by subst.
Qed.

Lemma synced_set t r ps ps' i it p v :
  well_named t -> synced t r ps ->
  tree_item t i = Some it -> full_path_from t r i = Some p ->
  (∀ q, q ≠ p -> q ∈ ps' <-> q ∈ ps) ->
  (v = Checked <-> p ∈ ps') ->
  synced (tree_alter (set_selected v) i t) r ps'.
Proof.
  intros Hw Hs Hi Hp Hother Hthis j it' q Hj Hq.
  rewrite full_path_alter in Hq by apply set_selected_keeps.
  destruct (decide (j = i)) as [->|Hne].
  - rewrite tree_item_alter_eq, Hi in Hj. simplify_eq/=. done.
  - assert (q ≠ p) as Hqp.
    { intros ->. apply Hne. by eapply full_path_inj. }
    rewrite (Hother q Hqp).
    pose proof (tree_item_alter_ne (set_selected v) i t j
                  (set_selected_keeps v) Hne) as E.
    rewrite Hj in E. destruct (tree_item t j) as [it0|] eqn:Hj0; simplify_eq/=.
    rewrite E. by apply (Hs j).
Qed.

Lemma synced_open t r ps i b :
  synced t r ps -> synced (tree_alter (set_is_open b) i t) r ps.
Proof.
  intros Hs j it' q Hj Hq.
  rewrite full_path_alter in Hq by apply set_is_open_keeps.
  destruct (decide (j = i)) as [->|Hne].
  - rewrite tree_item_alter_eq in Hj.
    destruct (tree_item t i) as [it0|] eqn:Hi; simplify_eq/=.
    by apply (Hs i).
  - pose proof (tree_item_alter_ne (set_is_open b) i t j
                  (set_is_open_keeps b) Hne) as E.
    rewrite Hj in E. destruct (tree_item t j) as [it0|] eqn:Hj0; simplify_eq/=.
    rewrite E. by apply (Hs j).
Qed.

Lemma synced_clear t r : synced (update_node_and_children Unchecked t) r [].
Proof.
  intros j it' q Hj _. rewrite tree_item_update_node in Hj.
  destruct (tree_item t j); simplify_eq/=.
  rewrite update_node_selected. split; [done|]. by intros ?%elem_of_nil.
Qed.

Section Selection.
Context {FS : Type} `{!Filesystem FS} `{!Runtime}.
Implicit Types st : app FS.

Lemma in_sync_synced st :
  in_sync st <->
  synced (dir_tree st) (root_directory st) (paths (selected_items st)).
Proof. done. Qed.

Lemma consistent_click st i :
  consistent st -> consistent (on_tree_checkbox_click i st).
Proof.
  intros (Hw & Hnd & Hs). unfold on_tree_checkbox_click.
  destruct (tree_item (dir_tree st) i) as [it|] eqn:Hi; [|done].
  destruct (full_path_item (dir_tree st) (root_directory st) i) as [_ Hp].
  destruct Hp as [p Hp]; [eauto|].
  case_bool_decide as Hc.
  - unfold remove_tree_item_from_selection, get_full_path, dir_tree_set. simpl.
    rewrite full_path_alter, Hp by apply set_selected_keeps.
    destruct (path_selected p (selected_items st)) eqn:Hsel; simpl.
    + destruct (paths_remove_first_NoDup p _ Hnd) as [Hnd' Hnot].
      split_and!; [simpl; apply well_named_alter; [apply set_selected_keeps|done]|done|].
      eapply synced_set; eauto.
      * intros q Hq. by apply paths_remove_first_ne.
      * done.
    + apply path_selected_false in Hsel.
      split_and!; [simpl; apply well_named_alter; [apply set_selected_keeps|done]|done|].
      eapply synced_set; eauto. done.
  - unfold add_tree_item_to_selection, get_full_path, dir_tree_set. simpl.
    rewrite full_path_alter, Hp by apply set_selected_keeps.
    rewrite tree_item_alter_eq, Hi. simpl.
    destruct (path_selected p (selected_items st)) eqn:Hsel; simpl.
    + apply path_selected_spec in Hsel.
      split_and!; [simpl; apply well_named_alter; [apply set_selected_keeps|done]|done|].
      eapply synced_set; eauto. done.
    + apply path_selected_false in Hsel.
      split_and!; [simpl; apply well_named_alter; [apply set_selected_keeps|done]| |].
      * simpl. by apply paths_snoc_NoDup.
      * apply in_sync_synced. simpl. eapply synced_set; eauto.
        -- intros q Hq. rewrite paths_snoc. split; [by intros [?|?]|by left].
        -- rewrite paths_snoc. split; [by right|done].
Qed.

Lemma consistent_clear st : consistent st -> consistent (clear_selection st).
Proof.
  intros (Hw & Hnd & Hs). split_and!.
  - by apply well_named_update_node.
  - apply NoDup_nil_2.
  - apply synced_clear.
Qed.

Lemma child_index_spec name cs k :
  child_index name cs = Some k ->
  ∃ c, cs !! k = Some c ∧ text c = name.
Proof.
  revert k. induction cs as [|c cs IH]; intros k; simpl; [done|].
  destruct (String.eqb (text c) name) eqn:E.
  - intros [= <-]. exists c. split; [done|]. by apply String.eqb_eq.
  - destruct (child_index name cs) as [k'|]; [|done]. intros [= <-].
    destruct (IH k' eq_refl) as (c' & ? & ?). by exists c'.
Qed.

Lemma child_index_none name cs c k :
  child_index name cs = None -> cs !! k = Some c -> text c ≠ name.
Proof.
  revert k. induction cs as [|c0 cs IH]; intros k; simpl; [done|].
  destruct (String.eqb (text c0) name) eqn:E; [done|].
  destruct (child_index name cs); [done|]. intros _.
  destruct k as [|k]; simpl.
  - intros [= ->]. by apply String.eqb_neq.
  - by apply IH.
Qed.

Lemma consistent_select_child st i it item_path child_name :
  consistent st -> is_name child_name = true ->
  tree_item (dir_tree st) i = Some it ->
  get_full_path st i = Some item_path ->
  consistent (select_child i item_path child_name st).
Proof.
  intros (Hw & Hnd & Hs) Hn Hi Hp. unfold select_child.
  set (cp := join item_path child_name).
  destruct (path_selected cp (selected_items st)) eqn:Hsel; simpl; [done|].
  apply path_selected_false in Hsel. rewrite Hi.
  assert (NoDup (paths (selected_items st ++ [(cp, os_path_isdir (fs st) cp)])))
    as Hnd'.
  { by apply paths_snoc_NoDup. }
  assert (∀ q, q ≠ cp ->
            q ∈ paths (selected_items st ++ [(cp, os_path_isdir (fs st) cp)])
            <-> q ∈ paths (selected_items st)) as Hother.
  { intros q Hq. rewrite paths_snoc. split; [by intros [?|?]|by left]. }
  assert (cp ∈ paths (selected_items st ++ [(cp, os_path_isdir (fs st) cp)]))
    as Hthis.
  { rewrite paths_snoc. by right. }
  destruct (child_index child_name (children it)) as [k|] eqn:Hk.
  - destruct (child_index_spec _ _ _ Hk) as (c & Hc & Htext).
    assert (tree_item (dir_tree st) (i ++ [k]) = Some c) as Hik.
    { by rewrite tree_item_snoc, Hi. }
    split_and!; [simpl; apply well_named_alter; [apply set_selected_keeps|done]|done|].
    unfold dir_tree_set, in_sync, get_full_path. simpl.
    eapply synced_set; eauto.
    + rewrite (full_path_snoc _ _ _ _ _ _ Hp Hik). by rewrite Htext.
    + done.
  - split_and!; [done..|]. unfold in_sync, get_full_path. simpl.
    intros j it' q Hj Hq. destruct (decide (q = cp)) as [->|Hne].
    + destruct (full_path_join _ _ _ _ _ _ Hw Hn Hp Hq) as (k & c & -> & Hc & Ht).
      rewrite tree_item_snoc, Hi in Hc.
      by destruct (child_index_none _ _ _ _ Hk Hc).
    + rewrite (Hother q Hne). by apply (Hs j).
Qed.

Lemma select_child_keeps st i item_path child_name :
  fs (select_child i item_path child_name st) = fs st
  ∧ root_directory (select_child i item_path child_name st) = root_directory st
  ∧ (∀ j r, full_path_from (dir_tree (select_child i item_path child_name st)) r j
            = full_path_from (dir_tree st) r j)
  ∧ (is_Some (tree_item (dir_tree st) i) ->
     is_Some (tree_item (dir_tree (select_child i item_path child_name st)) i)).
Proof.
  unfold select_child.
  destruct (path_selected _ _); simpl; [done|].
  destruct (tree_item (dir_tree st) i) as [it|] eqn:Hi; simpl; [|by rewrite Hi].
  destruct (child_index child_name (children it)) as [k|]; simpl; [|by rewrite Hi].
  split_and!; [done..| |].
  - intros j r. apply full_path_alter, set_selected_keeps.
  - intros _. apply full_path_item with (r := ""). rewrite full_path_alter
      by apply set_selected_keeps. apply full_path_item. by rewrite Hi.
Qed.

Lemma consistent_select_children names st i item_path :
  consistent st -> Forall (fun n => is_name n = true) names ->
  is_Some (tree_item (dir_tree st) i) ->
  get_full_path st i = Some item_path ->
  consistent
    (fold_left (fun st child_name => select_child i item_path child_name st)
       names st).
Proof.
  intros Hc Hn. revert st Hc.
  induction Hn as [|n names Hn Hns IH]; intros st Hc [it Hi] Hp; [done|].
  simpl. destruct (select_child_keeps st i item_path n) as (_ & Hr & Hpath & Hit).
  apply IH.
  - by eapply consistent_select_child.
  - apply Hit. eauto.
  - unfold get_full_path. by rewrite Hr, Hpath.
Qed.

Lemma consistent_select_contents st sel :
  lists_names (fs st) -> consistent st ->
  consistent (select_tree_item_contents sel st).
Proof.
  intros Hfs Hc. unfold select_tree_item_contents.
  destruct sel as [|i _]; [done|].
  destruct (tree_item (dir_tree st) i) as [it|] eqn:Hi; [|done].
  destruct (get_full_path st i) as [item_path|] eqn:Hp; [|done].
  case_bool_decide; [|done]. simpl.
  assert (consistent
            (set_dir_tree (tree_alter (set_is_open true) i (dir_tree st)) st))
    as Hc'.
  { destruct Hc as (Hw & Hnd & Hs). split_and!; [|done|].
    - simpl; apply well_named_alter; [apply set_is_open_keeps|done].
    - by apply synced_open. }
  destruct (os_listdir (fs st) item_path) as [e|names] eqn:Hl;
    [by destruct (is_PermissionError e)|].
  apply consistent_select_children; [done|by eapply Hfs| |].
  - simpl. rewrite tree_item_alter_eq, Hi. eauto.
  - unfold get_full_path. simpl. rewrite full_path_alter by apply set_is_open_keeps.
    done.
Qed.

Lemma fs_click st i : fs (on_tree_checkbox_click i st) = fs st.
Proof.
  unfold on_tree_checkbox_click, remove_tree_item_from_selection,
    add_tree_item_to_selection.
  repeat (case_match; simpl; try done).
Qed.

Lemma fs_select_children names st i item_path :
  fs (fold_left (fun st child_name => select_child i item_path child_name st)
        names st) = fs st.
Proof.
  revert st. induction names as [|n names IH]; intros st; [done|]. simpl.
  rewrite IH. apply select_child_keeps.
Qed.

Lemma fs_select_contents st sel : fs (select_tree_item_contents sel st) = fs st.
Proof.
  unfold select_tree_item_contents.
  repeat (case_match; simpl; try done). by rewrite fs_select_children.
Qed.

End Selection.

Lemma items_with_paths_item t r i it p :
  tree_item t i = Some it -> full_path_from t r i = Some p ->
  (p, it) ∈ items_with_paths t r.
Proof.
  revert t r. induction i as [|k i IH]; intros t r Hi Hp.
  - simpl in *. simplify_eq. destruct it; simpl. apply list_elem_of_here.
  - simpl in Hi, Hp. destruct (children t !! k) as [c|] eqn:Hc; [|done].
    destruct t as [tx s ty o cs]; simpl in *. apply list_elem_of_further.
    apply list_elem_of_In, in_flat_map. exists c. split.
    + apply list_elem_of_In. by eapply list_elem_of_lookup_2.
    + apply list_elem_of_In. by apply IH.
Qed.

Lemma well_namedb_sound t : well_namedb t = true -> well_named t.
Proof.
  unfold well_namedb. rewrite forallb_forall. intros H i it Hi.
  destruct (full_path_item t "" i) as [_ [p Hp]]; [eauto|].
  specialize (H (p, it)). simpl in H.
  destruct (andb_prop _ _ (H ltac:(by apply list_elem_of_In,
    (items_with_paths_item t "" i)))) as [Hnd Hn].
  split; [by apply bool_decide_eq_true in Hnd|].
  apply Forall_forall. intros c Hc. rewrite forallb_forall in Hn.
  by apply Hn, list_elem_of_In.
Qed.

Section Selection.
Context {FS : Type} `{!Filesystem FS} `{!Runtime}.
Implicit Types st : app FS.

Lemma in_syncb_sound st : in_syncb st = true -> in_sync st.
Proof.
  unfold in_syncb. rewrite forallb_forall. intros Hall i it p Hi Hp.
  specialize (Hall (p, it) ltac:(by apply list_elem_of_In,
    (items_with_paths_item _ _ i))). simpl in Hall.
  apply Bool.eqb_prop in Hall. rewrite <-path_selected_spec, <-Hall.
  by rewrite bool_decide_eq_true.
Qed.

Lemma consistent_step st e :
  selection_event e -> lists_names (fs st) -> consistent st ->
  consistent (step e st) ∧ fs (step e st) = fs st.
Proof.
  intros He Hfs Hc. destruct e; try done; cbn [step].
  - split; [by apply consistent_click|apply fs_click].
  - split; [by apply consistent_select_contents|apply fs_select_contents].
  - split; [by apply consistent_clear|done].
Qed.

Lemma consistent_run events st :
  Forall selection_event events -> lists_names (fs st) -> consistent st ->
  consistent (run events st).
Proof.
  intros He. revert st. induction He as [|e events He Hes IH]; intros st Hfs Hc.
  - done.
  - destruct (consistent_step st e He Hfs Hc) as [Hc' Hfs'].
    apply IH; [by rewrite Hfs'|done].
Qed.

(** C4.  In a session whose tree is well named and whose selection has no
    path twice, if every item is checked exactly when its path is selected,
    this is still so after any sequence of checkbox clicks, "Select
    Contents" commands and "Clear Selection" clicks, for every item of the
    tree; the disk is assumed to list names only. *)
Theorem checked_iff_selected st events :
  well_named (dir_tree st) -> NoDup (paths (selected_items st)) ->
  lists_names (fs st) -> in_sync st ->
  Forall selection_event events ->
  in_sync (run events st).
Proof.
  intros Hw Hnd Hfs Hs He.
  by destruct (consistent_run events st He Hfs (conj Hw (conj Hnd Hs)))
    as (_ & _ & ?).
Qed.

End Selection.

Lemma toy_lists_names (d : Toy.disk) :
  forallb (fun e => is_name (basename (fst e))) (Toy.entries d) = true ->
  lists_names d.
Proof.
  rewrite forallb_forall. intros H p names. simpl. unfold Toy.listdir.
  case_bool_decide; [done|].
  destruct (Toy.lookup_entry p d) as [[|]|]; [|done..]. intros [= <-].
  apply Forall_forall. intros n (e & -> & He)%list_elem_of_fmap.
  apply list_elem_of_filter in He as [_ He]. by apply H, list_elem_of_In.
Qed.

Lemma checked_iff_selected_witness :
  in_sync (run Toy.selection_events Toy.session0)
  ∧ selected_items (run Toy.selection_events Toy.session0) = [("/r/b.txt", false)].
Proof.
  split; [|vm_compute; reflexivity].
  apply checked_iff_selected.
  - apply well_namedb_sound. vm_compute. reflexivity.
  - apply NoDup_nil_2.
  - apply toy_lists_names. vm_compute. reflexivity.
  - apply in_syncb_sound. vm_compute. reflexivity.
  - repeat constructor.
Defined.

Lemma remove_first_snoc {A} (f : A -> bool) l x :
  Forall (fun e => f e = false) l -> f x = true ->
  remove_first f (l ++ [x]) = l.
Proof.
  intros Hl Hx. induction Hl as [|e l He Hl IH]; simpl.
  - by rewrite Hx.
  - by rewrite He, IH.
Qed.

Lemma not_selected_Forall p l :
  p ∉ paths l -> Forall (fun e => String.eqb (fst e) p = false) l.
Proof.
  intros Hp. apply Forall_forall. intros e He. apply String.eqb_neq.
  intros <-. apply Hp. unfold paths. apply list_elem_of_fmap. eauto.
Qed.

Section Toggle.
Context {FS : Type} `{!Filesystem FS} `{!Runtime}.
Implicit Types st : app FS.

Lemma click_checked st i it p :
  tree_item (dir_tree st) i = Some it -> get_full_path st i = Some p ->
  selected it = Checked ->
  dir_tree (on_tree_checkbox_click i st)
  = tree_alter (set_selected Unchecked) i (dir_tree st)
  ∧ root_directory (on_tree_checkbox_click i st) = root_directory st
  ∧ selected_items (on_tree_checkbox_click i st)
    = if path_selected p (selected_items st)
      then remove_first (fun e => String.eqb (fst e) p) (selected_items st)
      else selected_items st.
Proof.
  intros Hi Hp Hc. unfold on_tree_checkbox_click. rewrite Hi.
  rewrite bool_decide_eq_true_2 by done.
  unfold remove_tree_item_from_selection, get_full_path, dir_tree_set in *.
  simpl. rewrite full_path_alter, Hp by apply set_selected_keeps.
  by destruct (path_selected p (selected_items st)).
Qed.

Lemma click_unchecked st i it p :
  tree_item (dir_tree st) i = Some it -> get_full_path st i = Some p ->
  selected it ≠ Checked ->
  dir_tree (on_tree_checkbox_click i st)
  = tree_alter (set_selected Checked) i (dir_tree st)
  ∧ root_directory (on_tree_checkbox_click i st) = root_directory st
  ∧ selected_items (on_tree_checkbox_click i st)
    = if path_selected p (selected_items st) then selected_items st
      else selected_items st ++ [(p, bool_decide (item_type it = Folder))].
Proof.
  intros Hi Hp Hc. unfold on_tree_checkbox_click. rewrite Hi.
  rewrite bool_decide_eq_false_2 by done.
  unfold add_tree_item_to_selection, get_full_path, dir_tree_set in *.
  simpl. rewrite full_path_alter, Hp by apply set_selected_keeps.
  rewrite tree_item_alter_eq, Hi. simpl.
  by destruct (path_selected p (selected_items st)).
Qed.

(** C9, as amended.  When the item's checkbox agrees with the selection
    (checked exactly when its path has an entry), two clicks on the checkbox
    leave the selection with the same paths as before; when moreover the
    path was not selected, the list is exactly as before and the item ends
    unchecked. *)
Theorem toggle_twice st i it p :
  tree_item (dir_tree st) i = Some it -> get_full_path st i = Some p ->
  (selected it = Checked <-> p ∈ paths (selected_items st)) ->
  let st' := on_tree_checkbox_click i (on_tree_checkbox_click i st) in
  (∀ q, q ∈ paths (selected_items st') <-> q ∈ paths (selected_items st))
  ∧ (p ∉ paths (selected_items st) ->
     selected_items st' = selected_items st
     ∧ (selected <$> tree_item (dir_tree st') i) = Some Unchecked).
Proof.
  intros Hi Hp Hsync st'. subst st'.
  destruct (decide (selected it = Checked)) as [Hc|Hc].
  - assert (p ∈ paths (selected_items st)) as Hin by by apply Hsync.
    destruct (click_checked st i it p Hi Hp Hc) as (Ht1 & Hr1 & Hs1).
    rewrite (proj2 (path_selected_spec _ _) Hin) in Hs1.
    set (st1 := on_tree_checkbox_click i st) in *.
    assert (tree_item (dir_tree st1) i = Some (set_selected Unchecked it)) as Hi1.
    { by rewrite Ht1, tree_item_alter_eq, Hi. }
    assert (get_full_path st1 i = Some p) as Hp1.
    { unfold get_full_path. rewrite Ht1, Hr1.
      by rewrite full_path_alter by apply set_selected_keeps. }
    destruct (click_unchecked st1 i _ p Hi1 Hp1 ltac:(done)) as (_ & _ & Hs2).
    split; [|done]. intros q. rewrite Hs2.
    destruct (decide (q = p)) as [->|Hq].
    + split; [done|intros _].
      destruct (path_selected p (selected_items st1)) eqn:E.
      * by apply path_selected_spec.
      * rewrite paths_snoc. by right.
    + rewrite <-(paths_remove_first_ne p q (selected_items st) Hq), <-Hs1.
      destruct (path_selected p (selected_items st1)); [done|].
      rewrite paths_snoc. split; [by intros [?|?]|by left].
  - assert (p ∉ paths (selected_items st)) as Hin by by rewrite <-Hsync.
    destruct (click_unchecked st i it p Hi Hp Hc) as (Ht1 & Hr1 & Hs1).
    rewrite (proj2 (path_selected_false _ _) Hin) in Hs1.
    set (st1 := on_tree_checkbox_click i st) in *.
    assert (tree_item (dir_tree st1) i = Some (set_selected Checked it)) as Hi1.
    { by rewrite Ht1, tree_item_alter_eq, Hi. }
    assert (get_full_path st1 i = Some p) as Hp1.
    { unfold get_full_path. rewrite Ht1, Hr1.
      by rewrite full_path_alter by apply set_selected_keeps. }
    destruct (click_checked st1 i _ p Hi1 Hp1 eq_refl) as (Ht2 & _ & Hs2).
    assert (selected_items (on_tree_checkbox_click i st1) = selected_items st)
      as Hsame.
    { rewrite Hs2, Hs1.
      assert (path_selected p
                (selected_items st ++ [(p, bool_decide (item_type it = Folder))])
              = true) as ->.
      { apply path_selected_spec. rewrite paths_snoc. by right. }
      apply remove_first_snoc; [by apply not_selected_Forall|].
      apply String.eqb_refl. }
    split; [by rewrite Hsame|]. intros _. split; [done|].
    by rewrite Ht2, tree_item_alter_eq, Hi1.
Qed.

End Toggle.

Lemma toggle_twice_changes_selection :
  let st := Toy.removed_while_closed in
  let st' := on_tree_checkbox_click [0; 0] (on_tree_checkbox_click [0; 0] st) in
  get_full_path st [0; 0] = Some "/r/d/c.txt"
  ∧ ("/r/d/c.txt" ∉ paths (selected_items st))
  ∧ ("/r/d/c.txt" ∈ paths (selected_items st')).
Proof.
  split_and!; [vm_compute; reflexivity| |].
  - vm_compute. apply not_elem_of_nil.
  - vm_compute. apply list_elem_of_here.
Qed.

Lemma toggle_twice_witness :
  let st := Toy.session0 in
  let st' := on_tree_checkbox_click [1] (on_tree_checkbox_click [1] st) in
  selected_items st' = selected_items st
  ∧ (selected <$> tree_item (dir_tree st') [1]) = Some Unchecked.
Proof.
  refine (proj2 (toggle_twice Toy.session0 [1]
            (Item "a.txt" Unchecked File false []) "/r/a.txt" _ _ _) _).
  - vm_compute. reflexivity.
  - vm_compute. reflexivity.
  - vm_compute. split; [discriminate|]. by intros ?%elem_of_nil.
  - vm_compute. apply not_elem_of_nil.
Defined.

(** ** Cells as ttk returns them *)

Section Cells.
Context `{!Runtime}.

Lemma convert_text s t :
  _convert_stringval s = Text t -> t = s ∧ int_of_str s = None.
Proof.
  unfold _convert_stringval. destruct (int_of_str s); [done|]. by intros [= <-].
Qed.

Lemma convert_as_text s : int_of_str s = None -> _convert_stringval s = Text s.
Proof. unfold _convert_stringval. by intros ->. Qed.

Lemma convert_as_number s n :
  int_of_str s = Some n -> _convert_stringval s = Number n.
Proof. unfold _convert_stringval. by intros ->. Qed.

(** A cell is read as the string [n] when it holds [n] and [n] is not read
    as a number. *)
Lemma reads_as s n :
  cell_eqb (_convert_stringval s) (Text n) = true
  <-> s = n ∧ int_of_str n = None.
Proof.
  unfold _convert_stringval. destruct (int_of_str s) eqn:E; simpl.
  - split; [done|]. intros [-> E']. congruence.
  - rewrite String.eqb_eq. split; [by intros <-|by intros [-> _]].
Qed.

Lemma reads_as_other s n :
  s ≠ n -> cell_eqb (_convert_stringval s) (Text n) = false.
Proof.
  intros Hne. destruct (cell_eqb _ _) eqn:E; [|done].
  by apply reads_as in E as [? _].
Qed.

Lemma reads_as_number s n :
  int_of_str s ≠ None -> cell_eqb (_convert_stringval s) (Text n) = false.
Proof.
  intros Hs. destruct (cell_eqb _ _) eqn:E; [|done].
  apply reads_as in E as [-> E]. done.
Qed.

Lemma cell_eqb_eq a b : cell_eqb a b = true <-> a = b.
Proof.
  destruct a, b; simpl; rewrite ?String.eqb_eq, ?Z.eqb_eq; split;
    first [done|congruence].
Qed.

Lemma resolve_cell_text name l : resolve_cell (Text name) l = resolve name l.
Proof. done. Qed.

Lemma resolve_cell_number n l : resolve_cell (Number n) l = None.
Proof. unfold resolve_cell. by induction l. Qed.

Lemma text_names_cons (r : row) rows :
  text_names (r :: rows)
  = if decide (int_of_str (Original r) = None)
    then Original r :: text_names rows else text_names rows.
Proof.
  unfold text_names. simpl. destruct (decide _) as [E|E].
  - by rewrite filter_cons_True.
  - by rewrite filter_cons_False.
Qed.

Lemma text_names_app rows1 rows2 :
  text_names (rows1 ++ rows2) = text_names rows1 ++ text_names rows2.
Proof. unfold text_names. by rewrite map_app, filter_app. Qed.

Lemma elem_of_text_names n rows :
  n ∈ text_names rows <-> int_of_str n = None ∧ n ∈ map Original rows.
Proof. unfold text_names. by rewrite list_elem_of_filter. Qed.

(** Removing the first row that is read as [name] leaves no row that is
    read as [name], when no two rows are read as the same string. *)
Lemma remove_first_text_names name rows :
  NoDup (text_names rows) ->
  let rows' :=
    remove_first
      (fun r => cell_eqb (_convert_stringval (Original r)) (Text name)) rows in
  NoDup (text_names rows') ∧ name ∉ text_names rows'.
Proof.
  induction rows as [|x l IH]; simpl.
  - intros _. split; [constructor|apply not_elem_of_nil].
  - rewrite text_names_cons.
    destruct (cell_eqb (_convert_stringval (Original x)) (Text name)) eqn:Hx.
    + apply reads_as in Hx as [Ex Hn]. rewrite Ex.
      rewrite decide_True by done. by intros [? ?]%NoDup_cons.
    + rewrite text_names_cons. destruct (decide _) as [Et|Et].
      * intros [Hnew Hl]%NoDup_cons. destruct (IH Hl) as [IH1 IH2]. split.
        -- apply NoDup_cons. split; [|done]. intros Hin. apply Hnew.
           apply elem_of_text_names in Hin as [_ Hin].
           apply elem_of_text_names. split; [done|].
           apply list_elem_of_fmap in Hin as (y & -> & Hy).
           apply list_elem_of_fmap. exists y. split; [done|].
           by eapply remove_first_elem_of.
        -- rewrite not_elem_of_cons. split; [|done]. intros ->.
           assert (cell_eqb (_convert_stringval (Original x)) (Text (Original x))
                   = true) as Hc by (by apply reads_as).
           congruence.
      * intros Hl. by apply IH.
Qed.

End Cells.

Section Quiet.
Context {FS : Type} `{!Filesystem FS} `{!Runtime}.
Implicit Types st : app FS.

Lemma quiet_id : quiet (fun st : app FS => st).
Proof. done. Qed.

Lemma quiet_compose (f g : app FS -> app FS) :
  quiet f -> quiet g -> quiet (fun st => f (g st)).
Proof. intros Hf Hg st. by rewrite Hf, Hg. Qed.

Lemma quiet_fold {A} (f : A -> app FS -> app FS) (l : list A) :
  (∀ x, quiet (f x)) -> quiet (fun st => fold_left (fun st x => f x st) l st).
Proof.
  intros Hf. induction l as [|x l IH]; intros st; [done|]. simpl.
  by rewrite IH, Hf.
Qed.

Lemma quiet_log (e : effect) :
  is_thread_start e = false -> is_queue_get e = false ->
  quiet (log_effect (FS := FS) e).
Proof.
  intros H1 H2 st. unfold pipeline_state, issued_count, drained_count. simpl.
  rewrite !List.filter_app. simpl. rewrite H1, H2. by rewrite !app_nil_r.
Qed.

Lemma quiet_logs (es : list effect) :
  forallb (fun e => negb (is_thread_start e) && negb (is_queue_get e)) es = true ->
  quiet (fun st : app FS => set_log (log st ++ es) st).
Proof.
  intros Hes st. unfold pipeline_state, issued_count, drained_count. simpl.
  rewrite !List.filter_app.
  assert (List.filter is_thread_start es = [] ∧ List.filter is_queue_get es = [])
    as [-> ->]; [|by rewrite !app_nil_r].
  induction es as [|e es IH]; [done|]. simpl in Hes.
  apply andb_true_iff in Hes as [[H1 H2]%andb_true_iff Hes].
  apply negb_true_iff in H1, H2. simpl. rewrite H1, H2. by apply IH.
Qed.

Lemma quiet_set_items_tree v : quiet (set_items_tree (FS := FS) v).
Proof. done. Qed.

Lemma quiet_set_selected_items v : quiet (set_selected_items (FS := FS) v).
Proof. done. Qed.

Lemma quiet_set_results_tree v : quiet (set_results_tree (FS := FS) v).
Proof. done. Qed.

Lemma quiet_set_rename_suggestions v :
  quiet (set_rename_suggestions (FS := FS) v).
Proof. done. Qed.

Lemma quiet_set_fs v : quiet (set_fs (FS := FS) v).
Proof. done. Qed.

Lemma quiet_dir_tree_set i v : quiet (dir_tree_set (FS := FS) i v).
Proof. done. Qed.

Lemma quiet_add_tree_item i : quiet (add_tree_item_to_selection (FS := FS) i).
Proof.
  intros st. unfold add_tree_item_to_selection. by repeat case_match.
Qed.

Lemma quiet_remove_tree_item i :
  quiet (remove_tree_item_from_selection (FS := FS) i).
Proof.
  intros st. unfold remove_tree_item_from_selection. by repeat case_match.
Qed.

Lemma quiet_click i : quiet (on_tree_checkbox_click (FS := FS) i).
Proof.
  intros st. unfold on_tree_checkbox_click. repeat case_match; [| |done].
  - by rewrite quiet_remove_tree_item.
  - by rewrite quiet_add_tree_item.
Qed.

Lemma quiet_select_child i item_path child_name :
  quiet (select_child (FS := FS) i item_path child_name).
Proof. intros st. unfold select_child. by repeat case_match. Qed.

Lemma quiet_select_contents sel :
  quiet (select_tree_item_contents (FS := FS) sel).
Proof.
  intros st. unfold select_tree_item_contents. repeat case_match; try done.
  all: first
    [ by rewrite quiet_log
    | by rewrite (quiet_fold (fun n => select_child _ _ n) _
                    (fun n => quiet_select_child _ _ n)) ].
Qed.

Lemma quiet_populate_subtree i p :
  quiet (fun st : app FS => (populate_directory_subtree i p st).2).
Proof.
  intros st. unfold populate_directory_subtree. repeat case_match; try done.
  simpl. by rewrite quiet_log.
Qed.

Lemma quiet_populate_tree :
  quiet (fun st : app FS => (populate_directory_tree st).2).
Proof.
  intros st. unfold populate_directory_tree.
  by rewrite (quiet_populate_subtree [] (root_directory st)).
Qed.

Lemma quiet_on_folder_expanded i : quiet (on_folder_expanded (FS := FS) i).
Proof.
  intros st. unfold on_folder_expanded. repeat case_match; try done.
  by rewrite (quiet_populate_subtree i).
Qed.

Lemma quiet_update_checkbox p b :
  quiet (update_dir_tree_checkbox (FS := FS) p b).
Proof. intros st. unfold update_dir_tree_checkbox. by case_match. Qed.

Lemma quiet_remove_selected_item k : quiet (remove_selected_item (FS := FS) k).
Proof.
  intros st. unfold remove_selected_item. repeat case_match; try done.
  by rewrite quiet_set_items_tree, quiet_update_checkbox.
Qed.

Lemma quiet_clear : quiet (clear_selection (FS := FS)).
Proof. done. Qed.

Lemma quiet_reject_row r : quiet (reject_row (FS := FS) r).
Proof.
  intros st. unfold reject_row. repeat case_match; try done.
  by rewrite quiet_set_rename_suggestions, quiet_set_results_tree,
    quiet_update_checkbox.
Qed.

Lemma quiet_reject : quiet (reject_selected_suggestions (FS := FS)).
Proof.
  intros st. unfold reject_selected_suggestions.
  destruct (filter _ _) as [|r rows] eqn:E; [by rewrite quiet_log|].
  by rewrite (quiet_fold reject_row _ quiet_reject_row).
Qed.

Lemma quiet_suggest_entry result entry :
  quiet (suggest_entry (FS := FS) result entry).
Proof. intros st. unfold suggest_entry. by repeat case_match. Qed.

Lemma apply_row_quiet r (acc : app FS * nat * nat) :
  pipeline_state (apply_row r acc).1.1 = pipeline_state acc.1.1.
Proof.
  destruct acc as [[st n] e]. unfold apply_row. repeat case_match; try done.
  all: cbn [fst]; by rewrite ?quiet_set_selected_items, !quiet_log.
Qed.

Lemma apply_rows_quiet rows (acc : app FS * nat * nat) :
  pipeline_state (apply_rows rows acc).1.1 = pipeline_state acc.1.1.
Proof.
  revert acc. induction rows as [|r rows IH]; intros acc; [done|].
  unfold apply_rows in *. simpl. by rewrite IH, apply_row_quiet.
Qed.

Lemma summary_quiet n e :
  forallb (fun e => negb (is_thread_start e) && negb (is_queue_get e))
    (summary n e) = true.
Proof. unfold summary. by repeat case_match. Qed.

Lemma quiet_apply : quiet (apply_renames (FS := FS)).
Proof.
  intros st. unfold apply_renames.
  destruct (filter _ _) as [|r rows] eqn:E; [by rewrite quiet_log|].
  pose proof (apply_rows_quiet (r :: rows) (st, 0, 0)) as Hq.
  unfold apply_rows in Hq.
  destruct (fold_left _ (r :: rows) (st, 0, 0)) as [[st1 n] e]. simpl in Hq.
  pose proof (quiet_populate_tree (set_log (log st1 ++ summary n e) st1)) as Hp.
  simpl in Hp. rewrite (quiet_logs _ (summary_quiet n e)) in Hp.
  destruct (populate_directory_tree _) as [[err|] st2]; simpl in Hp;
    by rewrite <-Hq, <-Hp.
Qed.

End Quiet.

Section SingleFlight.
Context {FS : Type} `{!Filesystem FS} `{!Runtime}.
Implicit Types st : app FS.

Lemma single_flight_quiet st st' :
  pipeline_state st' = pipeline_state st -> single_flight st -> single_flight st'.
Proof.
  unfold pipeline_state, single_flight, idle, pending.
  intros [= -> -> -> -> -> ->]. done.
Qed.

Lemma quiet_select_all : quiet (select_all_suggestions (FS := FS)).
Proof. done. Qed.

Lemma quiet_deliver result : quiet (deliver (FS := FS) result).
Proof.
  intros st. destruct result as [result|e]; simpl.
  - rewrite quiet_clear, quiet_select_all.
    by rewrite (quiet_fold (suggest_entry result) _ (quiet_suggest_entry result)).
  - by rewrite quiet_log.
Qed.

Lemma check_ai_thread_drain st result rest :
  snd (result_queue st) = result :: rest ->
  _check_ai_thread st =
  set_apply_button NORMAL
    (set_suggestions_button NORMAL
       (set_status_label ""
          (deliver result
             (log_effect (queue_get result)
                (set_result_queue (fst (result_queue st), rest) st))))).
Proof. intros E. unfold _check_ai_thread. rewrite E. by destruct result. Qed.

Lemma check_ai_thread_empty st :
  snd (result_queue st) = [] ->
  _check_ai_thread st = set_timers (S (timers st)) st.
Proof. intros E. unfold _check_ai_thread. by rewrite E. Qed.

Lemma drained_state st result rest :
  snd (result_queue st) = result :: rest ->
  pipeline_state (_check_ai_thread st)
  = (NORMAL, workers st, (fst (result_queue st), rest), timers st,
     issued_count st, S (drained_count st)).
Proof.
  intros E. rewrite (check_ai_thread_drain st result rest E).
  set (st1 := log_effect _ _).
  pose proof (quiet_deliver result st1) as Hq.
  change (pipeline_state _) with
    (NORMAL, workers (deliver result st1), result_queue (deliver result st1),
     timers (deliver result st1), issued_count (deliver result st1),
     drained_count (deliver result st1)).
  unfold pipeline_state in Hq. injection Hq as _ -> -> -> -> ->.
  subst st1. unfold issued_count, drained_count. simpl.
  rewrite !List.filter_app. simpl. rewrite !length_app. simpl.
  repeat f_equal; lia.
Qed.

Lemma issued_state st :
  selected_items st ≠ [] ->
  pipeline_state (get_ai_suggestions st)
  = (DISABLED, workers st ++ [S (fst (result_queue st))],
     (S (fst (result_queue st)), []), S (timers st),
     S (issued_count st), drained_count st).
Proof.
  intros Hsel. unfold get_ai_suggestions.
  destruct (selected_items st) as [|entry entries] eqn:E; [done|].
  rewrite check_ai_thread_empty by done.
  unfold pipeline_state, issued_count, drained_count. simpl.
  rewrite !List.filter_app. simpl. rewrite !length_app. simpl.
  repeat f_equal; lia.
Qed.

Lemma not_issued_state st :
  selected_items st = [] ->
  pipeline_state (get_ai_suggestions st) = pipeline_state st.
Proof.
  intros Hsel. unfold get_ai_suggestions. rewrite Hsel. by rewrite quiet_log.
Qed.

Lemma single_flight_step st e : single_flight st -> single_flight (step e st).
Proof.
  intros Hsf.
  destruct e; cbn [step];
    try (eapply single_flight_quiet; [|exact Hsf];
         first [ apply quiet_click | apply quiet_select_contents
               | apply quiet_on_folder_expanded | apply quiet_remove_selected_item
               | apply quiet_reject | apply quiet_add_tree_item
               | apply quiet_remove_tree_item | done ]).
  - eapply single_flight_quiet; [|exact Hsf]. cbn [select_tree_item].
    by rewrite quiet_add_tree_item.
  - eapply single_flight_quiet; [|exact Hsf]. cbn [deselect_tree_item].
    by rewrite quiet_remove_tree_item.
  - eapply single_flight_quiet; [|exact Hsf].
    by rewrite quiet_on_folder_expanded.
  - (* click_get_suggestions *)
    case_bool_decide as Hb; [|done].
    destruct (decide (selected_items st = [])) as [Hsel|Hsel].
    { eapply single_flight_quiet; [by apply not_issued_state|done]. }
    pose proof (issued_state st Hsel) as Hst.
    destruct Hsf as (Hcount & [(_ & Hw & Hq & Ht)|(Hd & _)]); [|congruence].
    unfold pipeline_state in Hst. injection Hst as Hb' Hw' Hq' Ht' Hi' Hd'.
    unfold single_flight, idle, pending in *.
    rewrite Hb', Hw', Hq', Ht', Hi', Hd'. rewrite Hw, Hq, Ht in *. simpl in *.
    split; [lia|]. right. eauto.
  - (* click_apply *)
    case_bool_decide; [|done].
    eapply single_flight_quiet; [apply quiet_apply|done].
  - (* worker_done *)
    case_bool_decide as Hin; [|done].
    destruct Hsf as (Hcount & [(_ & Hw & _)|(Hd & Ht & [(Hw & Hq)|(Hw & _)])]).
    + rewrite Hw in Hin. by apply elem_of_nil in Hin.
    + rewrite Hw in Hin. apply list_elem_of_singleton in Hin as ->.
      unfold single_flight, idle, pending, issued_count, drained_count in *.
      simpl. rewrite Hw, Hq in *. simpl. rewrite Nat.eqb_refl. simpl.
      split; [done|]. right. split_and!; [done..|]. right. eauto.
    + rewrite Hw in Hin. by apply elem_of_nil in Hin.
  - (* timer_fired *)
    destruct (timers st) as [|n] eqn:Ht; [done|].
    destruct Hsf as (Hcount & [(_ & _ & _ & Ht')|(Hd & Ht' & Hcase)]);
      [congruence|].
    assert (n = 0) as -> by congruence.
    destruct Hcase as [(Hw & Hq)|(Hw & o & Hq)].
    + rewrite check_ai_thread_empty by done.
      unfold single_flight, idle, pending, issued_count, drained_count in *.
      simpl. split; [done|]. right. eauto.
    + pose proof (drained_state (set_timers 0 st) o [] Hq) as Hst.
      unfold pipeline_state in Hst. injection Hst as Hb' Hw' Hq' Ht'' Hi' Hd'.
      unfold single_flight, idle, pending in *.
      rewrite Hb', Hw', Hq', Ht'', Hi', Hd'.
      unfold issued_count, drained_count in *.
      simpl in *. rewrite Hw, Hq in *. simpl in *. split; [lia|]. by left.
Qed.

Lemma single_flight_run events st :
  single_flight st -> single_flight (run events st).
Proof.
  revert st. induction events as [|e events IH]; intros st Hsf; [done|].
  simpl. by apply IH, single_flight_step.
Qed.

(** C5.  From a session with no request outstanding, whatever the user, the
    worker and the timer do:
    - at most one request is outstanding (its worker runs, or its outcome
      waits in the queue);
    - while one is, the button is disabled and a click on it does nothing;
    - the outcomes drained and the request outstanding add up to the
      requests issued, so no request is drained twice;
    - when none is, the session is idle, with the button enabled;
    - when the timer finds an outcome, be it a result or an error, it
      drains this one outcome and the session is idle again. *)
Theorem single_flight_pipeline st0 events :
  idle st0 -> issued_count st0 = drained_count st0 ->
  let st := run events st0 in
  pending st ≤ 1
  ∧ (pending st = 1 ->
     suggestions_button st = DISABLED ∧ step click_get_suggestions st = st)
  ∧ issued_count st = drained_count st + pending st
  ∧ (pending st = 0 -> idle st)
  ∧ (∀ o, snd (result_queue st) = [o] ->
     idle (step timer_fired st)
     ∧ drained_count (step timer_fired st) = S (drained_count st)
     ∧ issued_count (step timer_fired st) = issued_count st).
Proof.
  intros Hidle Hcount st.
  assert (single_flight st) as Hsf.
  { apply single_flight_run. split; [|by left].
    destruct Hidle as (_ & Hw & Hq & _). unfold pending. rewrite Hw, Hq.
    simpl. lia. }
  pose proof (single_flight_step st timer_fired Hsf) as Hsf'.
  destruct Hsf as (Hc & [Hi|(Hd & Ht & Hcase)]).
  - pose proof Hi as (Hb & Hw & Hq & Ht). unfold pending. rewrite Hw, Hq. simpl.
    split_and!; [lia|done|by rewrite Hc; unfold pending; rewrite Hw, Hq|done|].
    intros o Ho. congruence.
  - assert (pending st = 1) as Hp.
    { unfold pending. destruct Hcase as [(-> & ->)|(-> & o & ->)]; done. }
    split_and!; [lia| |done|by rewrite Hp|].
    + intros _. split; [done|]. cbn [step].
      by rewrite bool_decide_eq_false_2 by (by rewrite Hd).
    + intros o Ho. cbn [step] in *. rewrite Ht in *.
      pose proof (drained_state (set_timers 0 st) o [] Ho) as Hst.
      unfold pipeline_state in Hst. injection Hst as Hb Hw Hq Ht' Hi' Hd'.
      destruct Hcase as [(_ & Hq')|(Hw' & _)]; [congruence|].
      split_and!; [|done..]. unfold idle. rewrite Hb, Hw, Hq, Ht'. done.
Qed.

End SingleFlight.

Section Delivery.
Context {FS : Type} `{!Filesystem FS} `{!Runtime}.
Implicit Types st : app FS.

Lemma suggest_entry_keeps result entry st :
  selected_items (suggest_entry result entry st) = selected_items st
  ∧ dir_tree (suggest_entry result entry st) = dir_tree st
  ∧ items_tree (suggest_entry result entry st) = items_tree st
  ∧ log (suggest_entry result entry st) = log st
  ∧ fs (suggest_entry result entry st) = fs st.
Proof. unfold suggest_entry. by repeat case_match. Qed.

Lemma suggest_entry_suggests result entry st name v :
  result !! name = Some v ->
  suggests st name v ∨ basename (fst entry) = name ->
  suggests (suggest_entry result entry st) name v.
Proof.
  intros Hv Hor. unfold suggest_entry. destruct entry as [path is_folder].
  simpl in Hor.
  destruct (result !! basename path) as [v'|] eqn:Hres.
  - unfold suggests. simpl.
    destruct (decide (basename path = name)) as [E|E].
    + rewrite E in *. simplify_eq. rewrite lookup_insert_eq. split; [done|].
      eexists. split; [apply elem_of_app; right; apply list_elem_of_here|done].
    + destruct Hor as [(Hd & r & Hr & Ho & Hs)|?]; [|done].
      rewrite lookup_insert_ne by done. split; [done|].
      exists r. split; [|done]. apply elem_of_app. left.
      apply remove_first_keeps; [done|]. apply reads_as_other. congruence.
  - destruct Hor as [?|E]; [done|]. rewrite E in Hres. congruence.
Qed.

Lemma suggest_all_suggests result entries st name v :
  result !! name = Some v ->
  suggests st name v ∨ (∃ entry, entry ∈ entries ∧ basename (fst entry) = name) ->
  suggests (suggest_all result entries st) name v.
Proof.
  intros Hv. revert st. induction entries as [|e entries IH]; intros st Hor.
  - destruct Hor as [?|(e & He & _)]; [done|]. by apply elem_of_nil in He.
  - simpl. apply IH. destruct Hor as [?|(e' & He' & Hn)].
    + left. apply suggest_entry_suggests; auto.
    + apply elem_of_cons in He' as [->|He'].
      * left. apply suggest_entry_suggests; auto.
      * right. eauto.
Qed.

Lemma suggest_entry_NoDup result entry st :
  NoDup (text_names (results_tree st)) ->
  NoDup (text_names (results_tree (suggest_entry result entry st))).
Proof.
  intros Hnd. unfold suggest_entry. destruct entry as [path is_folder].
  destruct (result !! basename path) as [v|]; [|done]. simpl.
  destruct (remove_first_text_names (basename path) _ Hnd) as [H1 H2].
  rewrite text_names_app, text_names_cons. simpl.
  destruct (decide _); [|by rewrite app_nil_r].
  apply NoDup_app. split_and!; [done| |].
  - intros n Hn ?%list_elem_of_singleton. by subst.
  - apply NoDup_singleton.
Qed.

Lemma suggest_all_NoDup result entries st :
  NoDup (text_names (results_tree st)) ->
  NoDup (text_names (results_tree (suggest_all result entries st))).
Proof.
  revert st. induction entries as [|e entries IH]; intros st Hnd; [done|].
  simpl. by apply IH, suggest_entry_NoDup.
Qed.

(** A row whose original name is read as a number is never replaced. *)
Lemma suggest_entry_number result entry st r :
  r ∈ results_tree st -> int_of_str (Original r) ≠ None ->
  r ∈ results_tree (suggest_entry result entry st).
Proof.
  intros Hr Hn. unfold suggest_entry. destruct entry as [path is_folder].
  destruct (result !! basename path) as [v|]; [|done]. simpl.
  apply elem_of_app. left. apply remove_first_keeps; [done|].
  by apply reads_as_number.
Qed.

Lemma suggest_all_number result entries st r :
  r ∈ results_tree st -> int_of_str (Original r) ≠ None ->
  r ∈ results_tree (suggest_all result entries st).
Proof.
  revert st. induction entries as [|e entries IH]; intros st Hr Hn; [done|].
  simpl. apply IH; [|done]. by apply suggest_entry_number.
Qed.

Lemma suggest_all_origin result entries st r :
  r ∈ results_tree (suggest_all result entries st) ->
  row_origin result entries (results_tree st) r.
Proof.
  revert st. induction entries as [|e entries IH]; intros st Hr.
  - by left.
  - simpl in Hr. destruct (IH _ Hr) as [Hb|(p & f & Hin & Ho & Hs & Hk)].
    + unfold suggest_entry in Hb. destruct e as [path is_folder].
      destruct (result !! basename path) as [v|] eqn:Hres; [|by left].
      simpl in Hb. apply elem_of_app in Hb as [Hb|Hb].
      * left. by eapply remove_first_elem_of.
      * apply list_elem_of_singleton in Hb as ->. right.
        exists path, is_folder. split_and!; [apply list_elem_of_here|done..].
    + right. exists p, f. split_and!; [by apply list_elem_of_further|done..].
Qed.

Lemma suggest_all_keeps result entries st :
  selected_items (suggest_all result entries st) = selected_items st
  ∧ dir_tree (suggest_all result entries st) = dir_tree st
  ∧ items_tree (suggest_all result entries st) = items_tree st
  ∧ log (suggest_all result entries st) = log st
  ∧ fs (suggest_all result entries st) = fs st.
Proof.
  revert st. induction entries as [|e entries IH]; intros st; [done|]. simpl.
  destruct (IH (suggest_entry result e st)) as (-> & -> & -> & -> & ->).
  apply suggest_entry_keeps.
Qed.

Lemma deliver_success st result :
  let st1 := suggest_all result (selected_items st) st in
  selected_items (deliver (Success result) st) = []
  ∧ items_tree (deliver (Success result) st) = []
  ∧ dir_tree (deliver (Success result) st)
    = update_node_and_children Unchecked (dir_tree st)
  ∧ results_tree (deliver (Success result) st) = map select_row (results_tree st1)
  ∧ rename_suggestions (deliver (Success result) st) = rename_suggestions st1
  ∧ log (deliver (Success result) st) = log st.
Proof.
  intros st1. unfold deliver, clear_selection, update_all_dir_tree_checkboxes,
    select_all_suggestions. simpl. fold (suggest_all result (selected_items st) st).
  fold st1. destruct (suggest_all_keeps result (selected_items st) st)
    as (_ & Ht & _ & Hl & _). fold st1 in Ht, Hl. by rewrite Ht, Hl.
Qed.

(** C1, as amended.  When the poll takes a successful result from the
    queue:
    - every entry of the selection whose basename is a key of the result
      gets a row that maps the basename to the suggested name, selected,
      and the same pair in [rename_suggestions];
    - every row is such a row or was in the table before; a table without
      two rows for one name that is read as text stays so, while a row
      whose original name is read as a number, as ["2024"] is, is never
      replaced: it stays, beside the new row for its name;
    - the selection is then cleared entirely: no entry stays selected,
      whether its basename was a key of the result or not, and no item of
      the tree stays checked. *)
Theorem completed_request_clears_selection st result rest :
  snd (result_queue st) = Success result :: rest ->
  let st' := _check_ai_thread st in
  (∀ path is_folder v,
     (path, is_folder) ∈ selected_items st ->
     result !! basename path = Some v ->
     rename_suggestions st' !! basename path = Some v
     ∧ ∃ r, r ∈ results_tree st' ∧ Original r = basename path
            ∧ Suggested r = v ∧ in_selection r = true)
  ∧ (∀ r, r ∈ results_tree st' ->
       in_selection r = true
       ∧ ∃ r0, Original r0 = Original r ∧ Suggested r0 = Suggested r
               ∧ row_type r0 = row_type r
               ∧ row_origin result (selected_items st) (results_tree st) r0)
  ∧ (NoDup (text_names (results_tree st)) ->
     NoDup (text_names (results_tree st')))
  ∧ (∀ r, r ∈ results_tree st -> int_of_str (Original r) ≠ None ->
       select_row r ∈ results_tree st')
  ∧ selected_items st' = [] ∧ items_tree st' = []
  ∧ (∀ i it, tree_item (dir_tree st') i = Some it -> selected it = Unchecked)
  ∧ suggestions_button st' = NORMAL.
Proof.
  intros Hq st'. subst st'. rewrite (check_ai_thread_drain st _ rest Hq).
  set (st0 := log_effect _ _).
  destruct (deliver_success st0 result) as (Hsel & Hitems & Htree & Hrows & Hdict & _).
  cbn [selected_items items_tree dir_tree results_tree rename_suggestions
       suggestions_button set_apply_button set_suggestions_button
       set_status_label].
  rewrite Hsel, Hitems, Htree, Hrows, Hdict.
  change (selected_items st0) with (selected_items st).
  change (results_tree st0) with (results_tree st).
  split_and!; [| | | |done|done| |done].
  - intros path is_folder v Hin Hv.
    destruct (suggest_all_suggests result (selected_items st) st0 (basename path) v Hv)
      as (Hd & r & Hr & Ho & Hs).
    { right. by exists (path, is_folder). }
    split; [done|]. exists (select_row r). split_and!; [|done..].
    apply list_elem_of_fmap. eauto.
  - intros r (r0 & -> & Hr0)%list_elem_of_fmap. split; [done|].
    exists r0. split_and!; [done..|].
    by apply (suggest_all_origin result (selected_items st) st0).
  - intros Hnd.
    pose proof (suggest_all_NoDup result (selected_items st) st0 Hnd) as Hnd'.
    unfold text_names in *. by rewrite <-list_fmap_compose.
  - intros r Hr Hn. apply list_elem_of_fmap. exists r. split; [done|].
    by apply (suggest_all_number result (selected_items st) st0).
  - intros i it. rewrite tree_item_update_node.
    destruct (tree_item (dir_tree st0) i); intros [= <-].
    apply update_node_selected.
Qed.

Lemma get_ai_suggestions_issued st :
  selected_items st ≠ [] ->
  let q := S (fst (result_queue st)) in
  workers (get_ai_suggestions st) = workers st ++ [q]
  ∧ result_queue (get_ai_suggestions st) = (q, [])
  ∧ timers (get_ai_suggestions st) = S (timers st)
  ∧ selected_items (get_ai_suggestions st) = selected_items st
  ∧ log (get_ai_suggestions st)
    = log st ++ [thread_start (Request (model_var st) (prompt_of st)) q].
Proof.
  intros Hsel q. unfold get_ai_suggestions.
  destruct (selected_items st) as [|entry entries] eqn:E; [done|].
  rewrite check_ai_thread_empty by done. simpl. rewrite E.
  split_and!; done.
Qed.

(** C7.  When the poll takes an error from the queue, it shows the error
    and re-enables the buttons, and changes neither the selection, nor the
    tree, nor the table.  A whole request that fails (the click, the
    worker's error, the poll) leaves the selection as it was before the
    click. *)
Theorem failed_request_keeps_selection :
  (∀ st e rest,
     snd (result_queue st) = Raised e :: rest ->
     let st' := _check_ai_thread st in
     selected_items st' = selected_items st
     ∧ dir_tree st' = dir_tree st ∧ items_tree st' = items_tree st
     ∧ results_tree st' = results_tree st
     ∧ rename_suggestions st' = rename_suggestions st
     ∧ log st' = log st
         ++ [queue_get (Raised e);
             showerror "Error" ("Failed to get AI suggestions: " +:+ str_exn e)]
     ∧ suggestions_button st' = NORMAL)
  ∧ (∀ st reply e,
       suggestions_button st = NORMAL -> selected_items st ≠ [] ->
       _run_ai_request_thread reply = Raised e ->
       let q := S (fst (result_queue st)) in
       let st' := run [click_get_suggestions; worker_done q reply; timer_fired] st in
       selected_items st' = selected_items st
       ∧ log st' = log st
           ++ [thread_start (Request (model_var st) (prompt_of st)) q;
               queue_get (Raised e);
               showerror "Error" ("Failed to get AI suggestions: " +:+ str_exn e)]
       ∧ suggestions_button st' = NORMAL).
Proof.
  split.
  - intros st e rest Hq st'. subst st'.
    rewrite (check_ai_thread_drain st _ rest Hq). simpl.
    by rewrite <-app_assoc.
  - intros st reply e Hb Hsel Hreply q st'. subst st'.
    unfold run. cbn [fold_left step].
    rewrite (bool_decide_eq_true_2 (suggestions_button st = NORMAL)) by done.
    destruct (get_ai_suggestions_issued st Hsel)
      as (Hw & Hq & Ht & Hs & Hl). fold q in Hw, Hq, Hl.
    set (st1 := get_ai_suggestions st) in *.
    rewrite bool_decide_eq_true_2
      by (rewrite Hw; apply elem_of_app; right; apply list_elem_of_here).
    cbn [result_queue set_workers fst snd]. rewrite Hq. cbn [fst snd].
    rewrite Nat.eqb_refl, Hreply.
    cbn [timers set_result_queue set_workers]. rewrite Ht.
    rewrite (check_ai_thread_drain _ (Raised e) []) by done.
    simpl. rewrite Hs, Hl. split_and!; [done| |done].
    by rewrite <-!app_assoc.
Qed.

End Delivery.

(** ** Siblings *)

Lemma rsplit_name n : no_sep n = true -> rsplit_sep n = ("", n).
Proof.
  induction n as [|c n IH]; [done|]. simpl.
  intros [Hc Hn]%andb_true_iff. rewrite (IH Hn).
  apply negb_true_iff in Hc. by rewrite Hc.
Qed.

Lemma rsplit_app_name x n :
  no_sep n = true ->
  rsplit_sep (x +:+ n) = (fst (rsplit_sep x), snd (rsplit_sep x) +:+ n).
Proof.
  intros Hn. induction x as [|c x IH].
  - simpl. by rewrite rsplit_name.
  - rewrite sapp_cons. simpl. rewrite IH.
    destruct (rsplit_sep x) as [h t]. simpl.
    destruct h; [|done]. by destruct (Ascii.eqb c sep).
Qed.

Lemma rsplit_endswith x :
  endswith_sep x = true -> rsplit_sep x = (x, "").
Proof.
  induction x as [|c x IH]; [done|]. simpl. destruct x as [|d x].
  - intros ->. done.
  - intros H. rewrite (IH H). done.
Qed.

Lemma with_sep_shape p : with_sep p = "" ∨ endswith_sep (with_sep p) = true.
Proof.
  unfold with_sep. destruct (String.eqb p "") eqn:E; simpl.
  - left. by apply String.eqb_eq.
  - destruct (endswith_sep p) eqn:E'; [by right|]. right.
    by rewrite endswith_sep_app.
Qed.

Lemma rsplit_join d n :
  is_name n = true -> rsplit_sep (join d n) = (with_sep d, n).
Proof.
  intros Hn. rewrite (join_name d n Hn).
  apply is_name_spec in Hn as [_ Hn]. rewrite (rsplit_app_name _ _ Hn).
  destruct (with_sep_shape d) as [->|E]; [done|].
  by rewrite (rsplit_endswith _ E).
Qed.

Lemma basename_join d n : is_name n = true -> basename (join d n) = n.
Proof. intros Hn. unfold basename. by rewrite rsplit_join. Qed.








(** The basename of a joined path is the basename of what was joined. *)
Lemma rsplit_after_sep x b :
  fst (rsplit_sep (x +:+ "/" +:+ b)) ≠ ""
  ∧ snd (rsplit_sep (x +:+ "/" +:+ b)) = snd (rsplit_sep b).
Proof.
  induction x as [|c x [IH1 IH2]].
  - rewrite sapp_nil_l, sapp_cons, sapp_nil_l. simpl.
    destruct (rsplit_sep b) as [h t]. by destruct h.
  - rewrite sapp_cons. simpl.
    destruct (rsplit_sep (x +:+ "/" +:+ b)) as [h t]. simpl in *.
    by destruct h.
Qed.

Lemma endswith_sep_snoc d : endswith_sep d = true -> ∃ x, d = x +:+ "/".
Proof.
  induction d as [|c d IH]; [done|]. simpl. destruct d as [|c' d].
  - intros ->%Ascii.eqb_eq. by exists "".
  - intros [x ->]%IH. by exists (String c x).
Qed.

Lemma basename_join_any d s : basename (join d s) = basename s.
Proof.
  unfold join. destruct (startswith_sep s); [done|].
  destruct (String.eqb d "") eqn:Ed; simpl.
  { by apply String.eqb_eq in Ed as ->. }
  destruct (endswith_sep d) eqn:Es.
  - apply endswith_sep_snoc in Es as [x ->]. rewrite sapp_assoc.
    apply rsplit_after_sep.
  - apply rsplit_after_sep.
Qed.

Section Table.
Context {FS : Type} `{!Filesystem FS} `{!Runtime}.
Implicit Types st : app FS.

(** ** Rejecting *)

Lemma resolve_selected name l p f :
  resolve name l = Some (p, f) -> path_selected p l = true.
Proof.
  intros Hr. apply find_some in Hr as [Hin _]. apply path_selected_spec.
  unfold paths. apply list_elem_of_fmap. exists (p, f).
  split; [done|by apply list_elem_of_In].
Qed.

Lemma reject_row_keeps r st :
  selected_items (reject_row r st) = selected_items st
  ∧ dir_tree (reject_row r st) = dir_tree st
  ∧ items_tree (reject_row r st) = items_tree st.
Proof.
  unfold reject_row.
  destruct (_convert_stringval (Original r)) as [name|k]; [|done].
  cbn [cell_in]. case_bool_decide; [|done]. rewrite resolve_cell_text.
  destruct (resolve name (selected_items st)) as [[p f]|] eqn:Hr; [|done].
  by rewrite (resolve_selected _ _ _ _ Hr).
Qed.

Lemma reject_rows_keep rows st :
  selected_items (fold_left (fun st r => reject_row r st) rows st)
  = selected_items st
  ∧ dir_tree (fold_left (fun st r => reject_row r st) rows st) = dir_tree st
  ∧ items_tree (fold_left (fun st r => reject_row r st) rows st) = items_tree st.
Proof.
  revert st. induction rows as [|r rows IH]; intros st; [done|]. simpl.
  destruct (IH (reject_row r st)) as (-> & -> & ->). apply reject_row_keeps.
Qed.

Lemma reject_keeps st :
  selected_items (reject_selected_suggestions st) = selected_items st
  ∧ dir_tree (reject_selected_suggestions st) = dir_tree st
  ∧ items_tree (reject_selected_suggestions st) = items_tree st.
Proof.
  unfold reject_selected_suggestions.
  destruct (filter _ _) as [|r rows]; [done|]. apply reject_rows_keep.
Qed.

(** ** Applying *)

(** The four ways of a row: it is passed over, it is renamed, its rename
    fails, or [os.path.join] refuses its new name. *)
Lemma apply_row_equal r acc :
  cell_eqb (_convert_stringval (Original r)) (_convert_stringval (Suggested r))
  = true ->
  apply_row r acc = acc.
Proof. intros E. destruct acc as [[st n] e]. unfold apply_row. by rewrite E. Qed.

Lemma apply_row_same r acc : Original r = Suggested r -> apply_row r acc = acc.
Proof. intros E. apply apply_row_equal. rewrite E. by apply cell_eqb_eq. Qed.

Lemma apply_row_unresolved r st n e :
  resolve_cell (_convert_stringval (Original r)) (selected_items st) = None ->
  apply_row r (st, n, e) = (st, n, e).
Proof. intros E. unfold apply_row. rewrite E. by case_match. Qed.

Lemma apply_row_number r st n e :
  int_of_str (Original r) ≠ None -> apply_row r (st, n, e) = (st, n, e).
Proof.
  intros Hk. apply apply_row_unresolved. unfold _convert_stringval.
  destruct (int_of_str (Original r)); [|done]. apply resolve_cell_number.
Qed.

Lemma apply_row_renamed r st n e p f disk :
  int_of_str (Original r) = None -> int_of_str (Suggested r) = None ->
  Original r ≠ Suggested r ->
  resolve (Original r) (selected_items st) = Some (p, f) -> p ≠ "" ->
  os_rename (fs st) p (join (dirname p) (Suggested r)) = inr disk ->
  apply_row r (st, n, e)
  = (set_selected_items
       (replace_first (p, f) (join (dirname p) (Suggested r), f)
          (selected_items st))
       (log_effect (rename_call p (join (dirname p) (Suggested r)) None)
          (set_fs disk st)),
     S n, e).
Proof.
  intros Ho Hs Hne Hr Hp Hren. unfold apply_row.
  rewrite (convert_as_text _ Ho), (convert_as_text _ Hs), resolve_cell_text.
  cbn [cell_eqb]. apply String.eqb_neq in Hne, Hp. by rewrite Hne, Hr, Hp, Hren.
Qed.

Lemma apply_row_failed r st n e p f err :
  int_of_str (Original r) = None -> int_of_str (Suggested r) = None ->
  Original r ≠ Suggested r ->
  resolve (Original r) (selected_items st) = Some (p, f) -> p ≠ "" ->
  os_rename (fs st) p (join (dirname p) (Suggested r)) = inl err ->
  apply_row r (st, n, e)
  = (log_effect
       (showerror "Error"
          ("Failed to rename " +:+ Original r +:+ ": " +:+ str_exn err))
       (log_effect (rename_call p (join (dirname p) (Suggested r)) (Some err)) st),
     n, S e).
Proof.
  intros Ho Hs Hne Hr Hp Hren. unfold apply_row.
  rewrite (convert_as_text _ Ho), (convert_as_text _ Hs), resolve_cell_text.
  cbn [cell_eqb]. apply String.eqb_neq in Hne, Hp. by rewrite Hne, Hr, Hp, Hren.
Qed.

Lemma apply_row_refused r st n e p f k :
  int_of_str (Original r) = None -> int_of_str (Suggested r) = Some k ->
  resolve (Original r) (selected_items st) = Some (p, f) -> p ≠ "" ->
  apply_row r (st, n, e)
  = (log_effect
       (showerror "Error"
          ("Failed to rename " +:+ Original r +:+ ": "
           +:+ str_exn (raised_on "join" (JNumber (pretty k))))) st,
     n, S e).
Proof.
  intros Ho Hs Hr Hp. unfold apply_row.
  rewrite (convert_as_text _ Ho), (convert_as_number _ _ Hs), resolve_cell_text.
  cbn [cell_eqb]. apply String.eqb_neq in Hp. by rewrite Hr, Hp.
Qed.

Lemma resolve_basename name l p f :
  resolve name l = Some (p, f) -> basename p = name.
Proof. intros Hr. apply find_some in Hr as [_ E]. by apply String.eqb_eq. Qed.

Lemma resolve_None name l :
  resolve name l = None
  <-> name ∉ map (fun entry : string * bool => basename (fst entry)) l.
Proof.
  unfold resolve. induction l as [|x l IH]; simpl.
  - split; [intros _; apply not_elem_of_nil|done].
  - rewrite not_elem_of_cons. destruct (String.eqb (basename x.1) name) eqn:E.
    + apply String.eqb_eq in E. split; [done|]. by intros [? _].
    + apply String.eqb_neq in E. rewrite IH. split; [by split|by intros [_ ?]].
Qed.

(** The cases of a row, for the proofs that go through all of them. *)
Lemma apply_row_cases r st n e :
  apply_row r (st, n, e) = (st, n, e)
  ∨ (∃ p f disk,
       int_of_str (Original r) = None ∧ int_of_str (Suggested r) = None
       ∧ Original r ≠ Suggested r
       ∧ resolve (Original r) (selected_items st) = Some (p, f) ∧ p ≠ ""
       ∧ os_rename (fs st) p (join (dirname p) (Suggested r)) = inr disk)
  ∨ (∃ p f err,
       int_of_str (Original r) = None ∧ int_of_str (Suggested r) = None
       ∧ Original r ≠ Suggested r
       ∧ resolve (Original r) (selected_items st) = Some (p, f) ∧ p ≠ ""
       ∧ os_rename (fs st) p (join (dirname p) (Suggested r)) = inl err)
  ∨ (∃ p f k,
       int_of_str (Original r) = None ∧ int_of_str (Suggested r) = Some k
       ∧ resolve (Original r) (selected_items st) = Some (p, f) ∧ p ≠ "").
Proof.
  destruct (int_of_str (Original r)) as [k|] eqn:Ho.
  { left. apply apply_row_number. by rewrite Ho. }
  destruct (resolve (Original r) (selected_items st)) as [[p f]|] eqn:Hr.
  2:{ left. apply apply_row_unresolved.
      by rewrite (convert_as_text _ Ho), resolve_cell_text. }
  destruct (decide (p = "")) as [->|Hp].
  { left. unfold apply_row.
    rewrite (convert_as_text _ Ho), resolve_cell_text, Hr. by case_match. }
  destruct (int_of_str (Suggested r)) as [k|] eqn:Hs.
  { right. right. right. by exists p, f, k. }
  destruct (decide (Original r = Suggested r)) as [E|Hne].
  { left. by apply apply_row_same. }
  destruct (os_rename (fs st) p (join (dirname p) (Suggested r)))
    as [err|disk] eqn:Hren.
  - right. right. left. by exists p, f, err.
  - right. left. by exists p, f, disk.
Qed.

(** One row appends to the log a piece that [batch_log] describes and
    counts it. *)
Lemma apply_row_log r st n e :
  ∃ new n1 e1,
    log (apply_row r (st, n, e)).1.1 = log st ++ new
    ∧ (apply_row r (st, n, e)).1.2 = n + n1
    ∧ (apply_row r (st, n, e)).2 = e + e1
    ∧ batch_log new n1 e1
    ∧ Forall (rename_of_row [r]) new.
Proof.
  destruct (apply_row_cases r st n e)
    as [E|[(p & f & disk & Ho & Hs & Hne & Hr & Hp & Hren)
          |[(p & f & err & Ho & Hs & Hne & Hr & Hp & Hren)
           |(p & f & k & Ho & Hs & Hr & Hp)]]].
  - rewrite E. exists [], 0, 0. simpl. rewrite app_nil_r, !Nat.add_0_r.
    split_and!; [done..|constructor|constructor].
  - rewrite (apply_row_renamed r st n e p f disk) by done.
    eexists [_], 1, 0. simpl. rewrite Nat.add_0_r.
    split_and!; [done|lia|done| |].
    + repeat constructor.
    + repeat constructor. exists r.
      split_and!; [apply list_elem_of_here|done|by eapply resolve_basename|done].
  - rewrite (apply_row_failed r st n e p f err) by done.
    eexists [_; _], 0, 1. simpl. rewrite <-app_assoc, Nat.add_0_r. simpl.
    split_and!; [done|done|lia| |].
    + apply (batch_failed _ _ _ (Original r)). constructor.
    + repeat constructor. exists r.
      split_and!; [apply list_elem_of_here|done|by eapply resolve_basename|done].
  - rewrite (apply_row_refused r st n e p f k) by done.
    eexists [_], 0, 1. simpl. rewrite Nat.add_0_r.
    split_and!; [done|done|lia| |].
    + apply (batch_refused _ (Original r)). constructor.
    + repeat constructor.
Qed.

Lemma apply_rows_cons r rows (acc : app FS * nat * nat) :
  apply_rows (r :: rows) acc = apply_rows rows (apply_row r acc).
Proof. done. Qed.

Lemma apply_rows_app rows1 rows2 (acc : app FS * nat * nat) :
  apply_rows (rows1 ++ rows2) acc = apply_rows rows2 (apply_rows rows1 acc).
Proof. unfold apply_rows. by rewrite fold_left_app. Qed.

Lemma batch_log_app l1 n1 e1 l2 n2 e2 :
  batch_log l1 n1 e1 -> batch_log l2 n2 e2 ->
  batch_log (l1 ++ l2) (n1 + n2) (e1 + e2).
Proof.
  intros H1 H2. induction H1; simpl; [done|..]; by constructor.
Qed.

Lemma rename_of_row_mono rows rows' ef :
  rows ⊆ rows' -> rename_of_row rows ef -> rename_of_row rows' ef.
Proof.
  intros Hsub. destruct ef; simpl; try done.
  intros (r & Hr & ?). exists r. split; [by apply Hsub|done].
Qed.

Lemma apply_rows_log rows st n e :
  ∃ new n1 e1,
    log (apply_rows rows (st, n, e)).1.1 = log st ++ new
    ∧ (apply_rows rows (st, n, e)).1.2 = n + n1
    ∧ (apply_rows rows (st, n, e)).2 = e + e1
    ∧ batch_log new n1 e1
    ∧ Forall (rename_of_row rows) new.
Proof.
  revert st n e. induction rows as [|r rows IH]; intros st n e.
  { exists [], 0, 0. simpl. rewrite app_nil_r, !Nat.add_0_r.
    split_and!; [done..|constructor|constructor]. }
  rewrite apply_rows_cons.
  destruct (apply_row_log r st n e) as (new1 & n1 & e1 & Hl1 & Hn1 & He1 & Hb1 & Hf1).
  destruct (apply_row r (st, n, e)) as [[st1 n'] e']. simpl in Hl1, Hn1, He1.
  subst n' e'.
  destruct (IH st1 (n + n1) (e + e1)) as (new2 & n2 & e2 & Hl2 & Hn2 & He2 & Hb2 & Hf2).
  exists (new1 ++ new2), (n1 + n2), (e1 + e2).
  rewrite Hl2, Hl1, Hn2, He2, <-app_assoc.
  split_and!; [done|lia|lia|by apply batch_log_app|].
  apply Forall_app. split.
  - eapply Forall_impl; [exact Hf1|]. intros ef. apply rename_of_row_mono.
    intros x ->%list_elem_of_singleton. apply list_elem_of_here.
  - eapply Forall_impl; [exact Hf2|]. intros ef. apply rename_of_row_mono.
    intros x Hx. by apply list_elem_of_further.
Qed.



(** The names of the selection after a batch: those it had, and the
    basenames of the new names of the rows. *)
Lemma replace_first_names (x y : string * bool) l b :
  b ∈ map (fun entry : string * bool => basename (fst entry)) (replace_first x y l) ->
  b ∈ map (fun entry : string * bool => basename (fst entry)) l
  ∨ b = basename (fst y).
Proof.
  induction l as [|z l IH]; simpl; [by left|]. destruct (decide (z = x)).
  - simpl. rewrite !elem_of_cons. intros [->|?]; [by right|by left; right].
  - simpl. rewrite !elem_of_cons. intros [->|Hb]; [by left; left|].
    destruct (IH Hb); [by left; right|by right].
Qed.

Lemma apply_row_names r st n e b :
  b ∈ selected_names (apply_row r (st, n, e)).1.1 ->
  b ∈ selected_names st ∨ b = basename (Suggested r).
Proof.
  unfold selected_names.
  destruct (apply_row_cases r st n e)
    as [E|[(p & f & disk & Ho & Hs & Hne & Hr & Hp & Hren)
          |[(p & f & err & Ho & Hs & Hne & Hr & Hp & Hren)
           |(p & f & k & Ho & Hs & Hr & Hp)]]].
  - rewrite E. by left.
  - rewrite (apply_row_renamed r st n e p f disk) by done. simpl.
    intros Hb. apply replace_first_names in Hb as [?| ->]; [by left|].
    right. simpl.
    apply basename_join_any.
  - rewrite (apply_row_failed r st n e p f err) by done. by left.
  - rewrite (apply_row_refused r st n e p f k) by done. by left.
Qed.

Lemma apply_rows_names rows st n e b :
  b ∈ selected_names (apply_rows rows (st, n, e)).1.1 ->
  b ∈ selected_names st ∨ ∃ r, r ∈ rows ∧ b = basename (Suggested r).
Proof.
  revert st n e. induction rows as [|r rows IH]; intros st n e; [by left|].
  rewrite apply_rows_cons.
  destruct (apply_row r (st, n, e)) as [[st1 n1] e1] eqn:E. intros Hb.
  destruct (IH st1 n1 e1 Hb) as [Hb1|(r' & Hr' & ->)].
  - pose proof (apply_row_names r st n e b) as Hn. rewrite E in Hn.
    destruct (Hn Hb1) as [?| ->]; [by left|]. right. exists r.
    split; [apply list_elem_of_here|done].
  - right. exists r'. split; [by apply list_elem_of_further|done].
Qed.

Lemma apply_renames_unfold st :
  selected_rows st ≠ [] ->
  apply_renames st =
  let st1 := (apply_rows (selected_rows st) (st, 0, 0)).1.1 in
  let renamed_count := (apply_rows (selected_rows st) (st, 0, 0)).1.2 in
  let error_count := (apply_rows (selected_rows st) (st, 0, 0)).2 in
  let st2 :=
    (populate_directory_tree
       (set_log (log st1 ++ summary renamed_count error_count) st1)).2 in
  match (populate_directory_tree
           (set_log (log st1 ++ summary renamed_count error_count) st1)).1 with
  | None =>
      set_items_tree
        (map (fun entry : string * bool =>
                (basename (fst entry), kind_of (snd entry)))
           (selected_items st2)) st2
  | Some _ => st2
  end.
Proof.
  unfold apply_renames, selected_rows, apply_rows.
  destruct (filter _ _) as [|r rows]; [done|]. intros _.
  destruct (fold_left _ (r :: rows) (st, 0, 0)) as [[st1 n] e]. simpl.
  by destruct (populate_directory_tree _) as [[err|] st2].
Qed.

Lemma populate_directory_tree_log st :
  log (populate_directory_tree st).2 = log st ++ listing_warning st
  ∧ fs (populate_directory_tree st).2 = fs st
  ∧ selected_items (populate_directory_tree st).2 = selected_items st.
Proof.
  unfold populate_directory_tree, populate_directory_subtree, listing_warning.
  simpl. destruct (os_listdir (fs st) (root_directory st)) as [err|names]; simpl.
  - destruct (is_PermissionError err); simpl; [done|by rewrite app_nil_r].
  - by rewrite app_nil_r.
Qed.

End Table.

(** ** The worker *)

Lemma from_first_spec c s :
  match from_first c s with
  | Some t => ∃ pre r, s = pre +:+ String c r ∧ t = String c r
                       ∧ occurs c pre = false
  | None => occurs c s = false
  end.
Proof.
  induction s as [|d s IH]; simpl; [done|].
  destruct (Ascii.eqb d c) eqn:E.
  - apply Ascii.eqb_eq in E as ->. by exists "", s.
  - simpl. destruct (from_first c s) as [t|]; [|done].
    destruct IH as (pre & r & -> & -> & Hpre).
    exists (String d pre), r. simpl. by rewrite E.
Qed.

Lemma upto_last_spec c s :
  match upto_last c s with
  | Some t => ∃ mid post, s = mid +:+ String c post ∧ t = mid +:+ String c ""
                          ∧ occurs c post = false
  | None => occurs c s = false
  end.
Proof.
  induction s as [|d s IH]; simpl; [done|].
  destruct (upto_last c s) as [t|].
  - destruct IH as (mid & post & -> & -> & Hpost).
    by exists (String d mid), post.
  - destruct (Ascii.eqb d c) eqn:E; simpl.
    + apply Ascii.eqb_eq in E as ->. by exists "", s.
    + done.
Qed.

(** The search finds the text from the first ['{'] to the last ['}'], and
    fails when no ['}'] comes after the first ['{']. *)
Lemma re_search_braces_spec s :
  match re_search_braces s with
  | Some group1 =>
      ∃ pre mid post,
        s = pre +:+ "{" +:+ mid +:+ "}" +:+ post
        ∧ group1 = "{" +:+ mid +:+ "}"
        ∧ occurs "{" pre = false ∧ occurs "}" post = false
  | None =>
      occurs "{" s = false
      ∨ ∃ pre rest, s = pre +:+ "{" +:+ rest
                    ∧ occurs "{" pre = false ∧ occurs "}" rest = false
  end.
Proof.
  unfold re_search_braces. pose proof (from_first_spec "{" s) as Hf.
  destruct (from_first "{" s) as [t|]; [|by left].
  destruct Hf as (pre & r & -> & -> & Hpre).
  pose proof (upto_last_spec "}" r) as Hl.
  destruct (upto_last "}" r) as [t|].
  - destruct Hl as (mid & post & -> & -> & Hpost).
    by exists pre, mid, post.
  - right. by exists pre, r.
Qed.

Lemma prefix_append p s : String.prefix p (p +:+ s) = true.
Proof.
  induction p as [|c p IH]; [by destruct s|].
  rewrite sapp_cons. simpl. by destruct (ascii_dec c c).
Qed.

Lemma prefix_refl p : String.prefix p p = true.
Proof. rewrite <-(sapp_nil_r p) at 2. apply prefix_append. Qed.

Lemma occurs_app c x y : occurs c (x +:+ y) = occurs c x || occurs c y.
Proof.
  induction x as [|d x IH]; [done|]. rewrite sapp_cons. simpl.
  by rewrite IH, orb_assoc.
Qed.

Lemma first_occurrence_unique c pre r pre' r' :
  occurs c pre = false -> occurs c pre' = false ->
  pre +:+ String c r = pre' +:+ String c r' -> pre = pre' ∧ r = r'.
Proof.
  revert pre'. induction pre as [|d pre IH]; intros [|d' pre'] H1 H2 E.
  - by simplify_eq.
  - rewrite sapp_cons in E. injection E as <- _. simpl in H2.
    by rewrite Ascii.eqb_refl in H2.
  - rewrite sapp_cons in E. injection E as -> _. simpl in H1.
    by rewrite Ascii.eqb_refl in H1.
  - rewrite !sapp_cons in E. injection E as <- E. simpl in H1, H2.
    apply orb_false_iff in H1 as [_ H1]. apply orb_false_iff in H2 as [_ H2].
    by destruct (IH pre' H1 H2 E) as [-> ->].
Qed.

Lemma last_occurrence_unique c mid post mid' post' :
  occurs c post = false -> occurs c post' = false ->
  mid +:+ String c post = mid' +:+ String c post' -> mid = mid' ∧ post = post'.
Proof.
  intros H1 H2. revert mid'.
  induction mid as [|d mid IH]; intros [|d' mid'] E.
  - by simplify_eq.
  - rewrite sapp_cons in E. injection E as <- E. subst post.
    rewrite occurs_app in H1. simpl in H1.
    by rewrite Ascii.eqb_refl, orb_true_r in H1.
  - rewrite sapp_cons in E. injection E as -> E. subst post'.
    rewrite occurs_app in H2. simpl in H2.
    by rewrite Ascii.eqb_refl, orb_true_r in H2.
  - rewrite !sapp_cons in E. injection E as <- E.
    by destruct (IH mid' E) as [-> ->].
Qed.

Section Worker.
Context `{!Runtime}.

Lemma api_error_message_prefix status_code response_json :
  String.prefix ("API Error: Status " +:+ pretty status_code)
    (api_error_message status_code response_json) = true.
Proof.
  unfold api_error_message.
  repeat case_match; first [apply prefix_append | apply prefix_refl].
Qed.

Lemma api_error_message_service status_code error_data kvs m :
  dict_get error_data "error" (JObject []) = Some (JObject kvs) ->
  assoc "message" kvs = Some (JString m) ->
  api_error_message status_code (inr error_data)
  = "API Error: Status " +:+ pretty status_code +:+ nl +:+ m.
Proof.
  intros He Hm. unfold api_error_message. rewrite He. simpl. by rewrite Hm.
Qed.

Lemma worker_not_200 status_code response_json :
  status_code ≠ 200%Z ->
  _run_ai_request_thread (post_response status_code response_json)
  = Raised (Exception (api_error_message status_code response_json)).
Proof.
  intros Hs. simpl. by rewrite (proj2 (Z.eqb_neq _ _) Hs).
Qed.

Lemma worker_content response_data text :
  has_content response_data text ->
  _run_ai_request_thread (post_response 200 (inr response_data))
  = match extract_json text with
    | inl e => Raised e
    | inr payload =>
        match json_loads payload with
        | inl e => Raised e
        | inr suggestions_dict => Success suggestions_dict
        end
    end.
Proof.
  intros (choices & choice & message & H1 & H2 & H3 & H4). simpl.
  by rewrite H1, H2, H3, H4.
Qed.

(** C6, as amended.  For a response whose content is [text]:
    - when [text] begins with ['{'] after blanks are stripped, [text] itself
      is parsed;
    - otherwise the part of [text] from its first ['{'] to its last ['}'] is
      parsed, whether or not its braces balance;
    - when no ['}'] comes after the first ['{'], the request fails with the
      [ValueError] of a response without JSON object;
    - whatever is parsed, a parse error fails the request.
    A request whose call raised, or whose status is not 200, fails too; for
    a status that is not 200 the message starts with
    ["API Error: Status "] and the status code, and when the body is an
    object whose ["error"] has a string ["message"], this message follows
    on a new line. *)
Theorem worker_extraction_and_failures :
  (∀ response_data text,
     has_content response_data text ->
     let result := _run_ai_request_thread (post_response 200 (inr response_data)) in
     (startswith_char "{" (strip text) = true ->
      result = match json_loads text with
               | inl e => Raised e
               | inr d => Success d
               end)
     ∧ (startswith_char "{" (strip text) = false ->
        (∀ pre mid post,
           text = pre +:+ "{" +:+ mid +:+ "}" +:+ post ->
           occurs "{" pre = false -> occurs "}" post = false ->
           result = match json_loads ("{" +:+ mid +:+ "}") with
                    | inl e => Raised e
                    | inr d => Success d
                    end)
        ∧ ((occurs "{" text = false
            ∨ ∃ pre rest, text = pre +:+ "{" +:+ rest
                ∧ occurs "{" pre = false ∧ occurs "}" rest = false) ->
           result = Raised
             (ValueError "AI response did not contain a valid JSON object."))))
  ∧ (∀ e, _run_ai_request_thread (post_raised e) = Raised e)
  ∧ (∀ status_code response_json,
       status_code ≠ 200%Z ->
       ∃ message,
         _run_ai_request_thread (post_response status_code response_json)
         = Raised (Exception message)
         ∧ String.prefix ("API Error: Status " +:+ pretty status_code) message
           = true
         ∧ (∀ error_data kvs m,
              response_json = inr error_data ->
              dict_get error_data "error" (JObject []) = Some (JObject kvs) ->
              assoc "message" kvs = Some (JString m) ->
              message = "API Error: Status " +:+ pretty status_code +:+ nl +:+ m)).
Proof.
  split_and!.
  - intros response_data text Hc result. subst result.
    rewrite (worker_content _ _ Hc). unfold extract_json. split.
    + intros ->. done.
    + intros ->. simpl. pose proof (re_search_braces_spec text) as Hs. split.
      * intros pre mid post E Hpre Hpost. subst text.
        destruct (re_search_braces _) as [group1|].
        -- destruct Hs as (pre' & mid' & post' & E & -> & Hpre' & Hpost').
           apply first_occurrence_unique in E as [-> E]; [|done..].
           apply last_occurrence_unique in E as [-> _]; [|done..]. done.
        -- destruct Hs as [Hs|(pre' & rest & E & Hpre' & Hrest)].
           ++ rewrite occurs_app in Hs. simpl in Hs.
              by rewrite orb_true_r in Hs.
           ++ apply first_occurrence_unique in E as [-> <-]; [|done..].
              rewrite occurs_app in Hrest. simpl in Hrest.
              by rewrite orb_true_r in Hrest.
      * intros Hnone. destruct (re_search_braces _) as [group1|]; [|done].
        destruct Hs as (pre & mid & post & -> & _ & Hpre & Hpost).
        destruct Hnone as [Hs|(pre' & rest & E & Hpre' & Hrest)].
        -- rewrite occurs_app in Hs. simpl in Hs.
           by rewrite orb_true_r in Hs.
        -- apply first_occurrence_unique in E as [-> <-]; [|done..].
           rewrite occurs_app in Hrest. simpl in Hrest.
           by rewrite orb_true_r in Hrest.
  - done.
  - intros status_code response_json Hs. eexists. split_and!.
    + by apply worker_not_200.
    + apply api_error_message_prefix.
    + intros error_data kvs m -> He Hm. by eapply api_error_message_service.
Qed.

End Worker.

Section Batches.
Context {FS : Type} `{!Filesystem FS} `{!Runtime}.
Implicit Types st : app FS.

Lemma summary_cases n e :
  (0 < n ->
   summary n e =
   [showinfo "Success"
      ("Renamed " +:+ pretty n +:+ " items successfully."
       +:+ (if decide (0 < e)
            then " Failed to rename " +:+ pretty e +:+ " items." else ""))])
  ∧ (n = 0 -> e = 0 -> summary n e = [showinfo "Info" "No items needed renaming."])
  ∧ (n = 0 -> 0 < e -> summary n e = []).
Proof.
  unfold summary. split_and!.
  - intros Hn. rewrite (proj2 (Nat.ltb_lt 0 n) Hn).
    destruct (decide (0 < e)) as [He|He].
    + by rewrite (proj2 (Nat.ltb_lt 0 e) He).
    + by rewrite (proj2 (Nat.ltb_ge 0 e)) by lia.
  - by intros -> ->.
  - intros -> He. by destruct e; [lia|].
Qed.

Lemma apply_renames_log st :
  selected_rows st ≠ [] ->
  let acc := apply_rows (selected_rows st) (st, 0, 0) in
  log (apply_renames st)
  = log acc.1.1 ++ summary acc.1.2 acc.2 ++ listing_warning acc.1.1
  ∧ fs (apply_renames st) = fs acc.1.1
  ∧ selected_items (apply_renames st) = selected_items acc.1.1.
Proof.
  intros Hrows acc. rewrite (apply_renames_unfold st Hrows). cbv zeta.
  fold acc. set (st1 := set_log _ _).
  destruct (populate_directory_tree_log st1) as (Hl & Hf & Hs).
  assert (log st1 ++ listing_warning st1
          = log acc.1.1 ++ summary acc.1.2 acc.2 ++ listing_warning acc.1.1)
    as Hw.
  { subst st1. cbn [log set_log].
    change (listing_warning (set_log _ ?s)) with (listing_warning s).
    by rewrite <-app_assoc. }
  rewrite Hw in Hl. change (fs st1) with (fs acc.1.1) in Hf.
  change (selected_items st1) with (selected_items acc.1.1) in Hs.
  by destruct (populate_directory_tree st1) as [[err|] st2].
Qed.

(** C8, as amended.  A batch logs its renames one after the other, and
    each row that fails has an error box of its own at once: after its
    rename when [os.rename] raised, and in place of a rename when the new
    name is read as a number, which [os.path.join] refuses.  After the last
    row comes the summary, which
    - gives the number of renamed rows, and the number of failed rows when
      there are any, when at least one row was renamed;
    - is the distinct "No items needed renaming." when no row was renamed
      and none failed;
    - is missing when no row was renamed and some failed. *)
Theorem apply_renames_reports st :
  selected_rows st ≠ [] ->
  ∃ new n e,
    log (apply_renames st)
    = log st ++ new ++ summary n e
      ++ listing_warning (apply_rows (selected_rows st) (st, 0, 0)).1.1
    ∧ batch_log new n e
    ∧ (0 < n ->
       summary n e =
       [showinfo "Success"
          ("Renamed " +:+ pretty n +:+ " items successfully."
           +:+ (if decide (0 < e)
                then " Failed to rename " +:+ pretty e +:+ " items." else ""))])
    ∧ (n = 0 -> e = 0 ->
       summary n e = [showinfo "Info" "No items needed renaming."])
    ∧ (n = 0 -> 0 < e -> summary n e = []).
Proof.
  intros Hrows. destruct (apply_renames_log st Hrows) as (Hl & _ & _).
  destruct (apply_rows_log (selected_rows st) st 0 0)
    as (new & n & e & Hnew & Hn & He & Hb & _).
  exists new, n, e. simpl in Hn, He. rewrite Hl, Hnew, Hn, He, <-app_assoc.
  split_and!; [done|done|apply summary_cases..].
Qed.

Lemma apply_rows_unresolved rows st n e :
  Forall
    (fun r => resolve_cell (_convert_stringval (Original r)) (selected_items st)
              = None) rows ->
  apply_rows rows (st, n, e) = (st, n, e).
Proof.
  induction 1 as [|r rows Hr Hall IH]; [done|].
  by rewrite apply_rows_cons, apply_row_unresolved.
Qed.

(** A row is passed over when its name was not in the selection at the
    start of the batch and is not what a row before it suggests. *)
Lemma apply_rows_skip rows1 (r : row) rows2 st n e :
  resolve_cell (_convert_stringval (Original r)) (selected_items st) = None ->
  Forall (fun r' => basename (Suggested r') ≠ Original r) rows1 ->
  apply_rows (rows1 ++ r :: rows2) (st, n, e)
  = apply_rows (rows1 ++ rows2) (st, n, e).
Proof.
  intros Hr Hrows. rewrite !apply_rows_app, apply_rows_cons. f_equal.
  pose proof (apply_rows_names rows1 st n e) as Hnames.
  destruct (apply_rows rows1 (st, n, e)) as [[st1 n1] e1]. simpl in Hnames.
  apply apply_row_unresolved.
  destruct (_convert_stringval (Original r)) as [name|k] eqn:Hc;
    [|apply resolve_cell_number].
  apply convert_text in Hc as [-> _]. rewrite resolve_cell_text in *.
  apply resolve_None. intros Hin. apply resolve_None in Hr.
  destruct (Hnames _ Hin) as [?|(r' & Hr' & E)]; [done|].
  by apply (proj1 (Forall_forall _ _) Hrows r').
Qed.

(** C10, as amended.  A row is passed over, with no rename and no count,
    when its original name is the basename of no entry of the selection at
    the start of the batch and is not the basename of what a row before it
    in the batch suggests: the batch goes as it would without the row.  A
    row whose name is read as a number is such a row.  When no row of the
    batch finds its name in the selection at the start, the batch renames
    nothing and reports "No items needed renaming.", although rows were
    selected. *)
Theorem unresolved_rows_are_skipped :
  (∀ rows1 (r : row) rows2 st n e,
     resolve_cell (_convert_stringval (Original r)) (selected_items st) = None ->
     Forall (fun r' => basename (Suggested r') ≠ Original r) rows1 ->
     apply_rows (rows1 ++ r :: rows2) (st, n, e)
     = apply_rows (rows1 ++ rows2) (st, n, e))
  ∧ (∀ (r : row) st,
       int_of_str (Original r) ≠ None ->
       resolve_cell (_convert_stringval (Original r)) (selected_items st) = None)
  ∧ (∀ st,
       selected_rows st ≠ [] ->
       Forall
         (fun r => resolve_cell (_convert_stringval (Original r))
                     (selected_items st) = None)
         (selected_rows st) ->
       log (apply_renames st)
       = log st ++ [showinfo "Info" "No items needed renaming."]
         ++ listing_warning st
       ∧ fs (apply_renames st) = fs st
       ∧ selected_items (apply_renames st) = selected_items st).
Proof.
  split_and!; [apply apply_rows_skip| |].
  - intros r st Hk. unfold _convert_stringval.
    destruct (int_of_str (Original r)); [|done]. apply resolve_cell_number.
  - intros st Hrows Hall.
    destruct (apply_renames_log st Hrows) as (Hl & Hf & Hs).
    rewrite (apply_rows_unresolved _ st 0 0 Hall) in Hl, Hf, Hs.
    by rewrite Hl, Hf, Hs.
Qed.




End Batches.



(** C10 fails as stated: a row whose name is the basename of no entry of
    the selection when "Apply" is clicked is renamed all the same when a
    row before it gave that name to an entry.  With [a.txt] alone selected
    and the rows [a.txt -> c.txt] and [c.txt -> z.txt], the second row
    renames what the first row has just renamed. *)
Lemma later_row_resolves_after_rename :
  let st := Toy.chain in
  map (fun r => (Original r, Suggested r)) (selected_rows st)
  = [("a.txt", "c.txt"); ("c.txt", "z.txt")]
  ∧ selected_items st = [("/r/a.txt", false)]
  ∧ resolve_cell (_convert_stringval "c.txt") (selected_items st) = None
  ∧ batch_effects st
    = [rename_call "/r/a.txt" "/r/c.txt" None;
       rename_call "/r/c.txt" "/r/z.txt" None;
       showinfo "Success" "Renamed 2 items successfully."].
Proof. vm_compute. repeat split. Qed.

(** C8 fails as stated: in the batch of three rows the error of the second
    row is shown before the third row is renamed, so the batch shows more
    than its summary. *)
Lemma errors_shown_mid_batch :
  batch_effects Toy.three_rows
  = [rename_call "/r/a.txt" "/r/a2.txt" None;
     rename_call "/r/b.txt" "/r/d" (Some (Exn "OSError" "File exists: /r/d"));
     showerror "Error" "Failed to rename b.txt: File exists: /r/d";
     rename_call "/r/d" "/r/d2" None;
     showinfo "Success" "Renamed 2 items successfully. Failed to rename 1 items."]
  ∧ ¬ summary_only (batch_effects Toy.three_rows).
Proof.
  split; [vm_compute; reflexivity|].
  intros (title & message & Hboxes & _). vm_compute in Hboxes. discriminate.
Qed.

(** C2: the code does not do what the claim and its own docstring say.
    [reject_selected_suggestions] never changes the selection, the tree or
    the list of selected items: the path it would add back is taken from
    the selection itself, so its test "not already there" never passes.
    - After a suggestion for [a.txt] arrived (which cleared the selection),
      rejecting its row deletes the row and leaves [a.txt] unselected and
      unchecked.
    - With the root folder selected but shown unchecked, rejecting the row
      of the root, whose name is found in the selection, deletes the row and
      leaves the root unchecked. *)
Theorem reject_never_restores :
  (∀ FS (Hfs : Filesystem FS) (Hrt : Runtime) (st : app FS),
     selected_items (reject_selected_suggestions st) = selected_items st
     ∧ dir_tree (reject_selected_suggestions st) = dir_tree st
     ∧ items_tree (reject_selected_suggestions st) = items_tree st)
  ∧ (let st := Toy.suggested in
     let st' := reject_selected_suggestions st in
     map Original (selected_rows st) = ["a.txt"]
     ∧ get_full_path st [1] = Some "/r/a.txt"
     ∧ selected_items st' = []
     ∧ (selected <$> tree_item (dir_tree st') [1]) = Some Unchecked
     ∧ results_tree st' = [])
  ∧ (let st := Toy.root_selected in
     let st' := reject_selected_suggestions st in
     map Original (selected_rows st) = ["r"]
     ∧ resolve "r" (selected_items st) = Some ("/r", true)
     ∧ selected (dir_tree st) = Unchecked
     ∧ selected_items st' = [("/r", true)]
     ∧ selected (dir_tree st') = Unchecked
     ∧ results_tree st' = []).
Proof.
  split_and!.
  - intros FS Hfs Hrt st. apply reject_keeps.
  - vm_compute. repeat split.
  - vm_compute. repeat split.
Qed.

(** C1 fails as stated: [b.txt], whose name the service did not return, is
    not selected any more once the result is taken from the queue. *)
Lemma unresolved_entry_is_deselected :
  let st := Toy.partial_reply in
  let st' := step timer_fired st in
  selected_items st = [("/r/a.txt", false); ("/r/b.txt", false)]
  ∧ snd (result_queue st) = [Success {[ "a.txt" := "a2.txt" ]}]
  ∧ map (fun r => (Original r, Suggested r)) (results_tree st')
    = [("a.txt", "a2.txt")]
  ∧ ("/r/b.txt", false) ∉ selected_items st'.
Proof.
  split_and!; [vm_compute; reflexivity..|]. vm_compute. apply not_elem_of_nil.
Qed.

Lemma completed_request_clears_selection_witness :
  snd (result_queue Toy.partial_reply) = [Success {[ "a.txt" := "a2.txt" ]}]
  ∧ selected_items (_check_ai_thread Toy.partial_reply) = []
  ∧ suggestions_button (_check_ai_thread Toy.partial_reply) = NORMAL.
Proof.
  assert (snd (result_queue Toy.partial_reply)
          = Success {[ "a.txt" := "a2.txt" ]} :: []) as Hq by (vm_compute; reflexivity).
  split; [exact Hq|].
  destruct (completed_request_clears_selection Toy.partial_reply _ _ Hq)
    as (_ & _ & _ & _ & Hsel & _ & _ & Hb).
  exact (conj Hsel Hb).
Defined.

Lemma single_flight_pipeline_witness :
  let st := run Toy.busy_events Toy.session0 in
  pending st ≤ 1
  ∧ (pending st = 1 ->
     suggestions_button st = DISABLED ∧ step click_get_suggestions st = st)
  ∧ issued_count st = drained_count st + pending st
  ∧ (pending st = 0 -> idle st)
  ∧ (∀ o, snd (result_queue st) = [o] ->
     idle (step timer_fired st)
     ∧ drained_count (step timer_fired st) = S (drained_count st)
     ∧ issued_count (step timer_fired st) = issued_count st).
Proof.
  apply (single_flight_pipeline Toy.session0 Toy.busy_events).
  - vm_compute. repeat split.
  - vm_compute. reflexivity.
Defined.

Lemma failed_request_keeps_selection_witness :
  let st := run [click_checkbox [1]] Toy.session0 in
  let st' := run [click_get_suggestions; worker_done 1 Toy.not_found; timer_fired] st in
  selected_items st' = [("/r/a.txt", false)]
  ∧ last (log st')
    = Some (showerror "Error"
              ("Failed to get AI suggestions: API Error: Status 404"
               +:+ nl +:+ "No such model")).
Proof.
  intros st st'.
  destruct (proj2 failed_request_keeps_selection st Toy.not_found
              (Exception ("API Error: Status 404" +:+ nl +:+ "No such model")))
    as (Hsel & Hlog & _);
    [vm_compute; reflexivity|vm_compute; discriminate|vm_compute; reflexivity|].
  split.
  - etrans; [exact Hsel|vm_compute; reflexivity].
  - etrans; [exact (f_equal last Hlog)|vm_compute; reflexivity].
Defined.

Lemma apply_renames_reports_witness :
  ∃ new n e,
    log (apply_renames Toy.three_rows)
    = log Toy.three_rows ++ new ++ summary n e
      ++ listing_warning
           (apply_rows (selected_rows Toy.three_rows)
              (Toy.three_rows, 0, 0)).1.1
    ∧ batch_log new n e.
Proof.
  destruct (apply_renames_reports Toy.three_rows)
    as (new & n & e & Hlog & Hb & _); [vm_compute; discriminate|].
  exists new, n, e. exact (conj Hlog Hb).
Defined.

Lemma unresolved_rows_are_skipped_witness :
  map Original (selected_rows Toy.suggested) = ["a.txt"]
  ∧ selected_items Toy.suggested = []
  ∧ log (apply_renames Toy.suggested)
    = log Toy.suggested ++ [showinfo "Info" "No items needed renaming."].
Proof.
  split_and!; [vm_compute; reflexivity..|].
  destruct (proj2 (proj2 unresolved_rows_are_skipped) Toy.suggested)
    as (Hlog & _).
  - vm_compute. discriminate.
  - vm_compute. repeat constructor.
  - etrans; [exact Hlog|vm_compute; reflexivity].
Defined.


(** C6 fails as stated: of a response with two objects the whole text from
    the first brace to the last is extracted, not the first balanced
    object, and the request fails although that object could be parsed. *)
Lemma first_balanced_object_not_extracted :
  first_balanced_object Toy.two_objects
  = Some (Toy.object_text [("a.txt", "b.txt")])
  ∧ extract_json Toy.two_objects
    = inr (Toy.object_text [("a.txt", "b.txt")] +:+ " or "
           +:+ Toy.object_text [("a.txt", "c.txt")])
  ∧ json_loads (Toy.object_text [("a.txt", "b.txt")])
    = inr {[ "a.txt" := "b.txt" ]}
  ∧ _run_ai_request_thread (Toy.reply_with Toy.two_objects)
    = Raised (Exn "JSONDecodeError" "Expecting value").
Proof. split_and!; vm_compute; reflexivity. Qed.

Lemma worker_extraction_and_failures_witness :
  _run_ai_request_thread
    (Toy.reply_with ("Sure: " +:+ Toy.object_text [("a.txt", "a2.txt")]))
  = Success {[ "a.txt" := "a2.txt" ]}
  ∧ _run_ai_request_thread Toy.not_found
    = Raised (Exception ("API Error: Status 404" +:+ nl +:+ "No such model")).
Proof.
  destruct (worker_extraction_and_failures (H := Toy.runtime))
    as (Hcontent & _ & Hstatus). split.
  - unfold Toy.reply_with.
    match goal with
    | |- _run_ai_request_thread (post_response 200 (inr ?d)) = _ =>
        destruct (Hcontent d
                    ("Sure: " +:+ Toy.object_text [("a.txt", "a2.txt")]))
          as (_ & Hextract)
    end.
    { eexists _, _, _. split_and!; vm_compute; reflexivity. }
    destruct (Hextract ltac:(vm_compute; reflexivity)) as (Hfound & _).
    rewrite (Hfound "Sure: "
               (String.substring 1 17 (Toy.object_text [("a.txt", "a2.txt")]))
               ""); vm_compute; reflexivity.
  - destruct (Hstatus 404%Z
                (inr (JObject [("error",
                   JObject [("message", JString "No such model")])])))
      as (message & Hres & _ & Hmsg); [done|].
    unfold Toy.not_found. rewrite Hres. f_equal. f_equal.
    by eapply Hmsg.
Defined.

(** * More properties of the code *)

(** ** What the handlers of the tree and the applier leave alone *)

Section Frames.
Context {FS : Type} `{!Filesystem FS} `{!Runtime}.
Implicit Types st : app FS.

Lemma browses_id : browses (fun st : app FS => st).
Proof. intros []. by eexists _, _, _, _, _. Qed.

Lemma browses_compose (f g : app FS -> app FS) :
  browses f -> browses g -> browses (fun st => f (g st)).
Proof.
  intros Hf Hg st. destruct (Hg st) as (? & ? & ? & ? & ? & ->).
  destruct (Hf (set_fs x (set_log x3 (set_dir_tree x1 (set_items_tree x2
              (set_selected_items x0 st)))))) as (? & ? & ? & ? & ? & ->).
  by eexists _, _, _, _, _.
Qed.

Lemma browses_fold {A} (f : A -> app FS -> app FS) (l : list A) :
  (∀ x, browses (f x)) -> browses (fun st => fold_left (fun st x => f x st) l st).
Proof.
  intros Hf. induction l as [|x l IH]; [apply browses_id|]. simpl.
  apply (browses_compose (fun st => fold_left (fun st x => f x st) l st) (f x));
    [exact IH|apply Hf].
Qed.

(** What such a handler keeps. *)
Lemma browses_keeps (h : app FS -> app FS) st :
  browses h ->
  results_tree (h st) = results_tree st
  ∧ next_iid (h st) = next_iid st
  ∧ rename_suggestions (h st) = rename_suggestions st
  ∧ suggestions_button (h st) = suggestions_button st
  ∧ apply_button (h st) = apply_button st
  ∧ root_directory (h st) = root_directory st.
Proof. intros Hh. by destruct (Hh st) as (? & ? & ? & ? & ? & ->). Qed.

Ltac browse_case :=
  repeat match goal with
         | st : app _ |- _ =>
             destruct st as [x_fs x_root x_sel x_dict x_tree x_items x_rows x_next
                               x_instr x_model x_status x_sb x_ab x_queue x_workers
                               x_timers x_log]
         end;
  eexists _, _, _, _, _;
  cbv [set_fs set_log set_dir_tree set_items_tree set_selected_items
       log_effect dir_tree_set
       fs root_directory selected_items rename_suggestions dir_tree items_tree
       results_tree next_iid rename_instructions model_var status_label
       suggestions_button apply_button result_queue workers timers log];
  reflexivity.

Lemma browses_log_effect e : browses (log_effect (FS := FS) e).
Proof. intros st. browse_case. Qed.

Lemma browses_dir_tree_set i v : browses (dir_tree_set (FS := FS) i v).
Proof. intros st. browse_case. Qed.

Lemma browses_add_tree_item i : browses (add_tree_item_to_selection (FS := FS) i).
Proof.
  intros st. unfold add_tree_item_to_selection.
  repeat case_match; browse_case.
Qed.

Lemma browses_remove_tree_item i :
  browses (remove_tree_item_from_selection (FS := FS) i).
Proof.
  intros st. unfold remove_tree_item_from_selection.
  repeat case_match; browse_case.
Qed.

Lemma browses_click i : browses (on_tree_checkbox_click (FS := FS) i).
Proof.
  intros st. unfold on_tree_checkbox_click. repeat case_match; [| |browse_case].
  - apply (browses_compose _ _ (browses_remove_tree_item i)
             (browses_dir_tree_set i Unchecked)).
  - apply (browses_compose _ _ (browses_add_tree_item i)
             (browses_dir_tree_set i Checked)).
Qed.

Lemma browses_select_item sel : browses (select_tree_item (FS := FS) sel).
Proof.
  intros st. destruct sel as [|i sel]; [browse_case|].
  apply (browses_compose _ _ (browses_add_tree_item i)
           (browses_dir_tree_set i Checked)).
Qed.

Lemma browses_deselect_item sel : browses (deselect_tree_item (FS := FS) sel).
Proof.
  intros st. destruct sel as [|i sel]; [browse_case|].
  apply (browses_compose _ _ (browses_remove_tree_item i)
           (browses_dir_tree_set i Unchecked)).
Qed.

Lemma browses_select_child i item_path child_name :
  browses (select_child (FS := FS) i item_path child_name).
Proof.
  intros st. unfold select_child. repeat case_match; browse_case.
Qed.

Lemma browses_select_contents sel :
  browses (select_tree_item_contents (FS := FS) sel).
Proof.
  intros st. unfold select_tree_item_contents.
  destruct sel as [|i sel]; [browse_case|].
  destruct (tree_item (dir_tree st) i) as [it|]; [|browse_case].
  destruct (get_full_path st i) as [item_path|]; [|browse_case].
  case_bool_decide; [|browse_case]. cbv zeta.
  destruct (os_listdir _ item_path) as [e|names];
    [destruct (is_PermissionError e); browse_case|].
  apply (browses_compose
           (fun st => fold_left (fun st n => select_child i item_path n st) names st)
           (fun st => set_dir_tree (tree_alter (set_is_open true) i (dir_tree st)) st)).
  - apply (browses_fold (select_child i item_path)), browses_select_child.
  - intros st'. browse_case.
Qed.

Lemma browses_expand sel : browses (expand_tree_item (FS := FS) sel).
Proof. intros st. destruct sel; browse_case. Qed.

Lemma browses_collapse sel : browses (collapse_tree_item (FS := FS) sel).
Proof. intros st. destruct sel; browse_case. Qed.

Lemma browses_populate_subtree i p :
  browses (fun st : app FS => (populate_directory_subtree i p st).2).
Proof.
  intros st. unfold populate_directory_subtree.
  repeat case_match; cbn [snd]; browse_case.
Qed.

Lemma browses_populate_tree :
  browses (fun st : app FS => (populate_directory_tree st).2).
Proof.
  intros st. unfold populate_directory_tree.
  apply (browses_compose
           (fun st' : app FS =>
              (populate_directory_subtree [] (root_directory st) st').2)
           (fun st => set_dir_tree
                        (Item (if String.eqb (basename (root_directory st)) ""
                               then root_directory st
                               else basename (root_directory st))
                           Unchecked Folder true []) st)
           (browses_populate_subtree [] (root_directory st))).
  intros st'. browse_case.
Qed.

Lemma browses_on_folder_expanded i : browses (on_folder_expanded (FS := FS) i).
Proof.
  intros st. unfold on_folder_expanded.
  destruct (tree_item (dir_tree st) i) as [it|]; [|browse_case].
  destruct (get_full_path st i) as [path|]; [|browse_case].
  destruct (children it) as [|child [|? ?]]; [browse_case| |browse_case].
  case_match; [|browse_case].
  apply (browses_compose
           (fun st' : app FS => (populate_directory_subtree i path st').2)
           (fun st => set_dir_tree (tree_alter (set_children []) i (dir_tree st)) st)
           (browses_populate_subtree i path)).
  intros st'. browse_case.
Qed.

Lemma browses_update_checkbox p b :
  browses (update_dir_tree_checkbox (FS := FS) p b).
Proof.
  intros st. unfold update_dir_tree_checkbox. case_match; browse_case.
Qed.

Lemma browses_remove_selected_item k :
  browses (remove_selected_item (FS := FS) k).
Proof.
  intros st. unfold remove_selected_item.
  destruct (items_tree st !! k) as [[item_name ?]|]; [|browse_case].
  destruct (List.find _ _) as [[path ?]|]; [|browse_case].
  destruct (browses_update_checkbox path false
              (set_selected_items
                 (remove_first
                    (fun entry => String.eqb (basename (fst entry)) item_name)
                    (selected_items st)) st)) as (? & ? & ? & ? & ? & ->).
  browse_case.
Qed.

Lemma browses_clear : browses (clear_selection (FS := FS)).
Proof. intros st. browse_case. Qed.

Lemma browses_apply_row r (acc : app FS * nat * nat) :
  ∃ disk entries tree rows effects,
    (apply_row r acc).1.1
    = set_fs disk
        (set_log effects
           (set_dir_tree tree
              (set_items_tree rows (set_selected_items entries acc.1.1)))).
Proof.
  destruct acc as [[st n] e]. unfold apply_row.
  repeat case_match; cbn [fst]; browse_case.
Qed.

Lemma browses_apply_rows rows (acc : app FS * nat * nat) :
  ∃ disk entries tree rows' effects,
    (apply_rows rows acc).1.1
    = set_fs disk
        (set_log effects
           (set_dir_tree tree
              (set_items_tree rows' (set_selected_items entries acc.1.1)))).
Proof.
  revert acc. induction rows as [|r rows IH]; intros acc.
  - unfold apply_rows. simpl. destruct acc as [[[] ?] ?]. by eexists _, _, _, _, _.
  - rewrite apply_rows_cons. destruct (IH (apply_row r acc)) as (? & ? & ? & ? & ? & ->).
    destruct (browses_apply_row r acc) as (? & ? & ? & ? & ? & ->).
    by eexists _, _, _, _, _.
Qed.

Lemma browses_apply : browses (apply_renames (FS := FS)).
Proof.
  intros st. destruct (decide (selected_rows st = [])) as [E|E].
  - unfold apply_renames. unfold selected_rows in E. rewrite E. browse_case.
  - rewrite (apply_renames_unfold st E). cbv zeta.
    destruct (browses_apply_rows (selected_rows st) (st, 0, 0))
      as (? & ? & ? & ? & ? & Hrows).
    cbn [fst] in Hrows. rewrite Hrows.
    match goal with
    | |- context [populate_directory_tree ?s] =>
        destruct (browses_populate_tree s) as (? & ? & ? & ? & ? & Hp);
        destruct (populate_directory_tree s) as [[err|] st2]
    end; cbn [fst snd] in *; rewrite Hp; browse_case.
Qed.

End Frames.

(** ** The suggestion table *)

Lemma remove_first_sublist {A} (f : A -> bool) l : sublist (remove_first f l) l.
Proof.
  induction l as [|x l IH]; simpl; [done|]. destruct (f x).
  - by apply sublist_cons.
  - by apply sublist_skip.
Qed.

Lemma filter_all {A} (P : A -> Prop) `{∀ x, Decision (P x)} (l : list A) :
  Forall P l -> filter P l = l.
Proof.
  induction 1 as [|x l Hx Hl IH]; [done|].
  by rewrite filter_cons_True, IH by done.
Qed.

Lemma filter_ext_in {A} (P Q : A -> Prop) `{∀ x, Decision (P x)}
    `{∀ x, Decision (Q x)} (l : list A) :
  Forall (fun x => P x <-> Q x) l -> filter P l = filter Q l.
Proof.
  induction 1 as [|x l Hx Hl IH]; [done|].
  destruct (decide (P x)) as [HP|HP].
  - rewrite !filter_cons_True by tauto. by f_equal.
  - rewrite !filter_cons_False by tauto. done.
Qed.

Lemma remove_first_key_filter {A} (key : A -> nat) n l :
  NoDup (map key l) ->
  remove_first (fun e => Nat.eqb (key e) n) l = filter (fun e => key e ≠ n) l.
Proof.
  induction l as [|x l IH]; simpl; [done|]. intros [Hx Hl]%NoDup_cons.
  destruct (Nat.eqb (key x) n) eqn:E.
  - apply Nat.eqb_eq in E. rewrite filter_cons_False by (intros Hne; by apply Hne).
    symmetry. apply filter_all, Forall_forall. intros y Hy Hkey.
    apply Hx. rewrite E, <-Hkey. apply list_elem_of_fmap. eauto.
  - apply Nat.eqb_neq in E. rewrite filter_cons_True by done. f_equal. auto.
Qed.

Lemma NoDup_map_inj {A B} (key : A -> B) l x y :
  NoDup (map key l) -> x ∈ l -> y ∈ l -> key x = key y -> x = y.
Proof.
  induction l as [|z l IH]; simpl; [by intros _ ?%elem_of_nil|].
  intros [Hz Hl]%NoDup_cons [->|Hx]%elem_of_cons [->|Hy]%elem_of_cons E; auto.
  - destruct Hz. rewrite E. apply list_elem_of_fmap. eauto.
  - destruct Hz. rewrite <-E. apply list_elem_of_fmap. eauto.
Qed.

Section TableInvariant.
Context {FS : Type} `{!Filesystem FS} `{!Runtime}.
Implicit Types st : app FS.

Lemma text_names_alt (rows : list row) :
  text_names rows = map Original ((filter (fun r : row => int_of_str (Original r) = None)) rows).
Proof.
  induction rows as [|r rows IH]; [done|]. rewrite text_names_cons.
  destruct (decide _).
  - rewrite filter_cons_True by done. simpl. by rewrite IH.
  - by rewrite filter_cons_False by done.
Qed.

Lemma text_names_sublist (rows rows' : list row) :
  sublist rows rows' -> sublist (text_names rows) (text_names rows').
Proof.
  intros Hsub. rewrite !text_names_alt. apply fmap_sublist.
  induction Hsub as [|x l k Hsub IH|x l k Hsub IH]; [done|..].
  - destruct (decide (int_of_str (Original x) = None)).
    + rewrite !filter_cons_True by done. by apply sublist_skip.
    + by rewrite !filter_cons_False by done.
  - destruct (decide (int_of_str (Original x) = None)).
    + rewrite filter_cons_True by done. by apply sublist_cons.
    + by rewrite filter_cons_False by done.
Qed.

(** Two rows of the table with one name that is read as text are one
    row. *)
Lemma text_row_unique (rows : list row) r r' :
  NoDup (text_names rows) -> r ∈ rows -> r' ∈ rows ->
  int_of_str (Original r) = None -> Original r' = Original r -> r' = r.
Proof.
  rewrite text_names_alt. intros Hnd Hr Hr' Ht E.
  eapply (NoDup_map_inj Original); [exact Hnd|..|done].
  - apply list_elem_of_filter. split; [by rewrite E|done].
  - by apply list_elem_of_filter.
Qed.

Lemma remove_first_other {A B} (f : A -> bool) (key : A -> B) q l :
  (∀ x, f x = true -> key x ≠ q) ->
  q ∈ map key (remove_first f l) <-> q ∈ map key l.
Proof.
  intros Hf. induction l as [|x l IH]; simpl; [done|].
  destruct (f x) eqn:E.
  - rewrite elem_of_cons. split; [by right|].
    intros [->|?]; [by destruct (Hf x E)|done].
  - simpl. by rewrite !elem_of_cons, IH.
Qed.

Lemma table_ok_rest st st' :
  results_tree st' = results_tree st -> next_iid st' = next_iid st ->
  rename_suggestions st' = rename_suggestions st ->
  table_ok st -> table_ok st'.
Proof. unfold table_ok. by intros -> -> ->. Qed.

Lemma table_ok_browses (h : app FS -> app FS) st :
  browses h -> table_ok st -> table_ok (h st).
Proof.
  intros Hh. destruct (browses_keeps h st Hh) as (H1 & H2 & H3 & _).
  by apply table_ok_rest.
Qed.

(** Changing the suggested name or the selection flag of rows. *)
Lemma table_ok_rows (f : row -> row) st :
  (∀ r, iid (f r) = iid r ∧ Original (f r) = Original r) ->
  table_ok st -> table_ok (set_results_tree (map f (results_tree st)) st).
Proof.
  intros Hf (H1 & H2 & H3 & H4). unfold table_ok, text_names in *. simpl.
  assert (map Original (map f (results_tree st)) = map Original (results_tree st))
    as ->.
  { rewrite map_map. apply map_ext. intros r. apply Hf. }
  assert (map iid (map f (results_tree st)) = map iid (results_tree st)) as ->.
  { rewrite map_map. apply map_ext. intros r. apply Hf. }
  split_and!; [done..| |done].
  apply Forall_fmap. eapply Forall_impl; [exact H3|].
  intros r Hr. simpl. by rewrite (proj1 (Hf r)).
Qed.

Lemma table_ok_suggest_entry result entry st :
  table_ok st -> table_ok (suggest_entry result entry st).
Proof.
  intros (H1 & H2 & H3 & H4).
  pose proof (suggest_entry_NoDup result entry st H1) as H1'.
  revert H1'. unfold suggest_entry, table_ok. destruct entry as [path is_folder].
  destruct (result !! basename path) as [v|]; [|done]. simpl. intros H1'.
  set (rows := remove_first _ _).
  assert (sublist rows (results_tree st)) as Hsub by apply remove_first_sublist.
  assert (Forall (fun r => iid r < next_iid st) rows) as H3'.
  { eapply Forall_forall. intros r Hr.
    eapply (Forall_forall (fun r => iid r < next_iid st)); [exact H3|].
    by eapply elem_of_sublist. }
  split_and!; [done| | |].
  - rewrite map_app. simpl. apply NoDup_app. split_and!.
    + eapply sublist_NoDup; [exact H2|]. by apply fmap_sublist.
    + intros n Hn ->%list_elem_of_singleton.
      apply list_elem_of_fmap in Hn as (r & E & Hr).
      pose proof (proj1 (Forall_forall _ _) H3' r Hr). simpl in *. lia.
    + apply NoDup_singleton.
  - apply Forall_app. split.
    + eapply Forall_impl; [exact H3'|]. simpl. intros; lia.
    + constructor; [simpl; lia|constructor].
  - intros name. rewrite map_app, elem_of_app. simpl.
    rewrite list_elem_of_singleton.
    destruct (decide (name = basename path)) as [->|Hne].
    + rewrite lookup_insert_eq. split; [by right|eauto].
    + rewrite lookup_insert_ne by done. rewrite H4.
      subst rows. rewrite (remove_first_other _ Original).
      * split; [by left|by intros [?|?]].
      * intros r [-> _]%reads_as. done.
Qed.

Lemma table_ok_suggest_all result entries st :
  table_ok st -> table_ok (suggest_all result entries st).
Proof.
  revert st. induction entries as [|e entries IH]; intros st Hok; [done|].
  simpl. by apply IH, table_ok_suggest_entry.
Qed.

(** Rejecting a row whose name is read as a number changes nothing. *)
Lemma reject_row_number (r : row) st :
  int_of_str (Original r) ≠ None -> reject_row r st = st.
Proof.
  intros Hk. unfold reject_row, _convert_stringval.
  by destruct (int_of_str (Original r)).
Qed.

(** Rejecting a row of the table whose name is read as text removes this
    row and its name. *)
Lemma reject_row_exact (r : row) st :
  table_ok st -> r ∈ results_tree st -> int_of_str (Original r) = None ->
  results_tree (reject_row r st)
  = filter (fun r' => iid r' ≠ iid r) (results_tree st)
  ∧ rename_suggestions (reject_row r st)
    = delete (Original r) (rename_suggestions st)
  ∧ next_iid (reject_row r st) = next_iid st
  ∧ log (reject_row r st) = log st.
Proof.
  intros (H1 & H2 & H3 & H4) Hr Ht. unfold reject_row.
  rewrite (convert_as_text _ Ht). cbn [cell_in format_cell].
  rewrite bool_decide_eq_true_2.
  2:{ apply H4. apply list_elem_of_fmap. eauto. }
  rewrite resolve_cell_text.
  destruct (resolve (Original r) (selected_items st)) as [[p f]|] eqn:Hres.
  - rewrite (resolve_selected _ _ _ _ Hres). simpl.
    by rewrite (remove_first_key_filter iid) by done.
  - simpl. by rewrite (remove_first_key_filter iid) by done.
Qed.

Lemma table_ok_reject_row (r : row) st :
  table_ok st -> r ∈ results_tree st -> table_ok (reject_row r st).
Proof.
  intros Hok Hr.
  destruct (decide (int_of_str (Original r) = None)) as [Ht|Ht];
    [|by rewrite reject_row_number].
  destruct (reject_row_exact r st Hok Hr Ht) as (E1 & E2 & E3 & _).
  destruct Hok as (H1 & H2 & H3 & H4). unfold table_ok.
  rewrite E1, E2, E3.
  assert (sublist (filter (fun r' => iid r' ≠ iid r) (results_tree st))
            (results_tree st)) as Hsub by apply sublist_filter.
  split_and!.
  - eapply sublist_NoDup; [exact H1|]. by apply text_names_sublist.
  - eapply sublist_NoDup; [exact H2|]. by apply fmap_sublist.
  - apply Forall_forall. intros r' Hr'.
    eapply (Forall_forall (fun r => iid r < next_iid st)); [exact H3|].
    by eapply elem_of_sublist.
  - intros name. rewrite list_elem_of_fmap.
    destruct (decide (name = Original r)) as [->|Hne].
    + rewrite lookup_delete_eq. split; [by intros [? ?]|].
      intros (r' & E & [Hne Hr']%list_elem_of_filter). destruct Hne.
      f_equal. by eapply (text_row_unique (results_tree st)).
    + rewrite lookup_delete_ne by done. rewrite H4, list_elem_of_fmap.
      split; intros (r' & E & Hr'); exists r'; (split; [done|]).
      * apply list_elem_of_filter. split; [|done]. intros Hid.
        assert (r' = r) as -> by (eapply (NoDup_map_inj iid); eauto).
        done.
      * by apply list_elem_of_filter in Hr' as [_ ?].
Qed.

Lemma reject_rows_exact (rows : list row) st :
  table_ok st -> NoDup (map iid rows) ->
  (∀ r, r ∈ rows -> r ∈ results_tree st) ->
  let st' := fold_left (fun st r => reject_row r st) rows st in
  table_ok st'
  ∧ results_tree st'
    = filter (fun r' => iid r' ∉ map iid ((filter (fun r : row => int_of_str (Original r) = None)) rows)) (results_tree st)
  ∧ (∀ name,
       rename_suggestions st' !! name
       = if decide (name ∈ text_names rows) then None
         else rename_suggestions st !! name)
  ∧ log st' = log st.
Proof.
  revert st. induction rows as [|r rows IH]; intros st Hok Hnd Hin; simpl.
  - split_and!; [done| |done|done].
    symmetry. apply filter_all, Forall_forall.
    intros r _. apply not_elem_of_nil.
  - apply NoDup_cons in Hnd as [Hr Hnd].
    assert (r ∈ results_tree st) as Hr0 by apply Hin, list_elem_of_here.
    rewrite text_names_cons.
    destruct (decide (int_of_str (Original r) = None)) as [Ht|Ht].
    2:{ rewrite reject_row_number, filter_cons_False by done.
        apply IH; [done..|]. intros r' Hr'. by apply Hin, list_elem_of_further. }
    rewrite filter_cons_True by done.
    destruct (reject_row_exact r st Hok Hr0 Ht) as (E1 & E2 & E3 & E4).
    destruct (IH (reject_row r st)) as (Hok' & Erows & Edict & Elog).
    + by apply table_ok_reject_row.
    + done.
    + intros r' Hr'. rewrite E1. apply list_elem_of_filter. split.
      * intros Hid. apply Hr. rewrite <-Hid. apply list_elem_of_fmap. eauto.
      * apply Hin. by apply list_elem_of_further.
    + split_and!; [done| | |by rewrite Elog].
      * rewrite Erows, E1, list_filter_filter. apply list_filter_iff.
        intros r'. simpl. rewrite not_elem_of_cons. tauto.
      * intros name. rewrite Edict, E2.
        destruct (decide (name = Original r)) as [->|Hne].
        -- rewrite lookup_delete_eq.
           rewrite (decide_True (P := Original r ∈ Original r :: _))
             by apply list_elem_of_here.
           by destruct (decide _).
        -- rewrite lookup_delete_ne by done.
           destruct (decide (name ∈ text_names rows)) as [Hn|Hn].
           ++ by rewrite decide_True by by apply list_elem_of_further.
           ++ rewrite decide_False; [done|].
              rewrite elem_of_cons. by intros [?|?].
Qed.

Lemma table_ok_reject st : table_ok st -> table_ok (reject_selected_suggestions st).
Proof.
  intros Hok. unfold reject_selected_suggestions.
  destruct (filter _ _) as [|r rows] eqn:E.
  - by apply (table_ok_rest st).
  - rewrite <-E.
    apply (reject_rows_exact (filter (fun r => in_selection r = true) (results_tree st)));
      [done| |].
    + eapply sublist_NoDup; [apply Hok|apply fmap_sublist, sublist_filter].
    + intros r' Hr'. by apply list_elem_of_filter in Hr' as [_ ?].
Qed.

Lemma table_ok_deliver result st : table_ok st -> table_ok (deliver result st).
Proof.
  intros Hok. destruct result as [result|e].
  - unfold deliver.
    apply (table_ok_browses clear_selection _ browses_clear).
    unfold select_all_suggestions. apply table_ok_rows; [done|].
    by apply table_ok_suggest_all.
  - by apply (table_ok_rest st).
Qed.

Lemma table_ok_check st : table_ok st -> table_ok (_check_ai_thread st).
Proof.
  intros Hok. destruct (snd (result_queue st)) as [|result rest] eqn:E.
  - rewrite check_ai_thread_empty by done. by apply (table_ok_rest st).
  - rewrite (check_ai_thread_drain st result rest E).
    eapply table_ok_rest; [..|apply (table_ok_deliver result), (table_ok_rest st)];
      done.
Qed.

Lemma table_ok_get st : table_ok st -> table_ok (get_ai_suggestions st).
Proof.
  intros Hok. unfold get_ai_suggestions.
  destruct (selected_items st); [by apply (table_ok_rest st)|].
  apply table_ok_check. by apply (table_ok_rest st).
Qed.

Lemma table_ok_step st e : table_ok st -> table_ok (step e st).
Proof.
  intros Hok. destruct e; cbn [step].
  - by apply table_ok_browses; [apply browses_click|].
  - by apply table_ok_browses; [apply browses_select_item|].
  - by apply table_ok_browses; [apply browses_deselect_item|].
  - by apply table_ok_browses; [apply browses_select_contents|].
  - by apply table_ok_browses; [apply browses_expand|].
  - by apply table_ok_browses; [apply browses_collapse|].
  - apply table_ok_browses; [apply browses_on_folder_expanded|].
    by apply table_ok_browses; [apply browses_expand|].
  - by apply table_ok_browses; [apply browses_collapse|].
  - by apply table_ok_browses; [apply browses_remove_selected_item|].
  - by apply table_ok_browses; [apply browses_clear|].
  - by apply table_ok_rows.
  - by apply table_ok_rows.
  - by apply table_ok_rows.
  - apply table_ok_rows; [|done]. intros r. by destruct (Nat.eqb _ _).
  - by apply table_ok_reject.
  - case_bool_decide; [by apply table_ok_get|done].
  - case_bool_decide; [|done]. by apply table_ok_browses; [apply browses_apply|].
  - case_bool_decide; [|done]. case_match; by apply (table_ok_rest st).
  - destruct (timers st); [done|]. apply table_ok_check. by apply (table_ok_rest st).
Qed.

Lemma table_ok_run events st : table_ok st -> table_ok (run events st).
Proof.
  revert st. induction events as [|e events IH]; intros st Hok; [done|].
  simpl. by apply IH, table_ok_step.
Qed.

Lemma table_ok_start disk root_dir instructions model_name :
  table_ok (start disk root_dir instructions model_name).2.
Proof.
  apply (table_ok_browses (fun st => (populate_directory_tree st).2) _
           browses_populate_tree).
  unfold table_ok. simpl. split_and!; [constructor..|].
  intros name. rewrite lookup_empty. split; [by intros [? ?]|by intros ?%elem_of_nil].
Qed.

(** X1.  The suggestion table keeps its books through whatever the user, the
    worker and the timer do: it never holds two rows for one original name
    that ttk returns as text (names that it returns as numbers, as it does
    ["2024"], may have several rows), its rows have item ids of their own,
    and the keys of [rename_suggestions] are exactly the original names of
    its rows. *)
Theorem suggestion_table_kept st events :
  table_ok st -> table_ok (run events st).
Proof. apply table_ok_run. Qed.

(** X2.  In a table that keeps its books, "Reject Selected" removes exactly
    the rows that are selected and whose original name ttk returns as text,
    and from [rename_suggestions] exactly their names: a selected row whose
    name is returned as a number stays, with its entry.  It shows nothing
    when a row was selected. *)
Theorem reject_removes_selected_rows st :
  table_ok st ->
  let st' := reject_selected_suggestions st in
  results_tree st'
  = filter (fun r => in_selection r = false ∨ int_of_str (Original r) ≠ None)
      (results_tree st)
  ∧ (∀ name,
       rename_suggestions st' !! name
       = if decide (name ∈ text_names (selected_rows st)) then None
         else rename_suggestions st !! name)
  ∧ (selected_rows st ≠ [] -> log st' = log st).
Proof.
  intros Hok st'. subst st'. unfold reject_selected_suggestions.
  fold (selected_rows st).
  destruct (reject_rows_exact (selected_rows st) st Hok) as (_ & Erows & Edict & Elog).
  { eapply sublist_NoDup; [apply Hok|apply fmap_sublist, sublist_filter]. }
  { intros r' Hr'. by apply list_elem_of_filter in Hr' as [_ ?]. }
  assert (filter (fun r' => iid r' ∉ map iid ((filter (fun r : row => int_of_str (Original r) = None)) (selected_rows st)))
            (results_tree st)
          = filter (fun r => in_selection r = false
                             ∨ int_of_str (Original r) ≠ None)
              (results_tree st)) as Hfilter.
  { apply filter_ext_in. apply Forall_forall. intros r Hr. split.
    - intros Hid. destruct (in_selection r) eqn:Hs; [|by left]. right.
      intros Ht. destruct Hid. apply list_elem_of_fmap. exists r.
      split; [done|]. apply list_elem_of_filter. split; [done|].
      by apply list_elem_of_filter.
    - intros Hor (r' & Hid & [Ht' [Hs' Hr']%list_elem_of_filter]%list_elem_of_filter)
        %list_elem_of_fmap.
      assert (r' = r) as ->.
      { destruct Hok as (_ & Hnd & _). by eapply (NoDup_map_inj iid); eauto. }
      destruct Hor; congruence. }
  destruct (selected_rows st) as [|r rows] eqn:E.
  - simpl. split_and!; [|done|done].
    rewrite <-Hfilter. symmetry. apply filter_all, Forall_forall.
    intros r _. apply not_elem_of_nil.
  - by rewrite <-Hfilter.
Qed.

End TableInvariant.

Lemma suggestion_table_kept_witness :
  table_ok Toy.session0
  ∧ table_ok (run Toy.partial_events Toy.session0).
Proof.
  assert (table_ok Toy.session0) as Hok.
  { unfold table_ok. vm_compute.
    split_and!; [constructor..|].
    intros name. split; [by intros [? ?]|by intros ?%elem_of_nil]. }
  exact (conj Hok (suggestion_table_kept Toy.session0 Toy.partial_events Hok)).
Defined.

Lemma reject_removes_selected_rows_witness :
  map Original (selected_rows Toy.suggested) = ["a.txt"]
  ∧ results_tree (reject_selected_suggestions Toy.suggested) = []
  ∧ rename_suggestions (reject_selected_suggestions Toy.suggested) !! "a.txt" = None.
Proof.
  assert (table_ok Toy.suggested) as Hok.
  { apply table_ok_run, table_ok_start. }
  destruct (reject_removes_selected_rows Toy.suggested Hok) as (Hrows & Hdict & _).
  split_and!.
  - vm_compute. reflexivity.
  - etrans; [exact Hrows|]. vm_compute. reflexivity.
  - etrans; [exact (Hdict "a.txt")|]. vm_compute. reflexivity.
Defined.

(** ** Applying right after the suggestions arrived *)

Section ApplyAfterDelivery.
Context {FS : Type} `{!Filesystem FS} `{!Runtime}.
Implicit Types st : app FS.

Lemma suggest_all_root result entries st :
  root_directory (suggest_all result entries st) = root_directory st.
Proof.
  revert st. induction entries as [|[path is_folder] entries IH]; intros st; [done|].
  simpl. rewrite IH. unfold suggest_entry.
  by destruct (result !! basename path).
Qed.

(** X3.  The poll that takes a result from the queue clears the selection,
    and [apply_renames] finds the paths to rename in the selection: applied
    right after the suggestions arrived, it calls [os.rename] for no row and
    leaves the disk as it is, reporting "No items needed renaming." when
    the table has rows. *)
Theorem apply_after_delivery st result rest :
  snd (result_queue st) = Success result :: rest ->
  let st1 := _check_ai_thread st in
  let st2 := apply_renames st1 in
  fs st2 = fs st
  ∧ selected_items st2 = []
  ∧ log st2
    = log st ++ [queue_get (Success result)]
      ++ (if decide (results_tree st1 = [])
          then [showwarning "Warning" "Please select items to rename!"]
          else [showinfo "Info" "No items needed renaming."] ++ listing_warning st).
Proof.
  intros Hq st1 st2. subst st2 st1.
  rewrite (check_ai_thread_drain st _ rest Hq).
  set (st0 := log_effect _ _).
  destruct (deliver_success st0 result)
    as (Hsel & Hitems & Htree & Hrows & Hdict & Hlog).
  destruct (suggest_all_keeps result (selected_items st0) st0)
    as (_ & _ & _ & _ & Hfs).
  set (st1 := set_apply_button _ _).
  assert (selected_items st1 = []) as Hsel1 by exact Hsel.
  assert (log st1 = log st ++ [queue_get (Success result)]) as Hlog1
    by exact Hlog.
  assert (fs st1 = fs st) as Hfs1.
  { change (fs st1) with (fs (deliver (Success result) st0)).
    unfold deliver, clear_selection, update_all_dir_tree_checkboxes,
      select_all_suggestions. simpl. exact Hfs. }
  assert (root_directory st1 = root_directory st) as Hroot.
  { destruct (browses_keeps clear_selection
                (select_all_suggestions
                   (suggest_all result (selected_items st0) st0)) browses_clear)
      as (_ & _ & _ & _ & _ & Hr).
    change (root_directory st1) with
      (root_directory (deliver (Success result) st0)).
    unfold deliver. fold (suggest_all result (selected_items st0) st0).
    rewrite Hr. simpl. by rewrite suggest_all_root. }
  assert (selected_rows st1 = results_tree st1) as Hall.
  { unfold selected_rows. change (results_tree st1) with
      (results_tree (deliver (Success result) st0)). rewrite Hrows.
    apply filter_all, Forall_forall. by intros r (? & -> & _)%list_elem_of_fmap. }
  destruct (decide (results_tree st1 = [])) as [E|E].
  - unfold apply_renames. fold (selected_rows st1). rewrite Hall, E.
    split_and!; [exact Hfs1|exact Hsel1|].
    change (log (log_effect ?e st1)) with (log st1 ++ [e]).
    by rewrite Hlog1, <-app_assoc.
  - destruct (apply_renames_log st1) as (Hl & Hf & Hs); [by rewrite Hall|].
    assert (apply_rows (selected_rows st1) (st1, 0, 0) = (st1, 0, 0)) as Hnone.
    { apply apply_rows_unresolved, Forall_forall. intros r _. by rewrite Hsel1. }
    rewrite Hnone in Hl, Hf, Hs.
    cbn [fst snd] in Hl, Hf, Hs.
    change (summary 0 0) with [showinfo "Info" "No items needed renaming."] in Hl.
    rewrite Hl, Hf, Hs, Hlog1, Hfs1, Hsel1.
    split_and!; [done..|]. rewrite <-!app_assoc. do 3 f_equal.
    unfold listing_warning. by rewrite Hfs1, Hroot.
Qed.

End ApplyAfterDelivery.

Lemma apply_after_delivery_witness :
  let st := Toy.partial_reply in
  snd (result_queue st) = [Success {[ "a.txt" := "a2.txt" ]}]
  ∧ selected_items st = [("/r/a.txt", false); ("/r/b.txt", false)]
  ∧ fs (apply_renames (_check_ai_thread st)) = Toy.disk0
  ∧ selected_items (apply_renames (_check_ai_thread st)) = [].
Proof.
  intros st.
  assert (snd (result_queue st) = Success {[ "a.txt" := "a2.txt" ]} :: [])
    as Hq by (vm_compute; reflexivity).
  destruct (apply_after_delivery st _ _ Hq) as (Hfs & Hsel & _).
  split_and!; [exact Hq|vm_compute; reflexivity| |exact Hsel].
  etrans; [exact Hfs|]. vm_compute. reflexivity.
Defined.

(** ** The text the worker parses *)

(** [strip] takes the blanks of Unicode: a no-break space before an object
    and a next-line character after it are stripped. *)
Lemma strip_unicode_blanks :
  strip (utf8 160 +:+ " {} " +:+ utf8 133) = "{}"
  ∧ startswith_char "{" (strip (utf8 160 +:+ "{}")) = true.
Proof. split; vm_compute; reflexivity. Qed.

Lemma lstrip_brace r : lstrip (String "{" r) = String "{" r.
Proof. destruct r; reflexivity. Qed.

Lemma rstrip_brace r : rstrip (String "{" r) = String "{" (rstrip r).
Proof.
  change (rstrip (String "{" r))
    with (if blank (String "{" r) then EmptyString else String "{" (rstrip r)).
  unfold blank. by rewrite lstrip_brace.
Qed.

Lemma extract_json_starts text payload :
  extract_json text = inr payload -> startswith_char "{" (strip payload) = true.
Proof.
  unfold extract_json.
  destruct (startswith_char "{" (strip text)) eqn:E; simpl.
  - by intros [= <-].
  - pose proof (re_search_braces_spec text) as Hs.
    destruct (re_search_braces text) as [group1|]; [|done]. intros [= <-].
    destruct Hs as (pre & mid & post & _ & -> & _). unfold strip.
    by rewrite sapp_cons, lstrip_brace, rstrip_brace.
Qed.

Section ParsedText.
Context `{!Runtime}.

(** X4.  [json.loads] is the only source of suggestions, and it is only
    given an object to parse: whenever the worker puts a result in the queue,
    the call had status 200, its first choice's message had a string as
    content, and the result is what [json.loads] made of a text that starts
    with ['{'] once blanks are stripped. *)
Theorem worker_parses_objects_only reply suggestions_dict :
  _run_ai_request_thread reply = Success suggestions_dict ->
  ∃ response_data text payload,
    reply = post_response 200 (inr response_data)
    ∧ has_content response_data text
    ∧ extract_json text = inr payload
    ∧ startswith_char "{" (strip payload) = true
    ∧ json_loads payload = inr suggestions_dict.
Proof.
  destruct reply as [e|status_code [e|response_data]]; simpl; [done|..].
  - by destruct (status_code =? 200)%Z.
  - destruct (status_code =? 200)%Z eqn:Hs; simpl; [|done].
    apply Z.eqb_eq in Hs as ->.
    destruct (getitem_key response_data "choices") as [?|choices] eqn:H1; [done|].
    destruct (getitem_0 choices) as [?|choice] eqn:H2; [done|].
    destruct (getitem_key choice "message") as [?|message] eqn:H3; [done|].
    destruct (getitem_key message "content") as [?|content] eqn:H4; [done|].
    destruct content as [| | |text| |]; try done.
    destruct (extract_json text) as [?|payload] eqn:H5; [done|].
    destruct (json_loads payload) as [?|d] eqn:H6; [done|]. intros [= <-].
    exists response_data, text, payload.
    split_and!; [done| |done|by eapply extract_json_starts|done].
    by exists choices, choice, message.
Qed.

End ParsedText.

Lemma worker_parses_objects_only_witness :
  ∃ payload,
    extract_json ("Sure: " +:+ Toy.object_text [("a.txt", "a2.txt")]) = inr payload
    ∧ startswith_char "{" (strip payload) = true
    ∧ json_loads payload = inr {[ "a.txt" := "a2.txt" ]}.
Proof.
  destruct (worker_parses_objects_only
              (Toy.reply_with ("Sure: " +:+ Toy.object_text [("a.txt", "a2.txt")]))
              {[ "a.txt" := "a2.txt" ]})
    as (response_data & text & payload & Hreply & Hcontent & Hextract & Hstart & Hloads).
  { vm_compute. reflexivity. }
  exists payload. injection Hreply as <-.
  destruct Hcontent as (choices & choice & message & H1 & H2 & H3 & H4).
  vm_compute in H1. injection H1 as <-.
  vm_compute in H2. injection H2 as <-.
  vm_compute in H3. injection H3 as <-.
  vm_compute in H4. injection H4 as <-.
  exact (conj Hextract (conj Hstart Hloads)).
Defined.

(** ** The list of selected items shows the selection *)

Lemma remove_first_find {A} (f : A -> bool) l y :
  List.find f l = Some y -> l ≡ₚ y :: remove_first f l.
Proof.
  induction l as [|x l IH]; simpl; [done|]. destruct (f x).
  - by intros [= ->].
  - intros E. rewrite (IH E) at 1. apply Permutation_swap.
Qed.

Lemma find_is_Some {A} (f : A -> bool) l x :
  x ∈ l -> f x = true -> is_Some (List.find f l).
Proof.
  intros Hx Hf. induction l as [|y l IH]; simpl; [by apply elem_of_nil in Hx|].
  destruct (f y) eqn:E; [eauto|].
  apply elem_of_cons in Hx as [->|Hx]; [congruence|auto].
Qed.

(** Removing the first entry that has a key, from two lists with the same
    keys. *)
Lemma remove_first_both {A B} (ka : A -> string) (kb : B -> string) n la lb :
  map ka la ≡ₚ map kb lb -> n ∈ map kb lb ->
  map ka (remove_first (fun a => String.eqb (ka a) n) la)
  ≡ₚ map kb (remove_first (fun b => String.eqb (kb b) n) lb).
Proof.
  intros Hperm Hn.
  assert (n ∈ map ka la) as Hn' by by rewrite Hperm.
  apply list_elem_of_fmap in Hn as (b & -> & Hb).
  apply list_elem_of_fmap in Hn' as (a & Ha & Hain).
  destruct (find_is_Some (fun b' => String.eqb (kb b') (kb b)) lb b Hb)
    as [b0 Hb0]; [apply String.eqb_refl|].
  destruct (find_is_Some (fun a' => String.eqb (ka a') (kb b)) la a Hain)
    as [a0 Ha0]; [by apply String.eqb_eq|].
  pose proof (remove_first_find _ _ _ Hb0) as Pb.
  pose proof (remove_first_find _ _ _ Ha0) as Pa.
  apply find_some in Hb0 as [_ Eb%String.eqb_eq].
  apply find_some in Ha0 as [_ Ea%String.eqb_eq].
  apply (fmap_Permutation kb) in Pb. apply (fmap_Permutation ka) in Pa.
  simpl in Pa, Pb. rewrite Ea in Pa. rewrite Eb in Pb.
  apply (Permutation_cons_inv (a := kb b)).
  by rewrite <-Pa, <-Pb.
Qed.

Section Panel.
Context {FS : Type} `{!Filesystem FS} `{!Runtime}.
Implicit Types st : app FS.

Local Ltac unfold_names := unfold names_agree, listed_names, selected_names in *.

Lemma agree_rest st st' :
  items_tree st' = items_tree st -> selected_items st' = selected_items st ->
  names_agree st -> names_agree st'.
Proof. unfold_names. by intros -> ->. Qed.

Lemma agree_add i st : names_agree st -> names_agree (add_tree_item_to_selection i st).
Proof.
  intros Ha. unfold add_tree_item_to_selection.
  destruct (get_full_path st i) as [item_path|]; [|done].
  destruct (tree_item (dir_tree st) i) as [it|]; [|done].
  destruct (negb _); [|done].
  unfold_names. simpl.
  rewrite !map_app. simpl. by rewrite Ha.
Qed.

Lemma agree_remove i st : names_agree st -> names_agree (remove_tree_item_from_selection i st).
Proof.
  intros Ha. unfold remove_tree_item_from_selection.
  destruct (get_full_path st i) as [item_path|]; [|done].
  destruct (path_selected item_path (selected_items st)) eqn:Hsel; [|done].
  apply path_selected_spec in Hsel.
  apply list_elem_of_fmap in Hsel as ([p f] & -> & Hin). simpl in *.
  destruct (find_is_Some (fun e : string * bool => String.eqb (fst e) p)
              (selected_items st) (p, f) Hin (String.eqb_refl _)) as [e He].
  pose proof (remove_first_find _ _ _ He) as Psel.
  apply find_some in He as [_ Ee%String.eqb_eq].
  apply (fmap_Permutation (fun e : string * bool => basename (fst e))) in Psel.
  simpl in Psel. rewrite Ee in Psel.
  assert (basename p ∈ map fst (items_tree st)) as Hlisted.
  { unfold_names. rewrite Ha, Psel.
    apply list_elem_of_here. }
  apply list_elem_of_fmap in Hlisted as (r & Hr & Hrin).
  destruct (find_is_Some (fun r' : string * kind => String.eqb (fst r') (basename p))
              (items_tree st) r Hrin) as [r0 Hr0]; [by apply String.eqb_eq|].
  pose proof (remove_first_find _ _ _ Hr0) as Pitems.
  apply find_some in Hr0 as [_ Er%String.eqb_eq].
  apply (fmap_Permutation fst) in Pitems. simpl in Pitems. rewrite Er in Pitems.
  unfold_names. simpl.
  apply (Permutation_cons_inv (a := basename p)).
  by rewrite <-Pitems, <-Psel.
Qed.

Lemma agree_click i st : names_agree st -> names_agree (on_tree_checkbox_click i st).
Proof.
  intros Ha. unfold on_tree_checkbox_click.
  destruct (tree_item (dir_tree st) i) as [it|]; [|done].
  case_bool_decide.
  - apply agree_remove. by apply (agree_rest st).
  - apply agree_add. by apply (agree_rest st).
Qed.

Lemma agree_select_child i item_path child_name st :
  is_name child_name = true -> names_agree st ->
  names_agree (select_child i item_path child_name st).
Proof.
  intros Hn Ha. unfold select_child. destruct (negb _); [|done].
  set (st1 := set_items_tree _ _).
  assert (names_agree st1) as Ha1.
  { unfold_names. simpl. rewrite !map_app. simpl.
    by rewrite Ha, basename_join. }
  destruct (tree_item (dir_tree st1) i) as [it|]; [|done].
  destruct (child_index child_name (children it)); [|done].
  by apply (agree_rest st1).
Qed.

Lemma agree_select_children names i item_path st :
  Forall (fun n => is_name n = true) names -> names_agree st ->
  names_agree (fold_left (fun st child_name => select_child i item_path child_name st)
           names st).
Proof.
  intros Hn. revert st. induction Hn as [|n names Hn Hns IH]; intros st Ha; [done|].
  simpl. by apply IH, agree_select_child.
Qed.

Lemma agree_select_contents sel st :
  lists_names (fs st) -> names_agree st -> names_agree (select_tree_item_contents sel st).
Proof.
  intros Hfs Ha. unfold select_tree_item_contents.
  destruct sel as [|i _]; [done|].
  destruct (tree_item (dir_tree st) i) as [it|]; [|done].
  destruct (get_full_path st i) as [item_path|]; [|done].
  case_bool_decide; [|done]. cbv zeta. cbn [fs set_dir_tree].
  destruct (os_listdir (fs st) item_path) as [e|names] eqn:Hl.
  - destruct (is_PermissionError e); by apply (agree_rest st).
  - apply agree_select_children; [by eapply Hfs|]. by apply (agree_rest st).
Qed.

Lemma update_checkbox_lists path b st :
  items_tree (update_dir_tree_checkbox path b st) = items_tree st
  ∧ selected_items (update_dir_tree_checkbox path b st) = selected_items st.
Proof. unfold update_dir_tree_checkbox. by case_match. Qed.

Lemma on_folder_expanded_lists i st :
  items_tree (on_folder_expanded i st) = items_tree st
  ∧ selected_items (on_folder_expanded i st) = selected_items st.
Proof.
  unfold on_folder_expanded. repeat case_match; try done.
  unfold populate_directory_subtree. repeat case_match; done.
Qed.

Lemma agree_remove_selected_item k st :
  names_agree st -> names_agree (remove_selected_item k st).
Proof.
  intros Ha. unfold remove_selected_item.
  destruct (items_tree st !! k) as [[item_name item_kind]|] eqn:Hk; [|done].
  pose proof (delete_Permutation _ _ _ Hk) as Pitems.
  apply (fmap_Permutation fst) in Pitems. simpl in Pitems.
  assert (item_name ∈ selected_names st) as Hin.
  { unfold_names. rewrite <-Ha, Pitems. apply list_elem_of_here. }
  apply list_elem_of_fmap in Hin as (e & He & Hein).
  destruct (find_is_Some
              (fun entry : string * bool => String.eqb (basename (fst entry)) item_name)
              (selected_items st) e Hein) as [[path f] Hfind];
    [by apply String.eqb_eq|].
  rewrite Hfind.
  pose proof (remove_first_find _ _ _ Hfind) as Psel.
  apply find_some in Hfind as [_ Ep%String.eqb_eq]. simpl in Ep.
  apply (fmap_Permutation (fun e : string * bool => basename (fst e))) in Psel.
  simpl in Psel. rewrite Ep in Psel.
  set (st1 := set_selected_items _ st).
  destruct (update_checkbox_lists path false st1) as (Hi & Hs).
  unfold_names. cbn [items_tree set_items_tree selected_items].
  rewrite Hi, Hs. subst st1. cbn [items_tree set_selected_items selected_items].
  apply (Permutation_cons_inv (a := item_name)).
  by rewrite <-Pitems, <-Psel.
Qed.

Lemma agree_check st : names_agree st -> names_agree (_check_ai_thread st).
Proof.
  intros Ha. destruct (snd (result_queue st)) as [|result rest] eqn:E.
  - rewrite check_ai_thread_empty by done. by apply (agree_rest st).
  - rewrite (check_ai_thread_drain st result rest E).
    destruct result as [result|e].
    + set (st0 := log_effect _ _).
      destruct (deliver_success st0 result) as (Hsel & Hitems & _).
      unfold_names.
      cbn [items_tree selected_items set_apply_button set_suggestions_button
           set_status_label]. by rewrite Hsel, Hitems.
    + by apply (agree_rest st).
Qed.

Lemma agree_get st : names_agree st -> names_agree (get_ai_suggestions st).
Proof.
  intros Ha. unfold get_ai_suggestions.
  destruct (selected_items st) eqn:E; [by apply (agree_rest st)|].
  apply agree_check. apply (agree_rest st); [done| |done]. by rewrite E.
Qed.

Lemma populate_directory_tree_returns st :
  root_listed st = true -> (populate_directory_tree st).1 = None.
Proof.
  unfold root_listed, populate_directory_tree, populate_directory_subtree.
  cbn [fs set_dir_tree].
  destruct (os_listdir (fs st) (root_directory st)) as [e|names]; [|done].
  by intros ->.
Qed.

Lemma agree_apply st : refreshes st -> names_agree st -> names_agree (apply_renames st).
Proof.
  intros Hroot Ha. destruct (decide (selected_rows st = [])) as [E|E].
  - unfold apply_renames. unfold selected_rows in E. rewrite E.
    by apply (agree_rest st).
  - rewrite (apply_renames_unfold st E). cbv zeta.
    rewrite populate_directory_tree_returns by exact Hroot.
    unfold_names.
    cbn [items_tree selected_items set_items_tree].
    rewrite map_map. simpl. done.
Qed.

Lemma agree_step st e :
  lists_names (fs st) -> refreshes st -> names_agree st -> names_agree (step e st).
Proof.
  intros Hfs Hroot Ha. destruct e; cbn [step];
    try (by apply (agree_rest st)).
  - by apply agree_click.
  - apply agree_add. by apply (agree_rest st).
  - apply agree_remove. by apply (agree_rest st).
  - by apply agree_select_contents.
  - destruct (on_folder_expanded_lists i
                (set_dir_tree (tree_alter (set_is_open true) i (dir_tree st)) st))
      as (Hi & Hs).
    by apply (agree_rest st).
  - by apply agree_remove_selected_item.
  - unfold_names. done.
  - destruct (reject_keeps st) as (Hs & _ & Hi). by apply (agree_rest st).
  - case_bool_decide; [by apply agree_get|done].
  - case_bool_decide; [by apply agree_apply|done].
  - case_bool_decide; [|done]. case_match; by apply (agree_rest st).
  - destruct (timers st); [done|]. apply agree_check. by apply (agree_rest st).
Qed.

Lemma agree_run events st :
  Forall (fun st' => lists_names (fs st') ∧ refreshes st') (visited events st) ->
  names_agree st -> names_agree (run events st).
Proof.
  revert st. induction events as [|e events IH]; intros st Hfs Ha; [done|].
  simpl in *. apply Forall_cons in Hfs as [[Hfs Hroot] Hrest].
  apply IH; [done|]. by apply agree_step.
Qed.

End Panel.

(** X5.  The list of selected items shows the selection as long as "Apply
    Renames" gets to refresh it: whatever the user, the worker and the timer
    do, the names in [items_tree] are the basenames of the entries of
    [selected_items], each as often as it is selected.  The disks the
    session goes through are assumed to list names only and, after the batch
    that "Apply Renames" would run in the states on the way, to list the
    root directory or refuse it with [PermissionError].  Any other exception
    of that listing leaves [apply_renames] before the list is refreshed:
    when the root folder itself is renamed from [r] to [r2], the listing of
    [/r] raises [FileNotFoundError], and the list still shows [r] for the
    selected [/r2]. *)
Theorem selected_items_listed :
  (∀ FS (Hfs : Filesystem FS) (Hrt : Runtime) (st : app FS) events,
     names_agree st ->
     Forall (fun st' => lists_names (fs st') ∧ refreshes st') (visited events st) ->
     names_agree (run events st))
  ∧ (let st :=
       run [click_checkbox []; click_get_suggestions;
            worker_done 1 (Toy.reply_with (Toy.object_text [("r", "r2")]));
            timer_fired; click_checkbox []]
         Toy.session0 in
     names_agree st ∧ lists_names (fs st) ∧ ¬ refreshes st
     ∧ listed_names (step click_apply st) = ["r"]
     ∧ selected_names (step click_apply st) = ["r2"]
     ∧ ¬ names_agree (step click_apply st)).
Proof.
  split; [intros FS Hfs Hrt st events Ha Hv; by apply agree_run|].
  intros st.
  assert (listed_names (step click_apply st) = ["r"]) as Hl
    by (vm_compute; reflexivity).
  assert (selected_names (step click_apply st) = ["r2"]) as Hs
    by (vm_compute; reflexivity).
  split_and!; [|apply toy_lists_names; vm_compute; reflexivity| |done|done|].
  - unfold names_agree.
    assert (listed_names st = ["r"]) as -> by (vm_compute; reflexivity).
    assert (selected_names st = ["r"]) as -> by (vm_compute; reflexivity).
    done.
  - unfold refreshes.
    assert (root_listed (apply_rows (selected_rows st) (st, 0, 0)).1.1 = false)
      as -> by (vm_compute; reflexivity).
    done.
  - unfold names_agree. rewrite Hl, Hs.
    intros Hp%Permutation_singleton_l. discriminate.
Qed.

Lemma selected_items_listed_witness :
  let events := [click_checkbox [1]; menu_select_contents [0];
                 menu_remove_from_selection 0; click_checkbox [2]] in
  names_agree (run events Toy.session0)
  ∧ listed_names (run events Toy.session0) = ["c.txt"; "b.txt"]
  ∧ selected_items (run events Toy.session0)
    = [("/r/d/c.txt", false); ("/r/b.txt", false)].
Proof.
  intros events. split_and!; [|vm_compute; reflexivity..].
  apply (proj1 selected_items_listed).
  - vm_compute. constructor.
  - subst events. cbn [visited].
    repeat (constructor;
            [split; [apply toy_lists_names|unfold refreshes]; vm_compute; reflexivity|]).
    constructor.
Defined.

(** ** The apply button while a request is outstanding *)

Section ApplyButton.
Context {FS : Type} `{!Filesystem FS} `{!Runtime}.
Implicit Types st : app FS.

Lemma reject_row_buttons (r : row) st :
  suggestions_button (reject_row r st) = suggestions_button st
  ∧ apply_button (reject_row r st) = apply_button st.
Proof.
  unfold reject_row.
  destruct (_convert_stringval (Original r)) as [name|k]; [|done].
  cbn [cell_in]. case_bool_decide; [|done]. rewrite resolve_cell_text.
  destruct (resolve name (selected_items st)) as [[p f]|] eqn:Hr; [|done].
  by rewrite (resolve_selected _ _ _ _ Hr).
Qed.

Lemma reject_buttons st :
  suggestions_button (reject_selected_suggestions st) = suggestions_button st
  ∧ apply_button (reject_selected_suggestions st) = apply_button st.
Proof.
  unfold reject_selected_suggestions.
  destruct (filter _ _) as [|r rows]; [done|]. generalize (r :: rows). clear.
  intros rows. revert st. induction rows as [|r rows IH]; intros st; [done|].
  simpl. destruct (IH (reject_row r st)) as (-> & ->). apply reject_row_buttons.
Qed.

Lemma check_buttons st :
  apply_button st = suggestions_button st ->
  apply_button (_check_ai_thread st) = suggestions_button (_check_ai_thread st).
Proof.
  intros Hb. destruct (snd (result_queue st)) as [|result rest] eqn:E.
  - by rewrite check_ai_thread_empty by done.
  - by rewrite (check_ai_thread_drain st result rest E).
Qed.

Lemma buttons_step st e :
  apply_button st = suggestions_button st ->
  apply_button (step e st) = suggestions_button (step e st).
Proof.
  intros Hb.
  assert (∀ h : app FS -> app FS, browses h ->
            apply_button (h st) = suggestions_button (h st)) as Hbrowse.
  { intros h Hh. destruct (browses_keeps h st Hh) as (_ & _ & _ & -> & -> & _).
    done. }
  destruct e; cbn [step];
    first [ done
          | apply Hbrowse;
            first [ apply browses_click | apply browses_select_item
                  | apply browses_deselect_item | apply browses_select_contents
                  | apply browses_remove_selected_item ]
          | idtac ].
  - apply (Hbrowse (fun st => on_folder_expanded i (expand_tree_item [i] st))).
    apply (browses_compose _ _ (browses_on_folder_expanded i) (browses_expand [i])).
  - by destruct (reject_buttons st) as (-> & ->).
  - case_bool_decide; [|done]. unfold get_ai_suggestions.
    destruct (selected_items st); [done|]. by apply check_buttons.
  - case_bool_decide; [|done]. apply Hbrowse, browses_apply.
  - case_bool_decide; [|done]. by case_match.
  - destruct (timers st); [done|]. by apply check_buttons.
Qed.

Lemma buttons_run events st :
  apply_button st = suggestions_button st ->
  apply_button (run events st) = suggestions_button (run events st).
Proof.
  revert st. induction events as [|e events IH]; intros st Hb; [done|].
  simpl. by apply IH, buttons_step.
Qed.

(** X6.  The apply button follows the suggestions button.  From a session
    with no request outstanding and both buttons enabled, whatever happens:
    while a request is outstanding "Apply Selected Renames" is disabled and
    a click on it does nothing, so no rename starts between a request and
    its outcome; with no request outstanding it is enabled. *)
Theorem apply_waits_for_request st0 events :
  idle st0 -> issued_count st0 = drained_count st0 ->
  apply_button st0 = NORMAL ->
  let st := run events st0 in
  (pending st = 1 -> apply_button st = DISABLED ∧ step click_apply st = st)
  ∧ (pending st = 0 -> apply_button st = NORMAL).
Proof.
  intros Hidle Hcount Hb st.
  assert (single_flight st) as Hsf.
  { apply single_flight_run. split; [|by left].
    destruct Hidle as (_ & Hw & Hq & _). unfold pending. rewrite Hw, Hq.
    simpl. lia. }
  assert (apply_button st = suggestions_button st) as Hsame.
  { apply buttons_run. destruct Hidle as (-> & _). done. }
  destruct Hsf as (_ & [(Hs & Hw & Hq & _)|(Hd & _ & Hcase)]).
  - unfold pending. rewrite Hw, Hq. simpl. split; [done|].
    intros _. by rewrite Hsame.
  - assert (pending st = 1) as Hp.
    { unfold pending. destruct Hcase as [(-> & ->)|(-> & o & ->)]; done. }
    rewrite Hp. split; [|done]. intros _.
    assert (apply_button st = DISABLED) as Ha by by rewrite Hsame.
    split; [done|]. cbn [step]. by rewrite bool_decide_eq_false_2 by by rewrite Ha.
Qed.

End ApplyButton.

Lemma apply_waits_for_request_witness :
  let st := run Toy.busy_events Toy.session0 in
  pending st = 1 ∧ apply_button st = DISABLED ∧ step click_apply st = st.
Proof.
  intros st.
  assert (pending st = 1) as Hp by (vm_compute; reflexivity).
  destruct (apply_waits_for_request Toy.session0 Toy.busy_events) as (Hbusy & _).
  - vm_compute. repeat split.
  - vm_compute. reflexivity.
  - vm_compute. reflexivity.
  - exact (conj Hp (Hbusy Hp)).
Defined.

(** ** Finding the item of a path *)

Lemma find_item_by_path_unfold path node current_path :
  find_item_by_path path node current_path
  = if String.eqb current_path path then Some []
    else if bool_decide (item_type node = Folder) && is_open node
         then find_in_children path current_path (children node) 0
         else None.
Proof. by destruct node. Qed.

(** What the loop over the children returns is what the search below the
    first child that has a result returns. *)
Lemma find_in_children_Some path r cs k0 j :
  find_in_children path r cs k0 = Some j ->
  ∃ k c res,
    j = (k0 + k) :: res ∧ cs !! k = Some c
    ∧ find_item_by_path path c (join r (text c)) = Some res.
Proof.
  revert k0. induction cs as [|c cs IH]; intros k0; simpl; [done|].
  destruct (find_item_by_path path c (join r (text c))) as [res|] eqn:E.
  - intros [= <-]. exists 0, c, res. by rewrite Nat.add_0_r.
  - intros (k & c' & res & -> & Hc & Hres)%IH.
    exists (S k), c', res. split_and!; [f_equal; lia|done..].
Qed.

Lemma find_in_children_is_Some path r cs k0 k c :
  cs !! k = Some c ->
  is_Some (find_item_by_path path c (join r (text c))) ->
  is_Some (find_in_children path r cs k0).
Proof.
  revert k0 k. induction cs as [|c0 cs IH]; intros k0 k; simpl; [done|].
  destruct (find_item_by_path path c0 (join r (text c0))) eqn:E; [eauto|].
  destruct k as [|k]; simpl.
  - intros [= ->]. rewrite E. by intros [? ?].
  - eauto.
Qed.

Lemma find_item_by_path_sound path t r i :
  find_item_by_path path t r = Some i ->
  visible t i = true ∧ full_path_from t r i = Some path.
Proof.
  revert t r. induction i as [|k i IH]; intros t r;
    rewrite find_item_by_path_unfold.
  - destruct (String.eqb r path) eqn:E.
    + apply String.eqb_eq in E as ->. done.
    + destruct (_ && _); [|done].
      by intros (? & ? & ? & ? & _)%find_in_children_Some.
  - destruct (String.eqb r path); [done|].
    destruct (bool_decide (item_type t = Folder) && is_open t) eqn:Hopen; [|done].
    intros (k' & c & res & [= -> ->] & Hc & Hres)%find_in_children_Some.
    simpl. rewrite Hopen, Hc. simpl. by apply IH.
Qed.

Lemma find_item_by_path_is_Some path t r i :
  visible t i = true -> full_path_from t r i = Some path ->
  is_Some (find_item_by_path path t r).
Proof.
  revert t r. induction i as [|k i IH]; intros t r Hv Hp;
    rewrite find_item_by_path_unfold.
  - simpl in Hp. injection Hp as ->. rewrite String.eqb_refl. eauto.
  - destruct (String.eqb r path); [eauto|]. simpl in Hv, Hp.
    destruct (bool_decide (item_type t = Folder) && is_open t); [|done].
    destruct (children t !! k) as [c|] eqn:Hc; [|done]. simpl in Hv.
    eapply find_in_children_is_Some; [exact Hc|]. by eapply IH.
Qed.

(** In a well-named tree the search returns the position of the item that
    has the path, when this item can be reached through open folders. *)
Lemma find_item_by_path_complete path t r i :
  well_named t -> visible t i = true -> full_path_from t r i = Some path ->
  find_item_by_path path t r = Some i.
Proof.
  intros Hw Hv Hp.
  destruct (find_item_by_path_is_Some path t r i Hv Hp) as [j Hj].
  rewrite Hj. f_equal.
  destruct (find_item_by_path_sound path t r j Hj) as [_ Hpj].
  by eapply full_path_inj.
Qed.

Section UpdateCheckbox.
Context {FS : Type} `{!Filesystem FS} `{!Runtime}.
Implicit Types st : app FS.

(** X7.  [update_dir_tree_checkbox] reaches the items that can be reached
    through open folders, and only them.  In a tree whose sibling items
    have distinct names: when such an item has the path, its checkbox is
    set, and nothing else changes; when no such item has the path (the item
    lies in a folder that is closed, or was never loaded), the session is
    left as it is. *)
Theorem checkbox_update_reaches_visible_items st path is_selected :
  well_named (dir_tree st) ->
  (∀ i, visible (dir_tree st) i = true -> get_full_path st i = Some path ->
        update_dir_tree_checkbox path is_selected st
        = dir_tree_set i (box_of is_selected) st)
  ∧ ((∀ i, visible (dir_tree st) i = true -> get_full_path st i ≠ Some path) ->
     update_dir_tree_checkbox path is_selected st = st).
Proof.
  intros Hw. unfold update_dir_tree_checkbox, get_full_path. split.
  - intros i Hv Hp. by rewrite (find_item_by_path_complete path _ _ i Hw Hv Hp).
  - intros Hnone.
    destruct (find_item_by_path path (dir_tree st) (root_directory st))
      as [j|] eqn:Hj; [|done].
    destruct (find_item_by_path_sound _ _ _ _ Hj) as [Hv Hp].
    by destruct (Hnone j Hv).
Qed.

End UpdateCheckbox.

Lemma checkbox_update_reaches_visible_items_witness :
  let st := run [open_folder [0]; click_checkbox [0; 0]] Toy.session0 in
  get_full_path st [0; 0] = Some "/r/d/c.txt"
  ∧ (selected <$> tree_item (dir_tree (update_dir_tree_checkbox "/r/d/c.txt" false st))
                    [0; 0]) = Some Unchecked
  ∧ update_dir_tree_checkbox "/r/d/c.txt" false (step (close_folder [0]) st)
    = step (close_folder [0]) st.
Proof.
  intros st.
  assert (well_named (dir_tree st)) as Hw.
  { apply well_namedb_sound. vm_compute. reflexivity. }
  assert (well_named (dir_tree (step (close_folder [0]) st))) as Hw'.
  { apply well_namedb_sound. vm_compute. reflexivity. }
  destruct (checkbox_update_reaches_visible_items st "/r/d/c.txt" false Hw)
    as (Hset & _).
  destruct (checkbox_update_reaches_visible_items (step (close_folder [0]) st)
              "/r/d/c.txt" false Hw') as (_ & Hskip).
  split_and!.
  - vm_compute. reflexivity.
  - rewrite (Hset [0; 0]); vm_compute; reflexivity.
  - apply Hskip. intros i Hv Hp.
    destruct (find_item_by_path_is_Some "/r/d/c.txt" _ _ i Hv Hp) as [j Hj].
    vm_compute in Hj. discriminate.
Defined.

(** ** The order of a listing *)

Lemma ascii_compare_refl c : Ascii.compare c c = Eq.
Proof. apply N.compare_refl. Qed.

Lemma ascii_compare_lt_trans a b c :
  Ascii.compare a b = Lt -> Ascii.compare b c = Lt -> Ascii.compare a c = Lt.
Proof.
  unfold Ascii.compare. rewrite !N.compare_lt_iff. apply N.lt_trans.
Qed.

Lemma string_compare_refl s : String.compare s s = Eq.
Proof.
  induction s as [|c s IH]; simpl; [done|]. by rewrite ascii_compare_refl.
Qed.

Lemma string_compare_lt_trans a b c :
  String.compare a b = Lt -> String.compare b c = Lt -> String.compare a c = Lt.
Proof.
  revert b c. induction a as [|x a IH]; intros [|y b] [|z c]; simpl; try done.
  destruct (Ascii.compare x y) eqn:Exy; [|intros _|done].
  - apply Ascii.compare_eq_iff in Exy as ->.
    destruct (Ascii.compare y z); [apply IH|done..].
  - destruct (Ascii.compare y z) eqn:Eyz; [|intros _|done].
    + apply Ascii.compare_eq_iff in Eyz as ->. by rewrite Exy.
    + by rewrite (ascii_compare_lt_trans x y z Exy Eyz).
Qed.

Lemma string_ltb_asym a b : String.ltb a b = true -> String.ltb b a = false.
Proof.
  unfold String.ltb. rewrite (String.compare_antisym a b).
  by destruct (String.compare b a).
Qed.

(** Of three strings, one that is less than another is less than the one
    in the middle, or the one in the middle is less than the other. *)
Lemma string_ltb_between a b c :
  String.ltb c a = true -> String.ltb c b = true ∨ String.ltb b a = true.
Proof.
  unfold String.ltb. intros Hca.
  destruct (String.compare c b) eqn:Ecb; [right|by left|right].
  - apply String.compare_eq_iff in Ecb as <-. done.
  - assert (String.compare b c = Lt) as Ebc.
    { rewrite String.compare_antisym, Ecb. done. }
    destruct (String.compare c a) eqn:Eca; try done.
    by rewrite (string_compare_lt_trans b c a Ebc Eca).
Qed.

Lemma key_lt_asym k1 k2 : key_lt k1 k2 = true -> key_lt k2 k1 = false.
Proof.
  destruct k1 as [[] s1], k2 as [[] s2]; unfold key_lt; simpl; try done;
    apply string_ltb_asym.
Qed.

Lemma key_lt_between k1 k2 k3 :
  key_lt k3 k1 = true -> key_lt k3 k2 = true ∨ key_lt k2 k1 = true.
Proof.
  destruct k1 as [[] s1], k2 as [[] s2], k3 as [[] s3]; unfold key_lt; simpl;
    try done; try (by left); try (by right); apply string_ltb_between.
Qed.

Lemma key_le_trans k1 k2 k3 :
  key_lt k2 k1 = false -> key_lt k3 k2 = false -> key_lt k3 k1 = false.
Proof.
  intros H1 H2. destruct (key_lt k3 k1) eqn:E; [|done].
  destruct (key_lt_between k1 k2 k3 E); congruence.
Qed.

Section InsertionSort.
Context {A : Type} (key : A -> bool * string).

Lemma insert_sorted_Permutation x l : insert_sorted key x l ≡ₚ x :: l.
Proof.
  induction l as [|y l IH]; simpl; [done|].
  destruct (key_lt (key x) (key y)); [done|].
  rewrite IH. apply Permutation_swap.
Qed.

Lemma insert_sorted_sorted x l :
  StronglySorted (key_le key) l -> StronglySorted (key_le key) (insert_sorted key x l).
Proof.
  induction 1 as [|y l Hl IH Hy]; simpl.
  - repeat constructor.
  - destruct (key_lt (key x) (key y)) eqn:E.
    + constructor; [by constructor|]. constructor.
      * by apply key_lt_asym.
      * eapply Forall_impl; [exact Hy|]. intros z Hz. unfold key_le in *.
        eapply key_le_trans; [|exact Hz]. by apply key_lt_asym.
    + constructor; [done|].
      rewrite insert_sorted_Permutation. by constructor.
Qed.

Lemma sort_by_from acc l :
  StronglySorted (key_le key) acc ->
  let sorted := fold_left (fun acc x => insert_sorted key x acc) l acc in
  sorted ≡ₚ acc ++ l ∧ StronglySorted (key_le key) sorted.
Proof.
  revert acc. induction l as [|x l IH]; intros acc Hacc; simpl.
  - by rewrite app_nil_r.
  - destruct (IH (insert_sorted key x acc)) as [Hp Hs];
      [by apply insert_sorted_sorted|].
    split; [|done]. rewrite Hp, insert_sorted_Permutation.
    simpl. apply Permutation_middle.
Qed.

Lemma sort_by_sorted l : sort_by key l ≡ₚ l ∧ StronglySorted (key_le key) (sort_by key l).
Proof. apply (sort_by_from [] l). constructor. Qed.

End InsertionSort.

Lemma StronglySorted_lookup {A} (R : A -> A -> Prop) l k1 k2 a b :
  StronglySorted R l -> k1 < k2 -> l !! k1 = Some a -> l !! k2 = Some b -> R a b.
Proof.
  intros Hs. revert k1 k2. induction Hs as [|x l Hl IH Hx]; intros k1 k2 Hk; [done|].
  destruct k2 as [|k2]; [lia|]. destruct k1 as [|k1]; simpl.
  - intros [= ->] Hb. eapply (Forall_forall (R a)); [exact Hx|].
    by eapply list_elem_of_lookup_2.
  - apply IH. lia.
Qed.

Section Listing.
Context {FS : Type} `{!Filesystem FS} `{!Runtime}.
Implicit Types st : app FS.

Lemma kind_of_Folder b : bool_decide (kind_of b = Folder) = b.
Proof. by destruct b. Qed.

(** X8.  The items [populate_directory_subtree] inserts for a listing are
    the listed names, each once for each time it is listed, with the
    folders first and, among the folders and among the files, in the order
    of the names in lower case: no item comes before an item whose key
    [(not a folder, lowered name)] is smaller, and no file comes before a
    folder. *)
Theorem listing_order st parent_path items :
  let new := new_items st parent_path items in
  map text new ≡ₚ items
  ∧ (∀ k1 k2 a b,
       k1 < k2 -> new !! k1 = Some a -> new !! k2 = Some b ->
       listed_before a b
       ∧ (item_type b = Folder -> item_type a = Folder)).
Proof.
  intros new. subst new. unfold new_items.
  set (key := fun x => (os_path_isdir (fs st) (join parent_path x), str_lower x)).
  destruct (sort_by_sorted key items) as [Hp Hs].
  set (mk := fun name => Item name _ _ false _).
  assert (∀ name, item_key (mk name) = key name) as Hkey.
  { intros name. unfold item_key, mk, key. simpl. by rewrite kind_of_Folder. }
  split.
  - rewrite map_map. simpl. by rewrite map_id.
  - intros k1 k2 a b Hk Ha Hb.
    rewrite list_lookup_fmap in Ha, Hb.
    destruct (sort_by key items !! k1) as [n1|] eqn:H1; [|done].
    destruct (sort_by key items !! k2) as [n2|] eqn:H2; [|done].
    simpl in Ha, Hb. injection Ha as <-. injection Hb as <-.
    pose proof (StronglySorted_lookup _ _ _ _ _ _ Hs Hk H1 H2) as Hle.
    unfold key_le in Hle. simpl in Hle. unfold listed_before, key_le. rewrite !Hkey. split; [done|].
    unfold mk at 1 2. simpl. unfold key, key_lt in Hle. simpl in Hle.
    destruct (os_path_isdir (fs st) (join parent_path n1)),
      (os_path_isdir (fs st) (join parent_path n2)); done.
Qed.

End Listing.

Lemma listing_order_witness :
  map text (new_items Toy.session0 "/r" ["b.txt"; "d"; "a.txt"])
  = ["d"; "a.txt"; "b.txt"]
  ∧ listed_before (Item "d" Unchecked Folder false [placeholder])
      (Item "a.txt" Unchecked File false []).
Proof.
  split; [vm_compute; reflexivity|].
  destruct (listing_order Toy.session0 "/r" ["b.txt"; "d"; "a.txt"]) as (_ & Hord).
  refine (proj1 (Hord 0 1 _ _ _ _ _)); [lia|vm_compute; reflexivity..].
Defined.

(** ** Boxes and selection, with folders loaded on demand *)

(** *** Replacing the items below an item *)

Lemma list_alter_twice {A} (f g h : A -> A) k (l : list A) :
  (∀ x, f (g x) = h x) -> alter f k (alter g k l) = alter h k l.
Proof.
  intros Hh. revert k. induction l as [|x l IH]; intros [|k]; [done..| |].
  - change (f (g x) :: l = h x :: l). by rewrite Hh.
  - change (x :: alter f k (alter g k l) = x :: alter h k l). by rewrite IH.
Qed.

Lemma tree_alter_compose f g i t :
  tree_alter f i (tree_alter g i t) = tree_alter (fun u => f (g u)) i t.
Proof.
  revert t. induction i as [|k i IH]; intros t; [done|].
  destruct t as [tx s ty o cs]. simpl. unfold set_children. simpl. f_equal.
  apply list_alter_twice. intros c. apply IH.
Qed.

Lemma tree_alter_ext f g i t :
  (∀ u, f u = g u) -> tree_alter f i t = tree_alter g i t.
Proof.
  intros Hfg. revert t. induction i as [|k i IH]; intros t; simpl; [done|].
  f_equal. apply list_alter_ext; [|done]. intros c _. apply IH.
Qed.

Lemma tree_alter_keeps_text f i t :
  (∀ u, text (f u) = text u) -> text (tree_alter f i t) = text t.
Proof. intros Hf. destruct i; simpl; [apply Hf|done]. Qed.

Lemma tree_item_alter_below f i t rest it0 :
  tree_item t i = Some it0 ->
  tree_item (tree_alter f i t) (i ++ rest) = tree_item (f it0) rest.
Proof.
  revert t. induction i as [|k i IH]; intros t Hi; simpl in *.
  - by simplify_eq.
  - rewrite list_lookup_alter_eq.
    destruct (children t !! k) as [c|]; [|done]. simpl. by apply IH.
Qed.

Lemma full_path_alter_at f i t r :
  (∀ u, text (f u) = text u) ->
  full_path_from (tree_alter f i t) r i = full_path_from t r i.
Proof.
  intros Hf. revert t r. induction i as [|k i IH]; intros t r; simpl; [done|].
  rewrite list_lookup_alter_eq.
  destruct (children t !! k) as [c|]; [|done]. simpl.
  by rewrite tree_alter_keeps_text, IH.
Qed.

(** Away from the item that is changed, names, boxes and the names of the
    items below stay. *)
Lemma tree_alter_elsewhere f i t j :
  (∀ u, text (f u) = text u ∧ selected (f u) = selected u) ->
  ¬ i `prefix_of` j ->
  names_at (tree_alter f i t) j = names_at t j
  ∧ (selected <$> tree_item (tree_alter f i t) j) = (selected <$> tree_item t j)
  ∧ child_names (tree_alter f i t) j = child_names t j.
Proof.
  intros Hf. revert i t. induction j as [|kj j IH]; intros i t Hpre.
  - destruct i as [|k i]; [destruct Hpre; apply prefix_nil|]. simpl.
    split_and!; [done|done|]. unfold child_names. simpl. f_equal.
    apply fmap_alter_same. intros c. apply tree_alter_keeps_text.
    intros u. apply Hf.
  - destruct i as [|k i]; [destruct Hpre; apply prefix_nil|].
    unfold child_names. simpl. destruct (decide (k = kj)) as [->|Hk].
    + rewrite list_lookup_alter_eq.
      destruct (children t !! kj) as [c|]; [|done]. simpl.
      destruct (IH i c) as (H1 & H2 & H3).
      { intros Hp. apply Hpre. by apply prefix_cons. }
      rewrite tree_alter_keeps_text, H1 by (intros u; apply Hf).
      split_and!; [done|done|]. exact H3.
    + by rewrite list_lookup_alter_ne by done.
Qed.

Lemma placeholder_below rest it :
  tree_item placeholder rest = Some it -> rest = [] ∧ it = placeholder.
Proof. destruct rest as [|k rest]; simpl; [by intros [= <-]|done]. Qed.

Lemma fresh_item_below path ps c rest it :
  fresh_item path ps c -> tree_item c rest = Some it ->
  (rest = [] ∧ it = c) ∨ it = placeholder.
Proof.
  intros [_ Hc]. destruct rest as [|k rest]; simpl; [intros [= <-]; by left|].
  destruct Hc as [->| ->]; [done|].
  destruct k as [|k]; simpl; [|done].
  intros [_ ->]%placeholder_below. by right.
Qed.

Lemma boxes_synced_children t r ps i it0 path cs :
  boxes_synced t r ps ->
  tree_item t i = Some it0 -> full_path_from t r i = Some path ->
  Forall (fresh_item path ps) cs ->
  boxes_synced (tree_alter (set_children cs) i t) r ps.
Proof.
  intros Hs Hi Hp Hcs j it' p' Hj Hp' Hbox.
  assert (∀ u, text (set_children cs u) = text u
               ∧ selected (set_children cs u) = selected u) as Hf by done.
  destruct (decide (i `prefix_of` j)) as [[rest ->]|Hpre].
  - rewrite (tree_item_alter_below _ _ _ rest it0 Hi) in Hj.
    destruct rest as [|k rest].
    + rewrite app_nil_r in Hp'. simpl in Hj. injection Hj as <-.
      rewrite full_path_alter_at in Hp' by done.
      rewrite Hp in Hp'. injection Hp' as <-. by apply (Hs i it0).
    + simpl in Hj. destruct (cs !! k) as [c|] eqn:Hc; [|done].
      pose proof (Forall_lookup_1 _ _ _ _ Hcs Hc) as Hfresh.
      destruct (fresh_item_below _ _ _ _ _ Hfresh Hj) as [[-> ->]| ->]; [|done].
      assert (tree_item (tree_alter (set_children cs) i t) (i ++ [k]) = Some c)
        as Hik.
      { rewrite (tree_item_alter_below _ _ _ [k] it0 Hi). simpl. by rewrite Hc. }
      rewrite (full_path_snoc _ _ _ _ c path) in Hp';
        [|by rewrite full_path_alter_at|done].
      injection Hp' as <-. apply Hfresh.
  - destruct (tree_alter_elsewhere (set_children cs) i t j Hf Hpre)
      as (Hn & Hsel & _).
    rewrite full_path_names, Hn, <-full_path_names in Hp'.
    rewrite Hj in Hsel. destruct (tree_item t j) as [it1|] eqn:Hj1; [|done].
    injection Hsel as Hsel. rewrite Hsel in *. by apply (Hs j it1).
Qed.

Lemma well_named_children t i it0 cs path ps :
  well_named t -> tree_item t i = Some it0 ->
  NoDup (map text cs) -> Forall (fun c => is_name (text c) = true) cs ->
  Forall (fresh_item path ps) cs ->
  well_named (tree_alter (set_children cs) i t).
Proof.
  intros Hw Hi Hnd Hnames Hcs j it' Hj.
  assert (∀ u, text (set_children cs u) = text u
               ∧ selected (set_children cs u) = selected u) as Hf by done.
  destruct (decide (i `prefix_of` j)) as [[rest ->]|Hpre].
  - rewrite (tree_item_alter_below _ _ _ rest it0 Hi) in Hj.
    destruct rest as [|k rest].
    + simpl in Hj. injection Hj as <-. done.
    + simpl in Hj. destruct (cs !! k) as [c|] eqn:Hc; [|done].
      pose proof (Forall_lookup_1 _ _ _ _ Hcs Hc) as Hfresh.
      destruct (fresh_item_below _ _ _ _ _ Hfresh Hj) as [[-> ->]| ->].
      * destruct Hfresh as [_ [-> | ->]]; simpl.
        -- split; constructor.
        -- split; [apply NoDup_singleton|by repeat constructor].
      * split; constructor.
  - destruct (tree_alter_elsewhere (set_children cs) i t j Hf Hpre)
      as (_ & _ & Hch).
    unfold child_names in Hch. rewrite Hj in Hch. simpl in Hch.
    destruct (proj1 (well_named_child_names t) Hw j (map text (children it')))
      as [? Hn]; [done|].
    split; [done|]. by apply Forall_fmap in Hn.
Qed.

(** *** Setting a box, opening, clearing *)

Lemma boxes_synced_set t r ps ps' i it p v :
  well_named t -> boxes_synced t r ps ->
  tree_item t i = Some it -> full_path_from t r i = Some p ->
  (∀ q, q ≠ p -> q ∈ ps' <-> q ∈ ps) ->
  (v = Checked <-> p ∈ ps') ->
  boxes_synced (tree_alter (set_selected v) i t) r ps'.
Proof.
  intros Hw Hs Hi Hp Hother Hthis j it' q Hj Hq Hbox.
  rewrite full_path_alter in Hq by apply set_selected_keeps.
  destruct (decide (j = i)) as [->|Hne].
  - rewrite tree_item_alter_eq, Hi in Hj. simplify_eq/=. done.
  - assert (q ≠ p) as Hqp.
    { intros ->. apply Hne. by eapply full_path_inj. }
    rewrite (Hother q Hqp).
    pose proof (tree_item_alter_ne (set_selected v) i t j
                  (set_selected_keeps v) Hne) as E.
    rewrite Hj in E. destruct (tree_item t j) as [it0|] eqn:Hj0; simplify_eq/=.
    rewrite E in *. by apply (Hs j).
Qed.

Lemma boxes_synced_open t r ps i b :
  boxes_synced t r ps -> boxes_synced (tree_alter (set_is_open b) i t) r ps.
Proof.
  intros Hs j it' q Hj Hq Hbox.
  rewrite full_path_alter in Hq by apply set_is_open_keeps.
  destruct (decide (j = i)) as [->|Hne].
  - rewrite tree_item_alter_eq in Hj.
    destruct (tree_item t i) as [it0|] eqn:Hi; simplify_eq/=.
    by apply (Hs i).
  - pose proof (tree_item_alter_ne (set_is_open b) i t j
                  (set_is_open_keeps b) Hne) as E.
    rewrite Hj in E. destruct (tree_item t j) as [it0|] eqn:Hj0; simplify_eq/=.
    rewrite E in *. by apply (Hs j).
Qed.

Lemma boxes_synced_clear t r :
  boxes_synced (update_node_and_children Unchecked t) r [].
Proof.
  intros j it' q Hj _ _. rewrite tree_item_update_node in Hj.
  destruct (tree_item t j); simplify_eq/=.
  rewrite update_node_selected. split; [done|]. by intros ?%elem_of_nil.
Qed.

Section Boxes.
Context {FS : Type} `{!Filesystem FS} `{!Runtime}.
Implicit Types st : app FS.

Lemma tidy_rest st st' :
  dir_tree st' = dir_tree st -> root_directory st' = root_directory st ->
  selected_items st' = selected_items st -> tidy st -> tidy st'.
Proof.
  unfold tidy, boxes_in_sync, get_full_path. by intros -> -> ->.
Qed.

Lemma in_sync_boxes st : in_sync st -> boxes_in_sync st.
Proof. intros Hs i it p Hi Hp _. by apply (Hs i). Qed.

Lemma tidy_select i st :
  tidy st -> tidy (add_tree_item_to_selection i (dir_tree_set i Checked st)).
Proof.
  intros (Hw & Hnd & Hs).
  unfold add_tree_item_to_selection, get_full_path, dir_tree_set. simpl.
  rewrite full_path_alter by apply set_selected_keeps.
  rewrite tree_item_alter_eq.
  destruct (full_path_from (dir_tree st) (root_directory st) i) as [p|] eqn:Hp.
  2:{ destruct (full_path_item (dir_tree st) (root_directory st) i) as [_ Hsome].
      destruct (tree_item (dir_tree st) i) as [it|] eqn:Hi.
      - destruct Hsome as [? ?]; [eauto|congruence].
      - simpl. split_and!; [|done|].
        + apply well_named_alter; [apply set_selected_keeps|done].
        + intros j it' q Hj Hq. unfold get_full_path in *. simpl in *.
          rewrite full_path_alter in Hq by apply set_selected_keeps.
          destruct (decide (j = i)) as [->|Hne].
          * rewrite tree_item_alter_eq, Hi in Hj. done.
          * pose proof (tree_item_alter_ne (set_selected Checked) i (dir_tree st) j
                          (set_selected_keeps _) Hne) as E.
            rewrite Hj in E.
            destruct (tree_item (dir_tree st) j) as [it0|] eqn:Hj0; simplify_eq/=.
            rewrite E. by apply (Hs j). }
  destruct (full_path_item (dir_tree st) (root_directory st) i) as [Hit _].
  destruct Hit as [it Hi]; [eauto|]. rewrite Hi. simpl.
  destruct (path_selected p (selected_items st)) eqn:Hsel; simpl.
  - apply path_selected_spec in Hsel.
    split_and!; [apply well_named_alter; [apply set_selected_keeps|done]|done|].
    unfold boxes_in_sync, get_full_path. simpl.
    eapply boxes_synced_set; eauto. done.
  - apply path_selected_false in Hsel.
    split_and!; [apply well_named_alter; [apply set_selected_keeps|done]| |].
    + simpl. by apply paths_snoc_NoDup.
    + unfold boxes_in_sync, get_full_path. simpl.
      eapply boxes_synced_set; eauto.
      * intros q Hq. rewrite paths_snoc. split; [by intros [?|?]|by left].
      * rewrite paths_snoc. split; [by right|done].
Qed.

Lemma tidy_deselect i st :
  tidy st -> tidy (remove_tree_item_from_selection i (dir_tree_set i Unchecked st)).
Proof.
  intros (Hw & Hnd & Hs).
  unfold remove_tree_item_from_selection, get_full_path, dir_tree_set. simpl.
  rewrite full_path_alter by apply set_selected_keeps.
  destruct (full_path_from (dir_tree st) (root_directory st) i) as [p|] eqn:Hp.
  2:{ destruct (full_path_item (dir_tree st) (root_directory st) i) as [_ Hsome].
      destruct (tree_item (dir_tree st) i) as [it|] eqn:Hi.
      - destruct Hsome as [? ?]; [eauto|congruence].
      - split_and!; [|done|].
        + apply well_named_alter; [apply set_selected_keeps|done].
        + intros j it' q Hj Hq. unfold get_full_path in *. simpl in *.
          rewrite full_path_alter in Hq by apply set_selected_keeps.
          destruct (decide (j = i)) as [->|Hne].
          * rewrite tree_item_alter_eq, Hi in Hj. done.
          * pose proof (tree_item_alter_ne (set_selected Unchecked) i (dir_tree st) j
                          (set_selected_keeps _) Hne) as E.
            rewrite Hj in E.
            destruct (tree_item (dir_tree st) j) as [it0|] eqn:Hj0; simplify_eq/=.
            rewrite E. by apply (Hs j). }
  destruct (full_path_item (dir_tree st) (root_directory st) i) as [Hit _].
  destruct Hit as [it Hi]; [eauto|].
  destruct (path_selected p (selected_items st)) eqn:Hsel; simpl.
  - destruct (paths_remove_first_NoDup p _ Hnd) as [Hnd' Hnot].
    split_and!; [apply well_named_alter; [apply set_selected_keeps|done]|done|].
    unfold boxes_in_sync, get_full_path. simpl.
    eapply boxes_synced_set; eauto.
    + intros q Hq. by apply paths_remove_first_ne.
    + done.
  - apply path_selected_false in Hsel.
    split_and!; [apply well_named_alter; [apply set_selected_keeps|done]|done|].
    unfold boxes_in_sync, get_full_path. simpl.
    eapply boxes_synced_set; eauto. done.
Qed.

Lemma tidy_click i st : tidy st -> tidy (on_tree_checkbox_click i st).
Proof.
  intros Ht. unfold on_tree_checkbox_click.
  destruct (tree_item (dir_tree st) i) as [it|]; [|done].
  case_bool_decide; [by apply tidy_deselect|by apply tidy_select].
Qed.

Lemma tidy_open i b st :
  tidy st -> tidy (set_dir_tree (tree_alter (set_is_open b) i (dir_tree st)) st).
Proof.
  intros (Hw & Hnd & Hs). split_and!; [|done|].
  - simpl. apply well_named_alter; [apply set_is_open_keeps|done].
  - unfold boxes_in_sync, get_full_path. simpl. by apply boxes_synced_open.
Qed.

Lemma tidy_clear st : tidy st -> tidy (clear_selection st).
Proof.
  intros (Hw & Hnd & Hs). split_and!.
  - by apply well_named_update_node.
  - apply NoDup_nil_2.
  - apply boxes_synced_clear.
Qed.

Lemma tidy_select_child st i it item_path child_name :
  tidy st -> is_name child_name = true ->
  tree_item (dir_tree st) i = Some it ->
  get_full_path st i = Some item_path ->
  tidy (select_child i item_path child_name st).
Proof.
  intros (Hw & Hnd & Hs) Hn Hi Hp. unfold select_child.
  set (cp := join item_path child_name).
  destruct (path_selected cp (selected_items st)) eqn:Hsel; simpl; [done|].
  apply path_selected_false in Hsel. rewrite Hi.
  assert (NoDup (paths (selected_items st ++ [(cp, os_path_isdir (fs st) cp)])))
    as Hnd'.
  { by apply paths_snoc_NoDup. }
  assert (∀ q, q ≠ cp ->
            q ∈ paths (selected_items st ++ [(cp, os_path_isdir (fs st) cp)])
            <-> q ∈ paths (selected_items st)) as Hother.
  { intros q Hq. rewrite paths_snoc. split; [by intros [?|?]|by left]. }
  assert (cp ∈ paths (selected_items st ++ [(cp, os_path_isdir (fs st) cp)]))
    as Hthis.
  { rewrite paths_snoc. by right. }
  destruct (child_index child_name (children it)) as [k|] eqn:Hk.
  - destruct (child_index_spec _ _ _ Hk) as (c & Hc & Htext).
    assert (tree_item (dir_tree st) (i ++ [k]) = Some c) as Hik.
    { by rewrite tree_item_snoc, Hi. }
    split_and!; [simpl; apply well_named_alter; [apply set_selected_keeps|done]|done|].
    unfold dir_tree_set, boxes_in_sync, get_full_path. simpl.
    eapply boxes_synced_set; eauto.
    + rewrite (full_path_snoc _ _ _ _ _ _ Hp Hik). by rewrite Htext.
    + done.
  - split_and!; [done..|]. unfold boxes_in_sync, get_full_path. simpl.
    intros j it' q Hj Hq Hbox. destruct (decide (q = cp)) as [->|Hne].
    + destruct (full_path_join _ _ _ _ _ _ Hw Hn Hp Hq) as (k & c & -> & Hc & Ht).
      rewrite tree_item_snoc, Hi in Hc.
      by destruct (child_index_none _ _ _ _ Hk Hc).
    + rewrite (Hother q Hne). by apply (Hs j).
Qed.

Lemma tidy_select_children names st i item_path :
  tidy st -> Forall (fun n => is_name n = true) names ->
  is_Some (tree_item (dir_tree st) i) ->
  get_full_path st i = Some item_path ->
  tidy
    (fold_left (fun st child_name => select_child i item_path child_name st)
       names st).
Proof.
  intros Hc Hn. revert st Hc.
  induction Hn as [|n names Hn Hns IH]; intros st Hc [it Hi] Hp; [done|].
  simpl. destruct (select_child_keeps st i item_path n) as (_ & Hr & Hpath & Hit).
  apply IH.
  - by eapply tidy_select_child.
  - apply Hit. eauto.
  - unfold get_full_path. by rewrite Hr, Hpath.
Qed.

Lemma tidy_select_contents st sel :
  lists_distinct_names (fs st) -> tidy st ->
  tidy (select_tree_item_contents sel st).
Proof.
  intros Hfs Hc. unfold select_tree_item_contents.
  destruct sel as [|i _]; [done|].
  destruct (tree_item (dir_tree st) i) as [it|] eqn:Hi; [|done].
  destruct (get_full_path st i) as [item_path|] eqn:Hp; [|done].
  case_bool_decide; [|done]. simpl.
  pose proof (tidy_open i true st Hc) as Hc'.
  destruct (os_listdir (fs st) item_path) as [e|names] eqn:Hl.
  - destruct (is_PermissionError e);
      by apply (tidy_rest _ _ eq_refl eq_refl eq_refl) in Hc'.
  - apply tidy_select_children; [done|by eapply Hfs| |].
    + simpl. rewrite tree_item_alter_eq, Hi. eauto.
    + unfold get_full_path. simpl.
      by rewrite full_path_alter by apply set_is_open_keeps.
Qed.

Lemma tidy_set_children st i it0 path cs :
  tidy st -> tree_item (dir_tree st) i = Some it0 ->
  get_full_path st i = Some path ->
  NoDup (map text cs) -> Forall (fun c => is_name (text c) = true) cs ->
  Forall (fresh_item path (paths (selected_items st))) cs ->
  tidy (set_dir_tree (tree_alter (set_children cs) i (dir_tree st)) st).
Proof.
  intros (Hw & Hnd & Hs) Hi Hp Hcsnd Hnames Hfresh. split_and!; [|done|].
  - simpl. by eapply well_named_children.
  - unfold boxes_in_sync, get_full_path. simpl. by eapply boxes_synced_children.
Qed.

Lemma new_items_fresh st path items :
  Forall (fresh_item path (paths (selected_items st))) (new_items st path items).
Proof.
  unfold new_items. apply Forall_fmap, Forall_forall. intros name _.
  split; simpl.
  - rewrite <-path_selected_spec. by destruct (path_selected _ _).
  - destruct (os_path_isdir _ _); [by right|by left].
Qed.

Lemma new_items_names st path items :
  NoDup items -> Forall (fun n => is_name n = true) items ->
  NoDup (map text (new_items st path items))
  ∧ Forall (fun c => is_name (text c) = true) (new_items st path items).
Proof.
  intros Hnd Hn. unfold new_items.
  set (key := fun x => (os_path_isdir (fs st) (join path x), str_lower x)).
  destruct (sort_by_sorted key items) as [Hp _]. split.
  - rewrite map_map. simpl. rewrite map_id. by rewrite Hp.
  - apply Forall_fmap. simpl. by rewrite Hp.
Qed.

Lemma tidy_on_folder_expanded st i :
  lists_distinct_names (fs st) -> tidy st -> tidy (on_folder_expanded i st).
Proof.
  intros Hfs Ht. unfold on_folder_expanded.
  destruct (tree_item (dir_tree st) i) as [it|] eqn:Hi; [|done].
  destruct (get_full_path st i) as [path|] eqn:Hp; [|done].
  destruct (children it) as [|child [|? ?]]; [done| |done].
  destruct (String.eqb (text child) "Loading..."); [|done].
  unfold populate_directory_subtree. cbn [fs set_dir_tree].
  destruct (os_listdir (fs st) path) as [e|items] eqn:Hl.
  - apply (tidy_rest
             (set_dir_tree (tree_alter (set_children []) i (dir_tree st)) st));
      [by destruct (is_PermissionError e)..|].
    eapply tidy_set_children; eauto; constructor.
  - cbn [snd dir_tree set_dir_tree]. rewrite tree_alter_compose.
    set (st1 := set_dir_tree (tree_alter (set_children []) i (dir_tree st)) st).
    rewrite (tree_alter_ext _ (set_children (new_items st path items)))
      by (by intros []).
    destruct (Hfs path items Hl) as [Hnd Hn].
    destruct (new_items_names st path items Hnd Hn) as [Hnd' Hn'].
    apply (tidy_rest
             (set_dir_tree
                (tree_alter (set_children (new_items st path items)) i (dir_tree st))
                st)); [done..|].
    eapply tidy_set_children; eauto. apply new_items_fresh.
Qed.

Lemma reject_row_root (r : row) st :
  root_directory (reject_row r st) = root_directory st
  ∧ fs (reject_row r st) = fs st.
Proof.
  unfold reject_row.
  destruct (_convert_stringval (Original r)) as [name|k]; [|done].
  cbn [cell_in]. case_bool_decide; [|done]. rewrite resolve_cell_text.
  destruct (resolve name (selected_items st)) as [[p f]|] eqn:Hr; [|done].
  by rewrite (resolve_selected _ _ _ _ Hr).
Qed.

Lemma reject_root st :
  root_directory (reject_selected_suggestions st) = root_directory st
  ∧ fs (reject_selected_suggestions st) = fs st.
Proof.
  unfold reject_selected_suggestions.
  destruct (filter _ _) as [|r rows]; [done|]. generalize (r :: rows). clear.
  intros rows. revert st. induction rows as [|r rows IH]; intros st; [done|].
  simpl. destruct (IH (reject_row r st)) as (-> & ->). apply reject_row_root.
Qed.

Lemma tidy_check st : tidy st -> tidy (_check_ai_thread st).
Proof.
  intros Ht. destruct (snd (result_queue st)) as [|result rest] eqn:E.
  - rewrite check_ai_thread_empty by done. by apply (tidy_rest st).
  - rewrite (check_ai_thread_drain st result rest E).
    destruct result as [result|e]; [|by apply (tidy_rest st)].
    set (st0 := log_effect _ _).
    eapply (tidy_rest (deliver (Success result) st0)); [done..|].
    unfold deliver. apply tidy_clear.
    fold (suggest_all result (selected_items st0) st0).
    destruct (suggest_all_keeps result (selected_items st0) st0)
      as (Hsel & Htree & _).
    pose proof (suggest_all_root result (selected_items st0) st0) as Hroot.
    by apply (tidy_rest st).
Qed.

Lemma fs_check st : fs (_check_ai_thread st) = fs st.
Proof.
  destruct (snd (result_queue st)) as [|result rest] eqn:E.
  - by rewrite check_ai_thread_empty by done.
  - rewrite (check_ai_thread_drain st result rest E).
    destruct result as [result|e]; [|done].
    set (st0 := log_effect _ _).
    change (fs (suggest_all result (selected_items st0) st0) = fs st).
    by destruct (suggest_all_keeps result (selected_items st0) st0)
      as (_ & _ & _ & _ & ->).
Qed.

Lemma tidy_step st e :
  keeps_boxes e -> lists_distinct_names (fs st) -> tidy st ->
  tidy (step e st) ∧ fs (step e st) = fs st.
Proof.
  intros He Hfs Ht.
  assert (lists_names (fs st)) as Hnames.
  { intros p names Hl. by destruct (Hfs p names Hl). }
  destruct e; try (exfalso; exact He); cbn [step].
  - split; [by apply tidy_click|apply fs_click].
  - split; [by apply tidy_select|].
    unfold select_tree_item, add_tree_item_to_selection. by repeat case_match.
  - split; [by apply tidy_deselect|].
    unfold deselect_tree_item, remove_tree_item_from_selection.
    by repeat case_match.
  - split; [by apply tidy_select_contents|apply fs_select_contents].
  - split; [by apply tidy_open|done].
  - split; [by apply tidy_open|done].
  - split.
    + apply tidy_on_folder_expanded; [done|]. by apply tidy_open.
    + unfold on_folder_expanded. repeat case_match; try done.
      unfold populate_directory_subtree. repeat case_match; done.
  - split; [by apply tidy_open|done].
  - split; [by apply tidy_clear|done].
  - split; [by apply (tidy_rest st)|done].
  - split; [by apply (tidy_rest st)|done].
  - split; [by apply (tidy_rest st)|done].
  - split; [by apply (tidy_rest st)|done].
  - destruct (reject_keeps st) as (Hsel & Htree & _).
    destruct (reject_root st) as (Hroot & Hdisk).
    split; [by apply (tidy_rest st)|done].
  - case_bool_decide; [|done]. unfold get_ai_suggestions.
    destruct (selected_items st) eqn:E; [split; [by apply (tidy_rest st)|done]|].
    split; [apply tidy_check; apply (tidy_rest st); [done..| |done]; by rewrite E
           |by rewrite fs_check].
  - case_bool_decide; [|done]. case_match; (split; [by apply (tidy_rest st)|done]).
  - destruct (timers st); [done|].
    split; [apply tidy_check; by apply (tidy_rest st)|by rewrite fs_check].
Qed.

Lemma tidy_run events st :
  Forall keeps_boxes events -> lists_distinct_names (fs st) -> tidy st ->
  tidy (run events st).
Proof.
  intros He. revert st. induction He as [|e events He Hes IH]; intros st Hfs Ht.
  - done.
  - destruct (tidy_step st e He Hfs Ht) as [Ht' Hfs'].
    apply IH; [by rewrite Hfs'|done].
Qed.

(** X9.  The boxes of the tree follow the selection through everything but
    "Remove from Selection" and "Apply Selected Renames": clicks on boxes,
    "Select Item", "Deselect Item", "Select Contents", expanding and
    collapsing, folders loading their contents when they are opened, "Clear
    Selection", requests for suggestions and their outcomes, and the
    commands of the suggestion table.  In a session whose tree is well named
    and whose selection has no path twice, on a disk whose listings are
    names without repetition, every item that shows a box stays checked
    exactly when its path is selected. *)
Theorem boxes_follow_selection st events :
  well_named (dir_tree st) -> NoDup (paths (selected_items st)) ->
  lists_distinct_names (fs st) -> boxes_in_sync st ->
  Forall keeps_boxes events ->
  boxes_in_sync (run events st).
Proof.
  intros Hw Hnd Hfs Hs He.
  by destruct (tidy_run events st He Hfs (conj Hw (conj Hnd Hs)))
    as (_ & _ & ?).
Qed.

End Boxes.

Lemma toy_lists_distinct_names (d : Toy.disk) :
  forallb (fun e => is_name (basename (fst e))) (Toy.entries d) = true ->
  bool_decide (NoDup (Toy.entries d)) = true ->
  forallb
    (fun e1 : string * bool =>
       forallb
         (fun e2 : string * bool =>
            negb (String.eqb (dirname (fst e1)) (dirname (fst e2))
                  && String.eqb (basename (fst e1)) (basename (fst e2)))
            || bool_decide (e1 = e2))
         (Toy.entries d))
    (Toy.entries d) = true ->
  lists_distinct_names d.
Proof.
  intros Hnames Hnd%bool_decide_eq_true Hinj p names Hl. split.
  2:{ by eapply toy_lists_names. }
  simpl in Hl. unfold Toy.listdir in Hl. case_bool_decide; [done|].
  destruct (Toy.lookup_entry p d) as [[|]|]; [|done..].
  injection Hl as <-.
  apply (NoDup_fmap_2_strong (fun e : string * bool => basename (fst e))).
  - intros e1 e2 [[H1 _] Hin1]%list_elem_of_filter
      [[H2 _] Hin2]%list_elem_of_filter E.
    rewrite forallb_forall in Hinj.
    pose proof (Hinj e1 (proj1 (list_elem_of_In _ _) Hin1)) as Hinj1.
    rewrite forallb_forall in Hinj1.
    pose proof (Hinj1 e2 (proj1 (list_elem_of_In _ _) Hin2)) as Hinj2.
    apply orb_true_iff in Hinj2 as [Hne|Heq]; [|by apply bool_decide_eq_true in Heq].
    apply negb_true_iff, andb_false_iff in Hne as [Hne|Hne];
      apply String.eqb_neq in Hne; congruence.
  - by apply NoDup_filter.
Qed.

Lemma boxes_follow_selection_witness :
  let events := [menu_select_contents [0]; open_folder [0]; click_checkbox [1];
                 menu_deselect_item [0; 0]; click_get_suggestions] in
  selected_items (run events Toy.session0) = [("/r/a.txt", false)]
  ∧ (selected <$> tree_item (dir_tree (run events Toy.session0)) [0; 0])
    = Some Unchecked
  ∧ boxes_in_sync (run events Toy.session0).
Proof.
  intros events. split_and!; [vm_compute; reflexivity..|].
  apply boxes_follow_selection.
  - apply well_namedb_sound. vm_compute. reflexivity.
  - apply NoDup_nil_2.
  - apply toy_lists_distinct_names; vm_compute; reflexivity.
  - apply in_sync_boxes, in_syncb_sound. vm_compute. reflexivity.
  - repeat constructor.
Defined.

(** ** Loading a folder once *)

Section LoadOnce.
Context {FS : Type} `{!Filesystem FS} `{!Runtime}.
Implicit Types st : app FS.






End LoadOnce.


(** ** The context menu offers what changes the selection *)

Section ContextMenu.
Context {FS : Type} `{!Filesystem FS} `{!Runtime}.
Implicit Types st : app FS.




End ContextMenu.


(** ** The presets of instructions *)

Lemma dict_in_keys k d : dict_in k d = true <-> k ∈ keys d.
Proof.
  unfold dict_in, keys. rewrite existsb_exists, list_elem_of_fmap. split.
  - intros (kv & Hin & E%String.eqb_eq). exists kv.
    split; [done|by apply list_elem_of_In].
  - intros (kv & -> & Hin). exists kv.
    split; [by apply list_elem_of_In|apply String.eqb_refl].
Qed.

Lemma dict_in_assoc k d : dict_in k d = true <-> is_Some (assoc k d).
Proof.
  induction d as [|[k' v] d IH]; simpl.
  - split; [done|by intros [? ?]].
  - destruct (String.eqb k' k); simpl; [|done]. split; eauto.
Qed.

Lemma dict_del_not_in k d : dict_in k d = false -> dict_del k d = d.
Proof.
  unfold dict_in, dict_del. induction d as [|[k' v] d IH]; simpl; [done|].
  destruct (String.eqb k' k); simpl; [done|]. intros H. by rewrite IH.
Qed.

Lemma dict_del_set_same k v d : dict_del k (dict_set k v d) = dict_del k d.
Proof.
  unfold dict_del. induction d as [|[k' v'] d IH]; simpl.
  - by rewrite String.eqb_refl.
  - destruct (String.eqb k' k) eqn:E; simpl.
    + by rewrite String.eqb_refl.
    + by rewrite E, IH.
Qed.

Lemma dict_del_set_other k1 k2 v d :
  k1 ≠ k2 -> dict_del k1 (dict_set k2 v d) = dict_set k2 v (dict_del k1 d).
Proof.
  intros Hne. unfold dict_del. induction d as [|[k' v'] d IH]; simpl.
  - by rewrite (proj2 (String.eqb_neq k2 k1)) by done.
  - destruct (String.eqb k' k2) eqn:E2; simpl.
    + apply String.eqb_eq in E2 as ->.
      rewrite (proj2 (String.eqb_neq k2 k1)) by done. simpl.
      by rewrite String.eqb_refl.
    + destruct (String.eqb k' k1); simpl; [done|]. by rewrite E2, IH.
Qed.

Lemma assoc_set_same k v d : assoc k (dict_set k v d) = Some v.
Proof.
  induction d as [|[k' v'] d IH]; simpl.
  - by rewrite String.eqb_refl.
  - destruct (String.eqb k' k) eqn:E; simpl.
    + by rewrite String.eqb_refl.
    + by rewrite E.
Qed.

Lemma assoc_set_other k k' v d :
  k' ≠ k -> assoc k' (dict_set k v d) = assoc k' d.
Proof.
  intros Hne. induction d as [|[k0 v0] d IH]; simpl.
  - by rewrite (proj2 (String.eqb_neq k k')) by done.
  - destruct (String.eqb k0 k) eqn:E; simpl.
    + apply String.eqb_eq in E as ->.
      by rewrite (proj2 (String.eqb_neq k k')) by done.
    + by rewrite IH.
Qed.

Lemma assoc_del_other k k' d : k' ≠ k -> assoc k' (dict_del k d) = assoc k' d.
Proof.
  intros Hne. unfold dict_del. induction d as [|[k0 v0] d IH]; simpl; [done|].
  destruct (String.eqb k0 k) eqn:E; simpl.
  - apply String.eqb_eq in E as ->.
    by rewrite (proj2 (String.eqb_neq k k')) by done.
  - by rewrite IH.
Qed.

Lemma assoc_del_same k d : assoc k (dict_del k d) = None.
Proof.
  unfold dict_del. induction d as [|[k0 v0] d IH]; simpl; [done|].
  destruct (String.eqb k0 k) eqn:E; simpl; [done|]. by rewrite E.
Qed.

Lemma keys_del k d : k ∉ keys (dict_del k d).
Proof.
  rewrite <-dict_in_keys, dict_in_assoc, assoc_del_same. by intros [? ?].
Qed.

Lemma keys_set_in k v d : dict_in k d = true -> keys (dict_set k v d) = keys d.
Proof.
  unfold dict_in, keys. induction d as [|[k' v'] d IH]; simpl; [done|].
  destruct (String.eqb k' k) eqn:E; simpl.
  - by apply String.eqb_eq in E as ->.
  - intros H. by rewrite IH.
Qed.

Lemma keys_set_new k v d : dict_in k d = false -> keys (dict_set k v d) = keys d ++ [k].
Proof.
  unfold dict_in, keys. induction d as [|[k' v'] d IH]; simpl; [done|].
  destruct (String.eqb k' k) eqn:E; simpl; [done|]. intros H. by rewrite IH.
Qed.

Lemma keys_set_NoDup k v d : NoDup (keys d) -> NoDup (keys (dict_set k v d)).
Proof.
  intros Hnd. destruct (dict_in k d) eqn:E.
  - by rewrite keys_set_in.
  - rewrite keys_set_new by done. apply NoDup_app. split_and!; [done| |].
    + intros k' Hk' ->%list_elem_of_singleton.
      apply dict_in_keys in Hk'. congruence.
    + apply NoDup_singleton.
Qed.

Lemma keys_del_NoDup k d : NoDup (keys d) -> NoDup (keys (dict_del k d)).
Proof.
  intros Hnd. unfold keys, dict_del.
  eapply sublist_NoDup; [exact Hnd|]. apply fmap_sublist. clear Hnd.
  induction d as [|kv d IH]; simpl; [done|].
  destruct (negb _); simpl; [apply sublist_skip|apply sublist_cons]; exact IH.
Qed.

Lemma occurs_nonempty c s : occurs c s = true -> s ≠ "".
Proof. by destruct s. Qed.

Lemma strip_nonempty s : strip s ≠ "" -> s ≠ "".
Proof. intros H ->. by apply H. Qed.

Lemma toy_file_reads_back : reads_back ToyFile.store.
Proof.
  intros document file written. simpl. unfold ToyFile.dump.
  destruct (ToyFile.read_only file); [done|]. by intros [= <-].
Qed.

Lemma reserved_free_del d :
  Forall (fun name => reserved name = false) (keys d) ->
  dict_del "_last_selected_model" (dict_del "_last_selected" d) = d.
Proof.
  intros Hfree.
  assert (∀ k, reserved k = true -> dict_in k d = false) as Hnot.
  { intros k Hk. destruct (dict_in k d) eqn:E; [|done].
    apply dict_in_keys in E.
    pose proof (proj1 (Forall_forall _ _) Hfree k E). congruence. }
  rewrite (dict_del_not_in "_last_selected") by (by apply Hnot).
  by rewrite dict_del_not_in by (by apply Hnot).
Qed.

Lemma reserved_free_assoc d k :
  Forall (fun name => reserved name = false) (keys d) ->
  reserved k = true -> assoc k d = None.
Proof.
  intros Hfree Hk. destruct (assoc k d) eqn:E; [|done].
  assert (k ∈ keys d) as Hin by (apply dict_in_keys, dict_in_assoc; eauto).
  pose proof (proj1 (Forall_forall _ _) Hfree k Hin). congruence.
Qed.

Section PresetsProofs.
Context {D : Type} `{!PresetsFile D} `{!Runtime} `{!Tcl}.
Implicit Types u : Presets.ui D.

Import Presets.


Lemma save_keeps u :
  let u' := (save_instructions_presets u).2 in
  instructions_presets u' = instructions_presets u
  ∧ preset_var u' = preset_var u ∧ model_var u' = model_var u
  ∧ rename_instructions u' = rename_instructions u
  ∧ preset_dropdown u' = preset_dropdown u ∧ messages u' = messages u
  ∧ printed u' = printed u ∧ window_destroyed u' = window_destroyed u.
Proof.
  unfold save_instructions_presets.
  by destruct (json_dump _ _) as [[e remains]|written].
Qed.

Lemma save_written u u' :
  save_instructions_presets u = (None, u') ->
  json_dump (JObject (data_to_save u)) (presets_file u) = inr (presets_file u').
Proof.
  unfold save_instructions_presets.
  destruct (json_dump _ _) as [[e remains]|written]; [done|]. by intros [= <-].
Qed.


Lemma data_to_save_presets u :
  dict_del "_last_selected_model" (dict_del "_last_selected" (data_to_save u))
  = dict_del "_last_selected_model"
      (dict_del "_last_selected" (instructions_presets u)).
Proof.
  unfold data_to_save.
  destruct (occurs "/" (model_var u));
    destruct (dict_in (preset_var u) (instructions_presets u));
    rewrite ?(dict_del_set_other "_last_selected" "_last_selected_model") by done;
    by rewrite ?dict_del_set_same.
Qed.

Lemma data_to_save_preset u :
  assoc "_last_selected" (data_to_save u)
  = if dict_in (preset_var u) (instructions_presets u)
    then Some (JString (preset_var u))
    else assoc "_last_selected" (instructions_presets u).
Proof.
  unfold data_to_save.
  destruct (occurs "/" (model_var u));
    destruct (dict_in (preset_var u) (instructions_presets u));
    rewrite ?(assoc_set_other "_last_selected_model" "_last_selected") by done;
    by rewrite ?assoc_set_same.
Qed.

Lemma data_to_save_model u :
  assoc "_last_selected_model" (dict_del "_last_selected" (data_to_save u))
  = if occurs "/" (model_var u) then Some (JString (model_var u))
    else assoc "_last_selected_model" (instructions_presets u).
Proof.
  rewrite assoc_del_other by done. unfold data_to_save.
  destruct (occurs "/" (model_var u));
    destruct (dict_in (preset_var u) (instructions_presets u));
    rewrite ?assoc_set_same; try done;
    by rewrite (assoc_set_other "_last_selected" "_last_selected_model") by done.
Qed.

Lemma load_saved u u' :
  reads_back D -> save_instructions_presets u = (None, u') ->
  load_instructions_presets (presets_file u')
  = Loaded
      (dict_del "_last_selected_model"
         (dict_del "_last_selected" (instructions_presets u)))
      (if dict_in (preset_var u) (instructions_presets u)
       then JString (preset_var u)
       else from_option id JNull
              (assoc "_last_selected" (instructions_presets u)))
      (if occurs "/" (model_var u) then JString (model_var u)
       else from_option id JNull
              (assoc "_last_selected_model" (instructions_presets u)))
      None.
Proof.
  intros Hback Hsave. apply save_written, Hback in Hsave as [Hexists Hload].
  unfold load_instructions_presets. rewrite Hexists, Hload.
  unfold dict_pop. simpl.
  rewrite data_to_save_presets, data_to_save_preset, data_to_save_model.
  f_equal.
  - by destruct (dict_in _ _).
  - by destruct (occurs _ _).
Qed.

(** X12.  On a file that reads back as what was written to it,
    [load_instructions_presets] returns what [save_instructions_presets]
    saved: the presets in their order, the chosen preset when it names a
    preset, the model when it holds a slash, and it prints nothing.  The
    names ["_last_selected"] and ["_last_selected_model"] are taken by the
    file for the chosen preset and the model: a preset of one of these names
    never comes back, and the presets come back as they were when none of
    them has such a name. *)
Theorem presets_reload u u' :
  reads_back D -> save_instructions_presets u = (None, u') ->
  let l := load_instructions_presets (presets_file u') in
  loaded_presets l
  = dict_del "_last_selected_model"
      (dict_del "_last_selected" (instructions_presets u))
  ∧ (∀ name, name ∈ keys (loaded_presets l) -> reserved name = false)
  ∧ (∀ name, reserved name = false ->
     assoc name (loaded_presets l) = assoc name (instructions_presets u))
  ∧ (Forall (fun name => reserved name = false) (keys (instructions_presets u)) ->
     loaded_presets l = instructions_presets u)
  ∧ (dict_in (preset_var u) (instructions_presets u) = true ->
     last_selected_preset l = JString (preset_var u))
  ∧ (occurs "/" (model_var u) = true ->
     last_selected_model l = JString (model_var u))
  ∧ load_printed l = None.
Proof.
  intros Hback Hsave l. subst l. rewrite (load_saved u u' Hback Hsave). simpl.
  split_and!; [done| | | | | |done].
  - intros name Hin. unfold reserved.
    destruct (String.eqb name "_last_selected") eqn:E1.
    { apply String.eqb_eq in E1 as ->. apply dict_in_keys, dict_in_assoc in Hin.
      rewrite assoc_del_other, assoc_del_same in Hin by done.
      by destruct Hin. }
    destruct (String.eqb name "_last_selected_model") eqn:E2; [|done].
    apply String.eqb_eq in E2 as ->. by apply keys_del in Hin.
  - intros name Hname. unfold reserved in Hname.
    apply orb_false_iff in Hname as [E1%String.eqb_neq E2%String.eqb_neq].
    by rewrite !assoc_del_other.
  - apply reserved_free_del.
  - by intros ->.
  - by intros ->.
Qed.

(** X13.  Closing the window and starting again brings the session of the
    presets back, on a file that reads back as what was written to it: when
    no preset has one of the two names the file keeps for itself, the
    chosen preset names a preset and is not empty, and the model holds a
    slash, the new session has the same presets, the same chosen preset and
    the same model, its dropdown lists the presets, and its instructions
    are those of the chosen preset, not what the user had typed. *)
Theorem session_restored u u' :
  reads_back D ->
  Forall (fun name => reserved name = false) (keys (instructions_presets u)) ->
  dict_in (preset_var u) (instructions_presets u) = true ->
  preset_var u ≠ "" ->
  occurs "/" (model_var u) = true ->
  on_closing u = (None, u') ->
  window_destroyed u' = true
  ∧ let restarted := setup_ui (presets_file u') in
    instructions_presets restarted = instructions_presets u
    ∧ preset_var restarted = preset_var u
    ∧ model_var restarted = model_var u
    ∧ preset_dropdown restarted = keys (instructions_presets u)
    ∧ (∃ instruction,
         assoc (preset_var u) (instructions_presets u) = Some instruction
         ∧ rename_instructions restarted = tk_value instruction)
    ∧ messages restarted = [] ∧ printed restarted = []
    ∧ window_destroyed restarted = false.
Proof.
  intros Hback Hfree Hin Hne Hmodel. unfold on_closing.
  destruct (save_instructions_presets u) as [[e|] u1] eqn:Hsave; [done|].
  intros [= <-]. split; [done|].
  pose proof (save_keeps u) as Hkeep. rewrite Hsave in Hkeep. simpl in Hkeep.
  destruct Hkeep as (_ & _ & _ & _ & _ & _ & _ & _).
  change (presets_file (set_window_destroyed true u1)) with (presets_file u1).
  unfold setup_ui. rewrite (load_saved u u1 Hback Hsave). simpl.
  rewrite Hin, Hmodel, (reserved_free_del _ Hfree). simpl.
  rewrite (proj2 (String.eqb_neq _ _) (occurs_nonempty _ _ Hmodel)). simpl.
  rewrite (proj2 (String.eqb_neq _ _) Hne). simpl.
  rewrite bool_decide_eq_true_2 by (by apply dict_in_keys).
  rewrite (proj2 (String.eqb_neq _ _) Hne). simpl.
  unfold load_preset. simpl. rewrite Hin.
  destruct (proj1 (dict_in_assoc _ _) Hin) as [instruction Hi]. rewrite Hi.
  simpl. split_and!; try done. by exists instruction.
Qed.

(** *** A file that cannot be written *)



(** *** The dropdown *)

Lemma act_dropdown a u :
  preset_dropdown u = keys (instructions_presets u) ->
  preset_dropdown (act a u).2 = keys (instructions_presets (act a u).2).
Proof.
  intros Hd. destruct a as [name|content|name| |askstring|askyesno|]; simpl;
    try done.
  - unfold load_preset. destruct (dict_in _ _); [|done].
    by destruct (assoc _ _).
  - unfold save_preset. destruct (String.eqb _ ""); [done|].
    destruct askstring as [preset_name|]; [|done].
    destruct (_ && _); [|done].
    match goal with |- context [save_instructions_presets ?v] =>
      pose proof (save_keeps v) as (Hi & _ & _ & _ & Hk & _);
      destruct (save_instructions_presets v) as [[e|] u1] end; simpl in *;
      by rewrite Hi, Hk.
  - unfold delete_preset. destruct (String.eqb _ ""); [done|].
    destruct askyesno; [|done]. destruct (dict_in _ _); [|done].
    match goal with |- context [save_instructions_presets ?v] =>
      pose proof (save_keeps v) as (Hi & _ & _ & _ & Hk & _);
      destruct (save_instructions_presets v) as [[e|] u1] end; simpl in *;
      rewrite Hi, Hk; destruct (keys (dict_del _ _)) eqn:E; simpl; by rewrite E.
  - unfold on_closing.
    pose proof (save_keeps u) as (Hi & _ & _ & _ & Hk & _).
    destruct (save_instructions_presets u) as [[e|] u1]; simpl in *;
      by rewrite Hi, Hk.
Qed.

Lemma setup_ui_dropdown file :
  preset_dropdown (setup_ui file) = keys (instructions_presets (setup_ui file)).
Proof.
  unfold setup_ui.
  destruct (match last_selected_preset _ with JString _ => _ | _ => _ end)
    as [name|]; [|done].
  destruct (negb _); [|done].
  unfold load_preset. simpl. destruct (dict_in _ _); [|done].
  by destruct (assoc _ _).
Qed.

(** X15.  From the start of the session on, whatever the user does with the
    presets and whether the writes to the file succeed or not, the dropdown
    lists the names of the presets that the session holds, in their
    order. *)
Theorem dropdown_lists_presets file actions :
  let u := acts actions (setup_ui file) in
  preset_dropdown u = keys (instructions_presets u).
Proof.
  simpl. pose proof (setup_ui_dropdown file) as Hd. revert Hd.
  generalize (setup_ui file). unfold acts.
  induction actions as [|a actions IH]; intros u Hd; simpl; [done|].
  by apply IH, act_dropdown.
Qed.

(** X16.  "Delete" with a chosen preset and the answer "yes" removes that
    preset and no other: the other presets keep their instructions and
    their order, the first of them becomes the chosen preset (none when
    none is left), so the deleted name is chosen no more; the instructions
    in the text box stay as they were.  The message of success is shown
    when the write to the file went through.  With the answer "no", or when
    the chosen name is not a preset, nothing changes. *)
Theorem delete_preset_removes askyesno u r u' :
  preset_var u ≠ "" ->
  delete_preset askyesno u = (r, u') ->
  if askyesno && dict_in (preset_var u) (instructions_presets u) then
    (preset_var u ∉ keys (instructions_presets u'))
    ∧ keys (instructions_presets u')
      = List.filter (fun name => negb (String.eqb name (preset_var u)))
          (keys (instructions_presets u))
    ∧ (∀ name, name ≠ preset_var u ->
         assoc name (instructions_presets u') = assoc name (instructions_presets u))
    ∧ preset_var u' = default "" (head (keys (instructions_presets u')))
    ∧ preset_var u' ≠ preset_var u
    ∧ rename_instructions u' = rename_instructions u
    ∧ model_var u' = model_var u
    ∧ (r = None ->
       messages u'
       = messages u
         ++ [showinfo "Success"
               ("Preset '" +:+ preset_var u +:+ "' deleted successfully.")])
    ∧ (r ≠ None -> messages u' = messages u)
  else r = None ∧ u' = u.
Proof.
  intros Hne. unfold delete_preset.
  rewrite (proj2 (String.eqb_neq _ _) Hne).
  destruct askyesno; simpl; [|by intros [= <- <-]].
  destruct (dict_in _ _) eqn:Hin; [|by intros [= <- <-]].
  set (d := dict_del (preset_var u) (instructions_presets u)).
  set (chosen := match keys d with first :: _ => _ | [] => _ end).
  pose proof (save_keeps chosen)
    as (Hi & Hp & Hm & Ht & _ & Hs & _).
  assert (instructions_presets chosen = d) as Hd
    by (unfold chosen; by destruct (keys d)).
  assert (preset_var chosen = default "" (head (keys d))) as Hv
    by (unfold chosen; by destruct (keys d)).
  assert (rename_instructions chosen = rename_instructions u
          ∧ model_var chosen = model_var u ∧ messages chosen = messages u)
    as (Ht' & Hm' & Hs') by (unfold chosen; by destruct (keys d)).
  assert (preset_var u ∉ keys d) as Hout by apply keys_del.
  intros Heq.
  assert (instructions_presets u' = d ∧ preset_var u' = default "" (head (keys d))
          ∧ rename_instructions u' = rename_instructions u
          ∧ model_var u' = model_var u
          ∧ (r = None ->
             messages u'
             = messages u
               ++ [showinfo "Success"
                     ("Preset '" +:+ preset_var u +:+ "' deleted successfully.")])
          ∧ (r ≠ None -> messages u' = messages u)) as (Hd' & Hv' & ? & ? & ? & ?).
  { destruct (save_instructions_presets chosen) as [[e|] u1]; simpl in *;
      match goal with H : (_, _) = (r, u') |- _ => injection H as <- <- end;
      simpl; rewrite ?Hi, ?Hp, ?Hm, ?Ht, ?Hs, ?Hd, ?Hv, ?Ht', ?Hm', ?Hs';
      split_and!; done. }
  rewrite Hd'. split_and!; try done.
  - unfold d, dict_del, keys. clear. induction (instructions_presets u)
      as [|[k v] l IH]; simpl; [done|].
    destruct (negb _); simpl; by rewrite IH.
  - intros name Hname. by apply assoc_del_other.
  - rewrite Hv'. clear -Hne Hout. clearbody d.
    destruct (keys d) as [|first rest] eqn:Hk; simpl; [done|].
    intros ->. apply Hout. left.
Qed.

(** X17.  A preset that "Save Current" stored loads back: when the
    instructions and the name that the user gives are not blank, the preset
    is stored under the name without the blanks around it, it is the chosen
    preset, and "Load" brings back the instructions as they were typed,
    without the blanks around them, whatever the text box holds by then.
    The other presets keep their instructions; a name that is there keeps
    its place and a new one goes to the end.  This holds whether the write
    to the file went through or not; the message of success, which quotes
    the name as it was typed, is shown when it did. *)
Theorem saved_preset_loads_back u name r u' content :
  strip (get_rename_instructions u) ≠ "" ->
  strip name ≠ "" ->
  save_preset (Some name) u = (r, u') ->
  preset_var u' = strip name
  ∧ assoc (strip name) (instructions_presets u')
    = Some (JString (strip (get_rename_instructions u)))
  ∧ rename_instructions (load_preset (set_rename_instructions content u'))
    = strip (get_rename_instructions u)
  ∧ (∀ other, other ≠ strip name ->
       assoc other (instructions_presets u') = assoc other (instructions_presets u))
  ∧ keys (instructions_presets u')
    = (if dict_in (strip name) (instructions_presets u)
       then keys (instructions_presets u)
       else keys (instructions_presets u) ++ [strip name])
  ∧ (r = None ->
     messages u'
     = messages u
       ++ [showinfo "Success" ("Preset '" +:+ name +:+ "' saved successfully.")])
  ∧ (r ≠ None -> messages u' = messages u).
Proof.
  intros Hc Hn. unfold save_preset.
  rewrite (proj2 (String.eqb_neq _ _) Hc).
  rewrite (proj2 (String.eqb_neq _ _) Hn).
  rewrite (proj2 (String.eqb_neq _ _) (strip_nonempty _ Hn)). simpl.
  set (stored := set_preset_var _ _).
  pose proof (save_keeps stored) as (Hi & Hp & _ & _ & _ & Hs & _).
  intros Heq.
  assert (instructions_presets u'
          = dict_set (strip name) (JString (strip (get_rename_instructions u)))
              (instructions_presets u)
          ∧ preset_var u' = strip name
          ∧ (r = None ->
             messages u'
             = messages u
               ++ [showinfo "Success"
                     ("Preset '" +:+ name +:+ "' saved successfully.")])
          ∧ (r ≠ None -> messages u' = messages u)) as (Hd & Hv & ? & ?).
  { destruct (save_instructions_presets stored) as [[e|] u1]; simpl in *;
      match goal with H : (_, _) = (r, u') |- _ => injection H as <- <- end;
      simpl; rewrite ?Hi, ?Hp, ?Hs; split_and!; done. }
  rewrite Hd. split_and!; try done.
  - apply assoc_set_same.
  - unfold load_preset. simpl. rewrite Hv, Hd.
    rewrite (proj2 (dict_in_assoc _ _)) by (rewrite assoc_set_same; eauto).
    by rewrite assoc_set_same.
  - intros other Hother. by apply assoc_set_other.
  - destruct (dict_in _ _) eqn:E; [by apply keys_set_in|by apply keys_set_new].
Qed.

End PresetsProofs.

(** *** The theorems of the presets on the small file *)

Lemma toy_saved_reserved_free :
  Forall (fun name => reserved name = false)
    (keys (Presets.instructions_presets ToyFile.saved)).
Proof. vm_compute. repeat constructor. Qed.


Lemma presets_reload_witness :
  let u' := (Presets.save_instructions_presets ToyFile.saved).2 in
  let l := load_instructions_presets (Presets.presets_file u') in
  loaded_presets l = Presets.instructions_presets ToyFile.saved
  ∧ last_selected_preset l = JString (Presets.preset_var ToyFile.saved)
  ∧ last_selected_model l = JString (Presets.model_var ToyFile.saved).
Proof.
  intros u' l.
  assert (Presets.save_instructions_presets ToyFile.saved = (None, u')) as Hsave
    by (vm_compute; reflexivity).
  assert (dict_in (Presets.preset_var ToyFile.saved)
            (Presets.instructions_presets ToyFile.saved) = true) as Hin
    by (vm_compute; reflexivity).
  assert (occurs "/" (Presets.model_var ToyFile.saved) = true) as Hmodel
    by (vm_compute; reflexivity).
  destruct (presets_reload ToyFile.saved u' toy_file_reads_back Hsave)
    as (_ & _ & _ & Hall & Hp & Hm & _).
  exact (conj (Hall toy_saved_reserved_free) (conj (Hp Hin) (Hm Hmodel))).
Defined.

Lemma session_restored_witness :
  let u' := (Presets.on_closing ToyFile.saved).2 in
  let restarted := Presets.setup_ui (Presets.presets_file u') in
  Presets.window_destroyed u' = true
  ∧ Presets.instructions_presets restarted
    = Presets.instructions_presets ToyFile.saved
  ∧ Presets.preset_var restarted = Presets.preset_var ToyFile.saved
  ∧ Presets.model_var restarted = Presets.model_var ToyFile.saved.
Proof.
  intros u' restarted.
  assert (dict_in (Presets.preset_var ToyFile.saved)
            (Presets.instructions_presets ToyFile.saved) = true) as Hin
    by (vm_compute; reflexivity).
  assert (Presets.preset_var ToyFile.saved ≠ "") as Hne
    by (vm_compute; discriminate).
  assert (occurs "/" (Presets.model_var ToyFile.saved) = true) as Hmodel
    by (vm_compute; reflexivity).
  assert (Presets.on_closing ToyFile.saved = (None, u')) as Hclose
    by (vm_compute; reflexivity).
  destruct (session_restored ToyFile.saved u' toy_file_reads_back
              toy_saved_reserved_free Hin Hne Hmodel Hclose)
    as (Hw & Hi & Hp & Hm & _).
  exact (conj Hw (conj Hi (conj Hp Hm))).
Defined.


Lemma delete_preset_removes_witness :
  let u' := (Presets.delete_preset true ToyFile.saved).2 in
  (Presets.preset_var ToyFile.saved ∉ keys (Presets.instructions_presets u'))
  ∧ Presets.preset_var u' ≠ Presets.preset_var ToyFile.saved
  ∧ Presets.rename_instructions u'
    = Presets.rename_instructions ToyFile.saved.
Proof.
  intros u'.
  assert (Presets.preset_var ToyFile.saved ≠ "") as Hne
    by (vm_compute; discriminate).
  assert (dict_in (Presets.preset_var ToyFile.saved)
            (Presets.instructions_presets ToyFile.saved) = true) as Hin
    by (vm_compute; reflexivity).
  assert (Presets.delete_preset true ToyFile.saved = (None, u')) as Hdelete
    by (vm_compute; reflexivity).
  pose proof (delete_preset_removes true ToyFile.saved None u' Hne Hdelete) as H.
  cbn [andb] in H. rewrite Hin in H.
  destruct H as (Hout & _ & _ & _ & Hv & Ht & _).
  exact (conj Hout (conj Hv Ht)).
Defined.

Lemma saved_preset_loads_back_witness :
  let u := Presets.set_rename_instructions "  Use snake case " ToyFile.fresh in
  let u' := (Presets.save_preset (Some " snake ") u).2 in
  Presets.preset_var u' = strip " snake "
  ∧ Presets.rename_instructions
      (Presets.load_preset (Presets.set_rename_instructions "" u'))
    = strip (Presets.get_rename_instructions u).
Proof.
  intros u u'.
  assert (strip (Presets.get_rename_instructions u) ≠ "") as Hc
    by (vm_compute; discriminate).
  assert (strip " snake " ≠ "") as Hn by (vm_compute; discriminate).
  assert (Presets.save_preset (Some " snake ") u = (None, u')) as Hsave
    by (vm_compute; reflexivity).
  destruct (saved_preset_loads_back u " snake " None u' "" Hc Hn Hsave)
    as (Hv & _ & Hl & _).
  exact (conj Hv Hl).
Defined.
